(** * Henneth: persona selection, review orchestration and summary parsing

    A shallow embedding of the Python sources
      - [backend_product/persona_selector.py]  (persona store and selector),
      - [backend/product_reviewer.py], [backend_product/utils.py],
        [backend_product/product.py]          (generation provider),
      - [backend/manger.py]                    (review orchestrator),
      - [backend/review_summarizer.py]         (summary record and its JSON path),
    together with the parts of CPython's [json] and [random] modules those
    sources call.  Python objects that are mutated or shared live in an
    explicit heap; exceptions, logging, standard output, the random generator
    and the text-generation backend are threaded through one state-and-error
    monad. *)

From Stdlib Require Import ZArith NArith List String Ascii Bool Lia.
From stdpp Require Import base option list gmap.
Import ListNotations.

Local Open Scope Z_scope.

(** ** Python values shared by all modules *)
Module Py.

(** A Python [str] is a sequence of code points (surrogates included). *)
Definition str : Type := list N.

Definition ch (a : ascii) : N := N_of_ascii a.
Arguments ch : simpl never.

Definition py (s : string) : str := map N_of_ascii (list_ascii_of_string s).

(** The double quote cannot be written inside a literal. *)
Definition DQUOTE : N := 34%N.
Definition SQUOTE : N := 39%N.
Definition NEWLINE : N := 10%N.

Definition str_eqb (a b : str) : bool := bool_decide (a = b).

Definition str_in (a : str) (l : list str) : bool := bool_decide (a ∈ l).

(** [sep.join(items)]. *)
Fixpoint join (sep : str) (items : list str) : str :=
  match items with
  | [] => []
  | [x] => x
  | x :: rest => x ++ sep ++ join sep rest
  end.

(** [str(n)] for a non-negative integer: its decimal digits. *)
Definition digit_char (d : N) : N := (48 + d)%N.

Fixpoint digits_fuel (fuel : nat) (n : N) (acc : str) : str :=
  match fuel with
  | O => acc
  | S fuel =>
      let acc := digit_char (n mod 10) :: acc in
      if (n / 10 =? 0)%N then acc else digits_fuel fuel (n / 10)%N acc
  end.

Definition str_of_N (n : N) : str := digits_fuel (S (N.to_nat (N.log2 n))) n [].

Definition str_of_Z (z : Z) : str :=
  if z <? 0 then ch "-" :: str_of_N (Z.to_N (- z)) else str_of_N (Z.to_N z).

(** Exceptions the modelled code can raise.  All of them derive from
    [Exception]; [BaseException]-only signals (keyboard interrupt, interpreter
    exit) are outside the model. *)
Inductive exn : Type :=
| ValueError
| TypeError
| IndexError
| KeyError
| AttributeError
| JSONDecodeError
| UnicodeEncodeError
| OSError
| ProviderError (code : nat).

(** [json.JSONDecodeError] is a subclass of [ValueError]. *)
Definition is_JSONDecodeError (e : exn) : bool :=
  match e with JSONDecodeError => true | _ => false end.

Inductive Res (A : Type) : Type :=
| Ok (a : A)
| Raise (e : exn).
Arguments Ok {A} a.
Arguments Raise {A} e.

Definition res_bind {A B} (r : Res A) (k : A -> Res B) : Res B :=
  match r with
  | Ok a => k a
  | Raise e => Raise e
  end.

Definition res_map {A B} (f : A -> B) (r : Res A) : Res B :=
  match r with
  | Ok a => Ok (f a)
  | Raise e => Raise e
  end.

Definition is_ok {A} (r : Res A) : bool :=
  match r with Ok _ => true | Raise _ => false end.

(** [mapM] for [Res]: the first failure aborts. *)
Fixpoint res_mapM {A B} (f : A -> Res B) (l : list A) : Res (list B) :=
  match l with
  | [] => Ok []
  | x :: l =>
      res_bind (f x) (fun y => res_bind (res_mapM f l) (fun ys => Ok (y :: ys)))
  end.

End Py.
Export Py.

#[export] Instance res_ret : MRet Res := fun _ a => Ok a.
#[export] Instance res_mbind : MBind Res := fun _ _ k r => res_bind r k.

(** ** Tabular data: the fragment of pandas the selector uses *)
Module Pandas.

(** A cell of a frame read from a spreadsheet.  [CNull] is the missing value
    (NaN), [CNum] an integer-valued number, [CStr] text, and [CList] a Python
    list of strings (what [_convert_string_to_list] produces).  Fractional
    numbers, booleans and dates are outside the model. *)
Inductive cell : Type :=
| CNull
| CNum (z : Z)
| CStr (s : str)
| CList (l : list str).

#[export] Instance cell_eq_dec : EqDecision cell.
Proof. solve_decision. Defined.

(** A row maps column labels to cells; an absent label reads as NaN. *)
Abbreviation Row := (gmap str cell).

Record DataFrame : Type := mkFrame { columns : list str; rows : list Row }.

Definition at_col (r : Row) (c : str) : cell := default CNull (r !! c).

(** [len(df)] *)
Definition len (f : DataFrame) : Z := Z.of_nat (length (rows f)).

(** [series.dtype == 'object']: the column holds something that is not a
    number (text or lists); an all-missing or all-numeric column is numeric. *)
Definition is_object_cell (c : cell) : bool :=
  match c with CStr _ | CList _ => true | CNull | CNum _ => false end.

Definition dtype_is_object (f : DataFrame) (c : str) : bool :=
  existsb (fun r => is_object_cell (at_col r c)) (rows f).

(** [df[c] = values]: writes the column in place, adding its label when new. *)
Definition setitem (c : str) (values : list cell) (f : DataFrame) : DataFrame :=
  {| columns := if str_in c (columns f) then columns f else columns f ++ [c];
     rows := zip_with (fun r v => <[c := v]> r) (rows f) values |}.

(** [df[mask]]: the rows whose mask entry is true, as a new frame. *)
Fixpoint select_rows (rs : list Row) (mask : list bool) : list Row :=
  match rs, mask with
  | r :: rs, b :: mask => if b then r :: select_rows rs mask else select_rows rs mask
  | _, _ => []
  end.

Definition getitem_mask (f : DataFrame) (mask : list bool) : DataFrame :=
  {| columns := columns f; rows := select_rows (rows f) mask |}.

(** [pd.concat([a, b], ignore_index=True)]: rows of [a] then rows of [b];
    the columns are the union, labels of [a] first. *)
Definition concat (a b : DataFrame) : DataFrame :=
  {| columns := columns a ++ filter (fun c => negb (str_in c (columns a))) (columns b);
     rows := rows a ++ rows b |}.

(** [pd.DataFrame(list_of_series)] for series that share their labels. *)
Definition of_series (labels : list str) (l : list Row) : DataFrame :=
  {| columns := match l with [] => [] | _ => labels end; rows := l |}.

(** Numeric reading of a score cell; a missing score counts as [0], as in
    [sum(axis=1)] which skips NaN. *)
Definition score_of (c : cell) : Z :=
  match c with CNum z => z | _ => 0 end.

(** Stable insertion of a row into a list sorted by descending score: the
    row goes before the rows that follow it in the frame and score no more. *)
Fixpoint insert_desc (key : Row -> Z) (r : Row) (l : list Row) : list Row :=
  match l with
  | [] => [r]
  | x :: l' => if key x <=? key r then r :: l else x :: insert_desc key r l'
  end.

Definition sort_desc (key : Row -> Z) (l : list Row) : list Row :=
  foldr (insert_desc key) [] l.

(** [df.nlargest(n, c)] with the default [keep='first']: the [n] rows of
    largest value, in descending order, earlier rows first among equals; no
    rows when [n <= 0]. *)
Definition nlargest (n : Z) (c : str) (f : DataFrame) : DataFrame :=
  {| columns := columns f;
     rows := take (Z.to_nat n) (sort_desc (fun r => score_of (at_col r c)) (rows f)) |}.

End Pandas.
Export Pandas.

(** ** The world the program runs in *)
Module Runtime.

Inductive level : Type := INFO | ERROR.

(** A log record: level, the literal text of the message, and the values
    interpolated into it. *)
Inductive logarg : Type :=
| ArgStr (s : str)
| ArgCell (c : cell)
| ArgInt (z : Z)
| ArgExn (e : exn).

Record logrec : Type := mkLog { lvl : level; text : str; args : list logarg }.

(** [str(e)]: the message an exception carries.  It is decided where the
    exception is raised, mostly inside libraries, and is kept abstract. *)
Class ExnText : Type := exn_text : exn -> str.

(** The cached catalog [unique_values]: a dict with six fixed keys, each
    holding the list of distinct values of one field.  The scalar fields hold
    cells as they occur in the frame; the multi-valued ones hold strings. *)
Module Catalog.
Record t : Type := mk {
  professions : list cell;
  nationalities : list cell;
  salary_ranges : list cell;
  hobbies : list str;
  priorities : list str;
  constraints : list str }.
Definition empty : t := mk [] [] [] [] [] [].
End Catalog.

(** Heap objects: frames and catalog dicts, the two kinds of object the
    selector keeps and hands out. *)
Inductive obj : Type :=
| OFrame (f : DataFrame)
| ODict (d : Catalog.t).

Definition loc : Type := nat.

Record World : Type := mkWorld {
  heap : list obj;                 (* allocated objects, by address *)
  entropy : list nat;              (* what the random generator will draw *)
  backend : list (Res str);        (* outcomes of the coming model.invoke calls *)
  clock : nat;                     (* datetime.now() *)
  stdout_faults : list (option exn); (* outcomes of the coming print calls *)
  stdout : list str;
  log : list logrec }.

Definition M (A : Type) : Type := World -> Res A * World.

Definition ret {A} (a : A) : M A := fun w => (Ok a, w).
Definition raise {A} (e : exn) : M A := fun w => (Raise e, w).
Definition bind {A B} (m : M A) (k : A -> M B) : M B :=
  fun w => match m w with
           | (Ok a, w') => k a w'
           | (Raise e, w') => (Raise e, w')
           end.

#[export] Instance M_ret : MRet M := @ret.
#[export] Instance M_bind : MBind M := fun _ _ k m => bind m k.

(** [try: m except Exception as e: h e] *)
Definition try_except {A} (m : M A) (h : exn -> M A) : M A :=
  fun w => match m w with
           | (Ok a, w') => (Ok a, w')
           | (Raise e, w') => h e w'
           end.

Definition lift {A} (r : Res A) : M A := fun w => (r, w).

Definition get_world : M World := fun w => (Ok w, w).

Definition logger (l : level) (t : string) (a : list logarg) : M unit :=
  fun w => (Ok tt, mkWorld (heap w) (entropy w) (backend w) (clock w)
                           (stdout_faults w) (stdout w)
                           (log w ++ [mkLog l (py t) a])).

(** [for x in l: body x], stopping at the first exception. *)
Fixpoint for_each {A} (l : list A) (body : A -> M unit) : M unit :=
  match l with
  | [] => ret tt
  | x :: l => bind (body x) (fun _ => for_each l body)
  end.

(** *** Heap *)
Definition alloc (o : obj) : M loc :=
  fun w => (Ok (length (heap w)),
            mkWorld (heap w ++ [o]) (entropy w) (backend w) (clock w)
                    (stdout_faults w) (stdout w) (log w)).

Definition store (l : loc) (o : obj) : M unit :=
  fun w => (Ok tt,
            mkWorld (<[l := o]> (heap w)) (entropy w) (backend w) (clock w)
                    (stdout_faults w) (stdout w) (log w)).

Definition empty_frame : DataFrame := mkFrame [] [].

(** Reading a reference.  References are only created by [alloc], so the
    defaults below are never reached from a constructed selector. *)
Definition read_frame (l : loc) : M DataFrame :=
  fun w => (Ok (match heap w !! l with Some (OFrame f) => f | _ => empty_frame end), w).

Definition read_dict (l : loc) : M Catalog.t :=
  fun w => (Ok (match heap w !! l with Some (ODict d) => d | _ => Catalog.empty end), w).

Definition update_frame (l : loc) (g : DataFrame -> DataFrame) : M unit :=
  bind (read_frame l) (fun f => store l (OFrame (g f))).

(** *** The [random] module *)
Definition draw : M nat :=
  fun w => match entropy w with
           | [] => (Ok 0%nat, w)
           | d :: e => (Ok d, mkWorld (heap w) e (backend w) (clock w)
                                      (stdout_faults w) (stdout w) (log w))
           end.

(** [random.randint(a, b)]: uniform in [a..b]; raises on an empty range. *)
Definition randint (a b : Z) : M Z :=
  if b <? a then raise ValueError
  else bind draw (fun d => ret (a + Z.of_nat d mod (b - a + 1))).

(** [random.choice(seq)]: raises [IndexError] on an empty sequence. *)
Definition choice {A} (l : list A) : M A :=
  match l with
  | [] => raise IndexError
  | x :: _ => bind draw (fun d => ret (nth (d mod length l) l x))
  end.

Fixpoint sample_loop {A} (k : nat) (pool : list A) : M (list A) :=
  match k with
  | O => ret []
  | S k =>
      bind draw (fun d =>
        let i := (d mod length pool)%nat in
        match pool !! i with
        | Some x => bind (sample_loop k (delete i pool)) (fun rest => ret (x :: rest))
        | None => raise ValueError
        end)
  end.

(** [random.sample(population, k)]: [k] distinct positions, in drawing order;
    raises when [k] is negative or exceeds the population. *)
Definition sample {A} (population : list A) (k : Z) : M (list A) :=
  if (k <? 0) || (Z.of_nat (length population) <? k) then raise ValueError
  else sample_loop (Z.to_nat k) population.

(** *** The text-generation backend and the clock *)
Definition invoke_backend : M str :=
  fun w => match backend w with
           | [] => (Raise (ProviderError 0), w)
           | r :: rest => (r, mkWorld (heap w) (entropy w) rest (clock w)
                                      (stdout_faults w) (stdout w) (log w))
           end.

Definition now : M nat :=
  fun w => (Ok (clock w), mkWorld (heap w) (entropy w) (backend w) (S (clock w))
                                  (stdout_faults w) (stdout w) (log w)).

(** [print(s)]: appends to standard output unless the write fails. *)
Definition print (s : str) : M unit :=
  fun w =>
    let faults := match stdout_faults w with [] => [] | _ :: t => t end in
    match stdout_faults w with
    | Some e :: _ => (Raise e, mkWorld (heap w) (entropy w) (backend w) (clock w)
                                       faults (stdout w) (log w))
    | _ => (Ok tt, mkWorld (heap w) (entropy w) (backend w) (clock w)
                           faults (stdout w ++ [s]) (log w))
    end.

End Runtime.
Export Runtime.

(** ** [persona_selector.py] *)
Module Selector.

(** *** Python helpers used by the selector *)

(** Truthiness of an optional list: [None] and the empty list are false. *)
Definition truthy {A} (o : option (list A)) : option (list A) :=
  match o with
  | Some (x :: l) => Some (x :: l)
  | _ => None
  end.

(** Distinct elements in order of first occurrence ([Series.unique()], and
    the iteration order chosen here for [list(set(...))], which Python leaves
    unspecified). *)
Fixpoint unique_from {A} `{EqDecision A} (seen : list A) (l : list A) : list A :=
  match l with
  | [] => []
  | x :: l =>
      if bool_decide (x ∈ seen) then unique_from seen l
      else x :: unique_from (x :: seen) l
  end.

Definition unique {A} `{EqDecision A} (l : list A) : list A := unique_from [] l.

(** [len(set(x) & set(desired))] *)
Definition match_count (x desired : list str) : Z :=
  Z.of_nat (length (filter (fun h => str_in h desired) (unique x))).

(** Iterating over a cell: a list yields its items, a string its
    characters, anything else is not iterable. *)
Definition iter_cell (c : cell) : Res (list str) :=
  match c with
  | CList l => Ok l
  | CStr s => Ok (map (fun ch => [ch]) s)
  | CNull | CNum _ => Raise TypeError
  end.

(** [cell >= k] and [cell <= k] as pandas evaluates them on a column. *)
Definition cell_ge (c : cell) (k : Z) : Res bool :=
  match c with
  | CNum z => Ok (k <=? z)
  | CNull => Ok false
  | CStr _ | CList _ => Raise TypeError
  end.

Definition cell_le (c : cell) (k : Z) : Res bool :=
  match c with
  | CNum z => Ok (z <=? k)
  | CNull => Ok false
  | CStr _ | CList _ => Raise TypeError
  end.

(** [series.isin(values)] for a list of strings. *)
Definition cell_isin (values : list str) (c : cell) : Res bool :=
  match c with
  | CStr s => Ok (str_in s values)
  | CNull | CNum _ => Ok false
  | CList _ => Raise TypeError
  end.

(** [str.strip(chars)] and [str.strip()] *)
Fixpoint lstrip (p : N -> bool) (s : str) : str :=
  match s with
  | c :: s' => if p c then lstrip p s' else s
  | [] => []
  end.

Definition strip (p : N -> bool) (s : str) : str :=
  rev (lstrip p (rev (lstrip p s))).

Definition is_space (c : N) : bool :=
  bool_decide (c ∈ [9; 10; 11; 12; 13; 28; 29; 30; 31; 32; 133; 160; 5760;
                    8192; 8193; 8194; 8195; 8196; 8197; 8198; 8199; 8200;
                    8201; 8202; 8232; 8233; 8239; 8287; 12288]%N).

Definition is_bracket_or_quote (c : N) : bool :=
  bool_decide (c ∈ [ch "["; ch "]"; SQUOTE; DQUOTE]).

Definition is_quote (c : N) : bool := bool_decide (c ∈ [SQUOTE; DQUOTE]).

(** [s.split(',')] *)
Fixpoint split_comma (cur : str) (s : str) : list str :=
  match s with
  | [] => [rev cur]
  | c :: s' =>
      if (c =? ch ",")%N then rev cur :: split_comma [] s'
      else split_comma (c :: cur) s'
  end.

(** *** Records *)
Module Criteria.
Record t : Type := mk {
  age_range : option (Z * Z);
  professions : option (list str);
  nationalities : option (list str);
  salary_ranges : option (list str);
  desired_hobbies : option (list str);
  desired_priorities : option (list str);
  constraints : option (list str);
  min_matching_hobbies : Z;
  min_matching_priorities : Z }.
End Criteria.

(** The dataclass does not check its fields: each one holds whatever cell
    the row had. *)
Module SelectedPersona.
Record t : Type := mk {
  name : cell;
  age : cell;
  profession : cell;
  nationality : cell;
  salary_range : cell;
  hobbies : cell;
  priorities : cell;
  constraints : cell }.
End SelectedPersona.

(** The selector object: two attributes, each a reference into the heap. *)
Record PersonaSelector : Type := mkSelector { df : loc; unique_values : loc }.

Definition required_columns : list str :=
  map py ["name"; "age"; "profession"; "nationality";
          "salary_range"; "hobbies"; "priorities"; "constraints"]%string.

Definition list_columns : list str :=
  map py ["hobbies"; "priorities"; "constraints"]%string.

(** [series[label]]: [KeyError] when the frame has no such column. *)
Definition series_get (f : DataFrame) (r : Row) (label : string) : Res cell :=
  if str_in (py label) (columns f) then Ok (at_col r (py label)) else Raise KeyError.

Definition from_series (f : DataFrame) (r : Row) : Res SelectedPersona.t :=
  n ← series_get f r "name";
  a ← series_get f r "age";
  p ← series_get f r "profession";
  t ← series_get f r "nationality";
  s ← series_get f r "salary_range";
  h ← series_get f r "hobbies";
  q ← series_get f r "priorities";
  c ← series_get f r "constraints";
  Ok (SelectedPersona.mk n a p t s h q c).

(** *** Loading *)

Definition _convert_string_to_list (value : cell) : list str :=
  match value with
  | CList l => l
  | CNull => []
  | CStr [] => []
  | CStr s =>
      let cleaned := filter (fun c => negb (is_quote c)) (strip is_bracket_or_quote s) in
      filter (fun item => negb (bool_decide (item = [])))
             (map (strip is_space) (split_comma [] cleaned))
  | CNum _ => []
  end.

Definition apply_convert (c : str) (f : DataFrame) : DataFrame :=
  setitem c (map (fun r => CList (_convert_string_to_list (at_col r c))) (rows f)) f.

Definition prepare_dataframe (self_df : loc) : M unit :=
  f ← read_frame self_df;
  let missing_columns := filter (fun c => negb (str_in c (columns f))) required_columns in
  match missing_columns with
  | _ :: _ => raise ValueError
  | [] =>
      for_each list_columns (fun col =>
        f ← read_frame self_df;
        if dtype_is_object f col then update_frame self_df (apply_convert col)
        else ret tt)
  end.

(** [[v for cell in column for v in cell]] *)
Definition flatten_column (f : DataFrame) (c : string) : Res (list str) :=
  ls ← res_mapM (fun r => iter_cell (at_col r (py c))) (rows f);
  Ok (List.concat ls).

Definition column (f : DataFrame) (c : string) : Res (list cell) :=
  if str_in (py c) (columns f) then Ok (map (fun r => at_col r (py c)) (rows f))
  else Raise KeyError.

Definition compute_unique_values (f : DataFrame) : Res Catalog.t :=
  p ← column f "profession";
  n ← column f "nationality";
  s ← column f "salary_range";
  _ ← column f "hobbies";
  h ← flatten_column f "hobbies";
  _ ← column f "priorities";
  q ← flatten_column f "priorities";
  _ ← column f "constraints";
  c ← flatten_column f "constraints";
  Ok (Catalog.mk (unique p) (unique n) (unique s) (unique h) (unique q) (unique c)).

(** Builds the catalog dict and returns the reference stored in
    [self.unique_values]. *)
Definition _cache_unique_values (self_df : loc) : M loc :=
  try_except
    (f ← read_frame self_df;
     cat ← lift (compute_unique_values f);
     alloc (ODict cat))
    (fun e => _ ← logger ERROR "Error caching unique values: " [ArgExn e]; raise e).

(** [PersonaSelector(excel_path)], given what [pd.read_excel] returned. *)
Definition __init__ (read_excel : Res DataFrame) : M PersonaSelector :=
  try_except
    (f ← lift read_excel;
     self_df ← alloc (OFrame f);
     _ ← prepare_dataframe self_df;
     uv ← _cache_unique_values self_df;
     _ ← logger INFO "Successfully initialized PersonaSelector" [];
     ret (mkSelector self_df uv))
    (fun e => _ ← logger ERROR "Error initializing PersonaSelector: " [ArgExn e]; raise e).

(** *** Synthetic personas *)

Definition series_labels : list str := required_columns.

Definition mk_series (name : str) (age : Z) (profession nationality salary_range : cell)
    (hobbies priorities constraints : list str) : Row :=
  <[py "name" := CStr name]>
  (<[py "age" := CNum age]>
  (<[py "profession" := profession]>
  (<[py "nationality" := nationality]>
  (<[py "salary_range" := salary_range]>
  (<[py "hobbies" := CList hobbies]>
  (<[py "priorities" := CList priorities]>
  (<[py "constraints" := CList constraints]> ∅))))))).

(** [random.choice(allow if allow else catalog)] *)
Definition choose_categorical (allow : option (list str)) (catalog : list cell) : M cell :=
  match truthy allow with
  | Some l => choice (map CStr l)
  | None => choice catalog
  end.

(** The seeded part of a multi-valued field:
    [random.sample(desired, min(min_matching, len(desired)))] when a desired
    set is given, nothing otherwise. *)
Definition seed_matches (desired : option (list str)) (min_matching : Z) : M (list str) :=
  match truthy desired with
  | Some l => sample l (Z.min min_matching (Z.of_nat (length l)))
  | None => ret []
  end.

(** Seed, then pad with [randint(1, hi)] catalog values not yet chosen. *)
Definition multi_valued (desired : option (list str)) (min_matching : Z)
    (catalog : list str) (hi : Z) : M (list str) :=
  seeded ← seed_matches desired min_matching;
  let pool := filter (fun h => negb (str_in h seeded)) catalog in
  k ← randint 1 hi;
  remaining ← sample pool k;
  ret (seeded ++ remaining).

(** The body of [_generate_random_persona], over the catalog that
    [self.unique_values] holds. *)
Definition generate_from (criteria : Criteria.t) (cat : Catalog.t) : M Row :=
  n ← randint 1000 9999;
  let random_name := py "RandomPersona_" ++ str_of_Z n in
  age ← match Criteria.age_range criteria with
        | Some (lo, hi) => randint lo hi
        | None => randint 18 80
        end;
  profession ← choose_categorical (Criteria.professions criteria) (Catalog.professions cat);
  nationality ← choose_categorical (Criteria.nationalities criteria) (Catalog.nationalities cat);
  salary_range ← choose_categorical (Criteria.salary_ranges criteria) (Catalog.salary_ranges cat);
  hobbies ← multi_valued (Criteria.desired_hobbies criteria)
                         (Criteria.min_matching_hobbies criteria) (Catalog.hobbies cat) 3;
  priorities ← multi_valued (Criteria.desired_priorities criteria)
                            (Criteria.min_matching_priorities criteria) (Catalog.priorities cat) 2;
  k ← randint 1 2;
  constraints ← sample (Catalog.constraints cat) k;
  ret (mk_series random_name age profession nationality salary_range
                 hobbies priorities constraints).

Definition _generate_random_persona (self : PersonaSelector) (criteria : Criteria.t) : M Row :=
  try_except
    (cat ← read_dict (unique_values self);
     generate_from criteria cat)
    (fun e => _ ← logger ERROR "Error generating random persona: " [ArgExn e]; raise e).

(** *** Filtering *)

(** A boolean mask over the rows of a frame; the comparison fails as a
    whole when one cell cannot be compared. *)
Definition mask_of (f : DataFrame) (test : Row -> Res bool) : Res (list bool) :=
  res_mapM test (rows f).

(** [filtered_df = filtered_df[mask]]: a new frame object. *)
Definition filter_frame (l : loc) (test : Row -> Res bool) : M loc :=
  f ← read_frame l;
  mask ← lift (mask_of f test);
  alloc (OFrame (getitem_mask f mask)).

Definition age_test (range : Z * Z) (r : Row) : Res bool :=
  ge ← cell_ge (at_col r (py "age")) (fst range);
  le ← cell_le (at_col r (py "age")) (snd range);
  Ok (ge && le).

Definition isin_test (label : string) (values : list str) (r : Row) : Res bool :=
  cell_isin values (at_col r (py label)).

Definition count_test (label : string) (threshold : Z) (r : Row) : Res bool :=
  cell_ge (at_col r (py label)) threshold.

(** [df[dst] = df[src].apply(lambda x: len(set(x) & set(desired)))], written
    into the frame at [l]. *)
Definition assign_match_count (l : loc) (src dst : string) (desired : list str) : M unit :=
  f ← read_frame l;
  counts ← lift (res_mapM (fun r => x ← iter_cell (at_col r (py src));
                                     Ok (CNum (match_count x desired))) (rows f));
  store l (OFrame (setitem (py dst) counts f)).

Definition when_some {A} (o : option A) (l : loc) (k : A -> M loc) : M loc :=
  match o with
  | Some a => k a
  | None => ret l
  end.

Definition score_columns (criteria : Criteria.t) : list str :=
  match truthy (Criteria.desired_hobbies criteria) with
  | Some _ => [py "hobby_match_count"]
  | None => []
  end ++
  match truthy (Criteria.desired_priorities criteria) with
  | Some _ => [py "priority_match_count"]
  | None => []
  end.

Definition total_score (cols : list str) (r : Row) : Z :=
  foldr (fun c acc => score_of (at_col r c) + acc) 0 cols.

(** The last step: cut the frame down to [num_personas] rows. *)
Definition trim (criteria : Criteria.t) (num_personas : Z) (l : loc) : M loc :=
  f ← read_frame l;
  if num_personas <? len f then
    match score_columns criteria with
    | [] =>
        picked ← sample (rows f) num_personas;
        alloc (OFrame (mkFrame (columns f) picked))
    | cols =>
        _ ← store l (OFrame (setitem (py "total_score")
                               (map (fun r => CNum (total_score cols r)) (rows f)) f));
        f ← read_frame l;
        alloc (OFrame (nlargest num_personas (py "total_score") f))
    end
  else ret l.

Fixpoint repeatM {A} (n : nat) (m : M A) : M (list A) :=
  match n with
  | O => ret []
  | S n => x ← m; xs ← repeatM n m; ret (x :: xs)
  end.

Definition backfill (self : PersonaSelector) (criteria : Criteria.t)
    (num_personas : Z) (randomize_if_insufficient : bool) (l : loc) : M loc :=
  f ← read_frame l;
  if (len f <? num_personas) && randomize_if_insufficient then
    let num_random_needed := num_personas - len f in
    random_personas ← repeatM (Z.to_nat num_random_needed)
                              (_generate_random_persona self criteria);
    random_df ← alloc (OFrame (of_series series_labels random_personas));
    rf ← read_frame random_df;
    alloc (OFrame (concat f rf))
  else ret l.

(** The filter phase: the scalar filters, then the multi-valued ones. *)
Definition apply_filters (criteria : Criteria.t) (filtered_df : loc) : M loc :=
  filtered_df ← when_some (Criteria.age_range criteria) filtered_df
                  (fun range => filter_frame filtered_df (age_test range));
  filtered_df ← when_some (truthy (Criteria.professions criteria)) filtered_df
                  (fun vs => filter_frame filtered_df (isin_test "profession" vs));
  filtered_df ← when_some (truthy (Criteria.nationalities criteria)) filtered_df
                  (fun vs => filter_frame filtered_df (isin_test "nationality" vs));
  filtered_df ← when_some (truthy (Criteria.salary_ranges criteria)) filtered_df
                  (fun vs => filter_frame filtered_df (isin_test "salary_range" vs));
  filtered_df ← when_some (truthy (Criteria.desired_hobbies criteria)) filtered_df
                  (fun desired =>
                     _ ← assign_match_count filtered_df "hobbies" "hobby_match_count" desired;
                     filter_frame filtered_df
                       (count_test "hobby_match_count" (Criteria.min_matching_hobbies criteria)));
  when_some (truthy (Criteria.desired_priorities criteria)) filtered_df
    (fun desired =>
       _ ← assign_match_count filtered_df "priorities" "priority_match_count" desired;
       filter_frame filtered_df
         (count_test "priority_match_count" (Criteria.min_matching_priorities criteria))).

Definition _filter_personas (self : PersonaSelector) (criteria : Criteria.t)
    (num_personas : Z) (randomize_if_insufficient : bool) : M loc :=
  try_except
    (f ← read_frame (df self);
     filtered_df ← alloc (OFrame f);                        (* self.df.copy() *)
     filtered_df ← apply_filters criteria filtered_df;
     filtered_df ← backfill self criteria num_personas randomize_if_insufficient filtered_df;
     filtered_df ← trim criteria num_personas filtered_df;
     f ← read_frame filtered_df;
     _ ← logger INFO "Successfully filtered and generated personas" [ArgInt (len f)];
     ret filtered_df)
    (fun e => _ ← logger ERROR "Error filtering personas: " [ArgExn e]; raise e).

Definition get_selected_personas (self : PersonaSelector) (criteria : Criteria.t)
    (num_personas : Z) (randomize_if_insufficient : bool) : M (list SelectedPersona.t) :=
  try_except
    (filtered_df ← _filter_personas self criteria num_personas randomize_if_insufficient;
     f ← read_frame filtered_df;
     lift (res_mapM (from_series f) (rows f)))
    (fun e => _ ← logger ERROR "Error getting selected personas: " [ArgExn e]; raise e).

(** [self.unique_values.copy()]: a new dict object with the same items. *)
Definition get_unique_values (self : PersonaSelector) : M loc :=
  d ← read_dict (unique_values self);
  alloc (ODict d).

End Selector.

(** ** CPython's [json] module, as far as [ReviewSummary] uses it

    [dumps] is [json.dumps(obj, indent=2)] and [raw_decode] is
    [json.JSONDecoder().raw_decode], with the default settings of both.
    The limits of the interpreter are outside the model, except the limit
    on the digits of an integer literal: a document nested deeper than the
    recursion limit is decoded here, and an integer of more than 4300 digits
    is printed, where CPython raises. *)
Module Json.

(** Python floats are kept abstract: the development never computes with
    them, it only prints them ([float.__repr__]) and reads them back
    ([float(literal)]). *)
Class PyFloat : Type := {
  pyfloat : Type;
  pyfloat_eq_dec :: EqDecision pyfloat;
  float_of_str : str -> pyfloat;     (* float(s), for a JSON number literal s *)
  float_repr : pyfloat -> str;       (* float.__repr__(x) *)
  float_nan : pyfloat;               (* float('nan') *)
  float_inf : pyfloat;               (* float('inf') *)
  float_neginf : pyfloat;            (* float('-inf') *)
  float_is_nan : pyfloat -> bool     (* x != x *)
}.

Section WithFloat.
Context `{PyFloat}.

#[local] Set Warnings "-register-all".

(** The Python values a JSON document decodes to.  A dict is kept as its
    items in insertion order; its keys are distinct. *)
Inductive pyval : Type :=
| PNone
| PBool (b : bool)
| PInt (z : Z)
| PFloat (f : pyfloat)
| PStr (s : str)
| PList (l : list pyval)
| PDict (d : list (str * pyval)).

(** *** Characters *)
Definition BACKSLASH : N := 92%N.
Definition SPACE : N := 32%N.

Definition is_digit (c : N) : bool := (48 <=? c)%N && (c <=? 57)%N.

(** The JSON whitespace characters: space, tab, newline, carriage return. *)
Definition is_ws (c : N) : bool :=
  (c =? 32)%N || (c =? 9)%N || (c =? 10)%N || (c =? 13)%N.

Fixpoint skip_ws (s : str) : str :=
  match s with
  | c :: r => if is_ws c then skip_ws r else s
  | [] => []
  end.

(** *** Encoding: [json.dumps(obj, indent=2)] *)

Definition hex_digit (d : N) : N :=
  if (d <? 10)%N then (48 + d)%N else (87 + d)%N.

(** ['\\u{0:04x}'.format(n)] *)
Definition escape_u (n : N) : str :=
  [BACKSLASH; ch "u";
   hex_digit (n / 4096 mod 16); hex_digit (n / 256 mod 16);
   hex_digit (n / 16 mod 16); hex_digit (n mod 16)]%N.

(** The replacement of one character by [py_encode_basestring_ascii]. *)
Definition escape_char (c : N) : str :=
  if (c =? DQUOTE)%N then [BACKSLASH; DQUOTE]
  else if (c =? BACKSLASH)%N then [BACKSLASH; BACKSLASH]
  else if (c =? 10)%N then [BACKSLASH; ch "n"]
  else if (c =? 13)%N then [BACKSLASH; ch "r"]
  else if (c =? 9)%N then [BACKSLASH; ch "t"]
  else if (c =? 8)%N then [BACKSLASH; ch "b"]
  else if (c =? 12)%N then [BACKSLASH; ch "f"]
  else if (32 <=? c)%N && (c <=? 126)%N then [c]
  else if (c <? 65536)%N then escape_u c
  else
    let n := (c - 65536)%N in
    let s1 := N.lor 55296 (N.land (N.shiftr n 10) 1023) in
    let s2 := N.lor 56320 (N.land n 1023) in
    escape_u s1 ++ escape_u s2.

Definition escape_body (s : str) : str := List.concat (map escape_char s).

Definition encode_basestring_ascii (s : str) : str :=
  DQUOTE :: escape_body s ++ [DQUOTE].

Definition floatstr (o : pyfloat) : str :=
  if float_is_nan o then py "NaN"
  else if bool_decide (o = float_inf) then py "Infinity"
  else if bool_decide (o = float_neginf) then py "-Infinity"
  else float_repr o.

(** ['\n' + ' ' * (2 * level)] *)
Definition newline_indent (level : nat) : str := NEWLINE :: repeat SPACE (2 * level).

Definition item_separator (level : nat) : str := ch "," :: newline_indent level.

Definition key_separator : str := [ch ":"; SPACE].

Fixpoint encode (level : nat) (o : pyval) : str :=
  match o with
  | PNone => py "null"
  | PBool true => py "true"
  | PBool false => py "false"
  | PInt z => str_of_Z z
  | PFloat f => floatstr f
  | PStr s => encode_basestring_ascii s
  | PList [] => py "[]"
  | PList (x :: l) =>
      [ch "["] ++ newline_indent (S level) ++ encode (S level) x ++
      (fix items (l : list pyval) : str :=
         match l with
         | [] => []
         | y :: l => item_separator (S level) ++ encode (S level) y ++ items l
         end) l ++
      newline_indent level ++ [ch "]"]
  | PDict [] => py "{}"
  | PDict ((k, x) :: d) =>
      [ch "{"] ++ newline_indent (S level) ++
      encode_basestring_ascii k ++ key_separator ++ encode (S level) x ++
      (fix items (d : list (str * pyval)) : str :=
         match d with
         | [] => []
         | (k, y) :: d =>
             item_separator (S level) ++ encode_basestring_ascii k ++ key_separator ++
             encode (S level) y ++ items d
         end) d ++
      newline_indent level ++ [ch "}"]
  end.

Definition dumps (o : pyval) : str := encode 0 o.

(** *** Decoding: [json.JSONDecoder().raw_decode] (the C scanner) *)

Definition hex_value (c : N) : option N :=
  if (48 <=? c)%N && (c <=? 57)%N then Some (c - 48)%N
  else if (97 <=? c)%N && (c <=? 102)%N then Some (c - 87)%N
  else if (65 <=? c)%N && (c <=? 70)%N then Some (c - 55)%N
  else None.

Definition hex4 (a b c d : N) : option N :=
  match hex_value a, hex_value b, hex_value c, hex_value d with
  | Some a, Some b, Some c, Some d => Some (((a * 16 + b) * 16 + c) * 16 + d)%N
  | _, _, _, _ => None
  end.

Definition is_high_surrogate (c : N) : bool := (55296 <=? c)%N && (c <=? 56319)%N.
Definition is_low_surrogate (c : N) : bool := (56320 <=? c)%N && (c <=? 57343)%N.

(** [Py_UNICODE_JOIN_SURROGATES] *)
Definition join_surrogates (hi lo : N) : N :=
  (65536 + N.lor (N.shiftl (N.land hi 1023) 10) (N.land lo 1023))%N.

(** The character a two-character escape stands for. *)
Definition unescape (c : N) : option N :=
  if (c =? DQUOTE)%N then Some DQUOTE
  else if (c =? BACKSLASH)%N then Some BACKSLASH
  else if (c =? ch "/")%N then Some (ch "/")
  else if (c =? ch "b")%N then Some 8%N
  else if (c =? ch "f")%N then Some 12%N
  else if (c =? ch "n")%N then Some 10%N
  else if (c =? ch "r")%N then Some 13%N
  else if (c =? ch "t")%N then Some 9%N
  else None.

Definition cons_char (c : N) (r : Res (str * str)) : Res (str * str) :=
  match r with
  | Ok (cs, rest) => Ok (c :: cs, rest)
  | Raise e => Raise e
  end.

(** [scanstring(s, end, strict=True)], from the character after the opening
    quote: the decoded string and what follows the closing quote. *)
Fixpoint scanstring (s : str) : Res (str * str) :=
  match s with
  | [] => Raise JSONDecodeError
  | c :: r =>
      if (c =? DQUOTE)%N then Ok ([], r)
      else if (c =? BACKSLASH)%N then
        match r with
        | [] => Raise JSONDecodeError
        | e :: r1 =>
            if (e =? ch "u")%N then
              match r1 with
              | h1 :: h2 :: h3 :: h4 :: r2 =>
                  match hex4 h1 h2 h3 h4 with
                  | None => Raise JSONDecodeError
                  | Some uni =>
                      if is_high_surrogate uni then
                        match r2 with
                        | b :: u :: k1 :: k2 :: k3 :: k4 :: r3 =>
                            if (b =? BACKSLASH)%N && (u =? ch "u")%N then
                              match hex4 k1 k2 k3 k4 with
                              | None => Raise JSONDecodeError
                              | Some uni2 =>
                                  if is_low_surrogate uni2
                                  then cons_char (join_surrogates uni uni2) (scanstring r3)
                                  else cons_char uni (scanstring r2)
                              end
                            else cons_char uni (scanstring r2)
                        | _ => cons_char uni (scanstring r2)
                        end
                      else cons_char uni (scanstring r2)
                  end
              | _ => Raise JSONDecodeError
              end
            else
              match unescape e with
              | Some c' => cons_char c' (scanstring r1)
              | None => Raise JSONDecodeError
              end
        end
      else if (c <=? 31)%N then Raise JSONDecodeError
      else cons_char c (scanstring r)
  end.

(** Leading digits and the rest. *)
Fixpoint span_digits (s : str) : str * str :=
  match s with
  | c :: r => if is_digit c then let '(ds, rest) := span_digits r in (c :: ds, rest)
              else ([], s)
  | [] => ([], [])
  end.

Definition digits_value (ds : str) : Z :=
  fold_left (fun acc c => acc * 10 + Z.of_N (c - 48)) ds 0.

(** [sys.get_int_max_str_digits()], the default. *)
Definition int_max_str_digits : nat := 4300.

(** The fraction (a dot and at least one digit) at the head of [s], if any. *)
Definition scan_frac (s : str) : str * str :=
  match s with
  | dot :: d :: r =>
      if (dot =? ch ".")%N && is_digit d then
        let '(ds, rest) := span_digits r in (dot :: d :: ds, rest)
      else ([], s)
  | _ => ([], s)
  end.

(** The exponent (e or E, an optional sign, at least one digit) at the head
    of [s], if any. *)
Definition scan_exp (s : str) : str * str :=
  match s with
  | e :: r =>
      if (e =? ch "e")%N || (e =? ch "E")%N then
        let '(sign, r1) :=
          match r with
          | sg :: t => if (sg =? ch "-")%N || (sg =? ch "+")%N then ([sg], t) else ([], r)
          | [] => ([], r)
          end in
        match span_digits r1 with
        | ([], _) => ([], s)
        | (ds, rest) => (e :: sign ++ ds, rest)
        end
      else ([], s)
  | [] => ([], s)
  end.

(** What follows the integer part (an optional minus sign, then a single
    zero or a non-zero digit and further digits). *)
Definition finish_number (neg : bool) (int_digits : str) (s : str) : Res (pyval * str) :=
  let '(frac, r1) := scan_frac s in
  let '(exp, r2) := scan_exp r1 in
  match frac, exp with
  | [], [] =>
      if (int_max_str_digits <? length int_digits)%nat then Raise ValueError
      else Ok (PInt (if neg then - digits_value int_digits else digits_value int_digits), r2)
  | _, _ =>
      Ok (PFloat (float_of_str ((if neg then [ch "-"] else []) ++ int_digits ++ frac ++ exp)), r2)
  end.

Definition match_number (s : str) : Res (pyval * str) :=
  let '(neg, s1) := match s with
                    | c :: r => if (c =? ch "-")%N then (true, r) else (false, s)
                    | [] => (false, s)
                    end in
  match s1 with
  | c :: r =>
      if (c =? ch "0")%N then finish_number neg [c] r
      else if is_digit c then
        let '(ds, rest) := span_digits r in finish_number neg (c :: ds) rest
      else Raise JSONDecodeError
  | [] => Raise JSONDecodeError
  end.

(** [s[:len(p)] == p], and the rest of [s]. *)
Fixpoint strip_prefix (p s : str) : option str :=
  match p, s with
  | [], _ => Some s
  | a :: p, b :: s => if (a =? b)%N then strip_prefix p s else None
  | _ :: _, [] => None
  end.

(** The scalar tokens: the named constants first, then a number. *)
Definition scan_scalar (s : str) : Res (pyval * str) :=
  match strip_prefix (py "null") s with Some r => Ok (PNone, r) | None =>
  match strip_prefix (py "true") s with Some r => Ok (PBool true, r) | None =>
  match strip_prefix (py "false") s with Some r => Ok (PBool false, r) | None =>
  match strip_prefix (py "NaN") s with Some r => Ok (PFloat float_nan, r) | None =>
  match strip_prefix (py "Infinity") s with Some r => Ok (PFloat float_inf, r) | None =>
  match strip_prefix (py "-Infinity") s with Some r => Ok (PFloat float_neginf, r) | None =>
  match_number s
  end end end end end end.

(** [dict[key] = value]: a new key goes last, a known key keeps its place. *)
Fixpoint dict_set (d : list (str * pyval)) (k : str) (v : pyval) : list (str * pyval) :=
  match d with
  | [] => [(k, v)]
  | (k', v') :: d => if str_eqb k' k then (k', v) :: d else (k', v') :: dict_set d k v
  end.

Fixpoint dict_get (d : list (str * pyval)) (k : str) : option pyval :=
  match d with
  | [] => None
  | (k', v') :: d => if str_eqb k' k then Some v' else dict_get d k
  end.

(** The scanner is recursive on nested values; the model counts the
    nesting and the members with a fuel that [raw_decode] sets high enough.
    [None] means the fuel ran out. *)
Definition step_value (parse_object parse_array : str -> option (Res (pyval * str)))
    (s : str) : option (Res (pyval * str)) :=
  match s with
  | [] => Some (Raise JSONDecodeError)
  | c :: r =>
      if (c =? DQUOTE)%N then
        Some (match scanstring r with
              | Ok (k, rest) => Ok (PStr k, rest)
              | Raise e => Raise e
              end)
      else if (c =? ch "{")%N then parse_object (skip_ws r)
      else if (c =? ch "[")%N then parse_array (skip_ws r)
      else Some (scan_scalar s)
  end.

(** One member of an object, from its key on. *)
Definition step_member (scan_once : str -> option (Res (pyval * str)))
    (next_member : list (str * pyval) -> str -> option (Res (pyval * str)))
    (pairs : list (str * pyval)) (s : str) : option (Res (pyval * str)) :=
  match s with
  | c :: r =>
      if (c =? DQUOTE)%N then
        match scanstring r with
        | Raise e => Some (Raise e)
        | Ok (key, r1) =>
            match skip_ws r1 with
            | colon :: r2 =>
                if (colon =? ch ":")%N then
                  match scan_once (skip_ws r2) with
                  | None => None
                  | Some (Raise e) => Some (Raise e)
                  | Some (Ok (value, r3)) =>
                      let pairs := dict_set pairs key value in
                      match skip_ws r3 with
                      | d :: r4 =>
                          if (d =? ch "}")%N then Some (Ok (PDict pairs, r4))
                          else if (d =? ch ",")%N then next_member pairs (skip_ws r4)
                          else Some (Raise JSONDecodeError)
                      | [] => Some (Raise JSONDecodeError)
                      end
                  end
                else Some (Raise JSONDecodeError)
            | [] => Some (Raise JSONDecodeError)
            end
        end
      else Some (Raise JSONDecodeError)
  | [] => Some (Raise JSONDecodeError)
  end.

(** One element of an array. *)
Definition step_element (scan_once : str -> option (Res (pyval * str)))
    (next_element : list pyval -> str -> option (Res (pyval * str)))
    (values : list pyval) (s : str) : option (Res (pyval * str)) :=
  match scan_once s with
  | None => None
  | Some (Raise e) => Some (Raise e)
  | Some (Ok (value, r1)) =>
      let values := values ++ [value] in
      match skip_ws r1 with
      | d :: r2 =>
          if (d =? ch "]")%N then Some (Ok (PList values, r2))
          else if (d =? ch ",")%N then next_element values (skip_ws r2)
          else Some (Raise JSONDecodeError)
      | [] => Some (Raise JSONDecodeError)
      end
  end.

Definition open_object (members : list (str * pyval) -> str -> option (Res (pyval * str)))
    (s : str) : option (Res (pyval * str)) :=
  match s with
  | c :: r => if (c =? ch "}")%N then Some (Ok (PDict [], r)) else members [] s
  | [] => members [] s
  end.

Definition open_array (elements : list pyval -> str -> option (Res (pyval * str)))
    (s : str) : option (Res (pyval * str)) :=
  match s with
  | c :: r => if (c =? ch "]")%N then Some (Ok (PList [], r)) else elements [] s
  | [] => elements [] s
  end.

Fixpoint scan_once (fuel : nat) (s : str) {struct fuel} : option (Res (pyval * str)) :=
  match fuel with
  | O => None
  | S fuel =>
      step_value (open_object (members fuel)) (open_array (elements fuel)) s
  end
with members (fuel : nat) (pairs : list (str * pyval)) (s : str) {struct fuel}
  : option (Res (pyval * str)) :=
  match fuel with
  | O => None
  | S fuel => step_member (scan_once fuel) (members fuel) pairs s
  end
with elements (fuel : nat) (values : list pyval) (s : str) {struct fuel}
  : option (Res (pyval * str)) :=
  match fuel with
  | O => None
  | S fuel => step_element (scan_once fuel) (elements fuel) values s
  end.

(** [decoder.raw_decode(s)]: the value at the start of [s] and what follows
    it.  The fuel given is never used up (see [scan_once_enough]). *)
Definition raw_decode (s : str) : Res (pyval * str) :=
  match scan_once (S (2 * length s)) s with
  | Some r => r
  | None => Raise JSONDecodeError
  end.

End WithFloat.

Arguments pyval {_}.

(** A stand-in for Python's floats that has the integral values only,
    printed as [d.0]; it is used to run the model on examples. *)
Inductive integral_float : Type :=
| FNan
| FInf
| FNegInf
| FIntegral (z : Z).

#[export] Instance integral_float_eq_dec : EqDecision integral_float.
Proof. solve_decision. Defined.

Definition integral_of_str (s : str) : integral_float :=
  match s with
  | c :: r =>
      if (c =? ch "-")%N then FIntegral (- digits_value (fst (span_digits r)))
      else FIntegral (digits_value (fst (span_digits s)))
  | [] => FIntegral 0
  end.

Definition integral_repr (f : integral_float) : str :=
  match f with
  | FNan => py "nan"
  | FInf => py "inf"
  | FNegInf => py "-inf"
  | FIntegral z => str_of_Z z ++ py ".0"
  end.

Definition integral_floats : PyFloat :=
  {| pyfloat := integral_float;
     float_of_str := integral_of_str;
     float_repr := integral_repr;
     float_nan := FNan;
     float_inf := FInf;
     float_neginf := FNegInf;
     float_is_nan := fun f => match f with FNan => true | _ => false end |}.

End Json.

(** ** [review_summarizer.py]: the summary record and its JSON path *)
Module Summarizer.
Import Json.

Section WithFloat.
Context `{PyFloat}.

(** The dataclass does not check its fields: each holds whatever value it
    was given, in particular whatever the decoded JSON had under that key. *)
Record ReviewSummary : Type := mkSummary {
  overall_sentiment : pyval;
  purchase_intent_percentage : pyval;
  confidence_score : pyval;
  key_strengths : pyval;
  key_concerns : pyval;
  demographic_insights : pyval;
  common_themes : pyval;
  recommendation : pyval;
  detailed_summary : pyval }.

Definition field_names : list str :=
  map py ["overall_sentiment"; "purchase_intent_percentage"; "confidence_score";
          "key_strengths"; "key_concerns"; "demographic_insights";
          "common_themes"; "recommendation"; "detailed_summary"]%string.

(** [self.__dict__] *)
Definition __dict__ (self : ReviewSummary) : list (str * pyval) :=
  [(py "overall_sentiment", overall_sentiment self);
   (py "purchase_intent_percentage", purchase_intent_percentage self);
   (py "confidence_score", confidence_score self);
   (py "key_strengths", key_strengths self);
   (py "key_concerns", key_concerns self);
   (py "demographic_insights", demographic_insights self);
   (py "common_themes", common_themes self);
   (py "recommendation", recommendation self);
   (py "detailed_summary", detailed_summary self)].

(** The constructor called with the items of [data] as keyword arguments:
    a [TypeError] for an unexpected keyword or a missing argument. *)
Definition from_kwargs (data : list (str * pyval)) : Res ReviewSummary :=
  if forallb (fun kv => str_in (fst kv) field_names) data then
    match dict_get data (py "overall_sentiment"),
          dict_get data (py "purchase_intent_percentage"),
          dict_get data (py "confidence_score"),
          dict_get data (py "key_strengths"),
          dict_get data (py "key_concerns"),
          dict_get data (py "demographic_insights"),
          dict_get data (py "common_themes"),
          dict_get data (py "recommendation"),
          dict_get data (py "detailed_summary") with
    | Some a, Some b, Some c, Some d, Some e, Some f, Some g, Some h, Some i =>
        Ok (mkSummary a b c d e f g h i)
    | _, _, _, _, _, _, _, _, _ => Raise TypeError
    end
  else Raise TypeError.

(** [s.find(c)]: the first index of [c], or [-1]. *)
Fixpoint find_from (c : N) (s : str) (i : Z) : Z :=
  match s with
  | [] => -1
  | x :: r => if (x =? c)%N then i else find_from c r (i + 1)
  end.

Definition find (c : N) (s : str) : Z := find_from c s 0.

(** [s[i:]], for any integer [i]: a negative index counts from the end. *)
Definition slice_from (i : Z) (s : str) : str :=
  let n := Z.of_nat (length s) in
  let start := if i <? 0 then Z.max 0 (i + n) else i in
  drop (Z.to_nat start) s.

Definition unable_review : pyval := PStr (py "Unable to parse review").

(** The summary returned when parsing fails. *)
Definition fallback : ReviewSummary :=
  mkSummary
    (PStr (py "Neutral"))
    (PFloat (float_of_str (py "0.0")))
    (PFloat (float_of_str (py "0.0")))
    (PList [unable_review])
    (PList [unable_review])
    (PDict [(py "error", unable_review)])
    (PList [unable_review])
    (PStr (py "Unable to generate recommendation due to parsing error"))
    (PStr (py "Unable to generate summary due to parsing error")).

(** The statements of the [try] block after [print]. *)
Definition parse (json_str : str) : Res ReviewSummary :=
  let start_index := find (ch "{") json_str in
  let json_string := slice_from start_index json_str in
  match raw_decode json_string with
  | Raise e => Raise e
  | Ok (data, _) =>
      match data with
      | PDict d => from_kwargs d
      | _ => Raise ValueError
      end
  end.

Definition from_json (json_str : str) : M ReviewSummary :=
  bind
    (try_except
       (bind (print json_str) (fun _ =>
        bind (lift (parse json_str)) (fun summary => ret (Some summary))))
       (fun e =>
          bind (if is_JSONDecodeError e
                then logger ERROR "JSONDecodeError: " [ArgExn e; ArgStr json_str]
                else logger ERROR "Error parsing JSON: " [ArgExn e; ArgStr json_str])
               (fun _ => ret None)))
    (fun returned =>
       match returned with
       | Some summary => ret summary
       | None => ret fallback
       end).

(** [json.dumps(self.__dict__, indent=2)] *)
Definition to_json (self : ReviewSummary) : str := dumps (PDict (__dict__ self)).

End WithFloat.

Arguments ReviewSummary {_}.

End Summarizer.

(** ** [utils.py], [product.py] and [product_reviewer.py]: the generation provider *)
Module Reviewer.
Import Json Selector.

(** *** [utils.py] *)
Inductive AIProvider : Type := GEMINI | OPENAI.

#[export] Instance AIProvider_eq_dec : EqDecision AIProvider.
Proof. solve_decision. Defined.

(** [provider.value] *)
Definition value (p : AIProvider) : str :=
  match p with GEMINI => py "gemini" | OPENAI => py "openai" end.

(** [str.lower], on the letters A..Z.  The other code points are left as
    they are; none of them lower-cases to text made of the letters of
    [gemini] and [openai], so the lookup below decides as Python does. *)
Definition lower_char (c : N) : N :=
  if (65 <=? c)%N && (c <=? 90)%N then (c + 32)%N else c.

Definition lower (s : str) : str := map lower_char s.

(** [AIProvider(provider.lower())]: lookup of an enum member by value. *)
Definition AIProvider_of (provider : str) : Res AIProvider :=
  let v := lower provider in
  if str_eqb v (value GEMINI) then Ok GEMINI
  else if str_eqb v (value OPENAI) then Ok OPENAI
  else Raise ValueError.

(** The dataclass does not check its fields: the scalar ones hold the
    cells of the persona. *)
Record ReviewerProfile : Type := mkProfile {
  profile_profession : cell;
  profile_age : cell;
  profile_nationality : cell;
  profile_salary_range : cell;
  profile_priorities : str;
  profile_hobbies : str;
  profile_constraints : str }.

Record Message : Type := mkMessage { role : str; content : str; timestamp : nat }.

Record ReviewSession : Type := mkSession {
  messages : list Message;
  final_review : option str }.

(** [ReviewSession()] *)
Definition new_session : ReviewSession := mkSession [] None.

(** [session.add_message(role, content)] *)
Definition add_message (session : ReviewSession) (role content : str) : M ReviewSession :=
  t ← now;
  ret (mkSession (messages session ++ [mkMessage role content t]) (final_review session)).

(** *** [SelectedPersona.to_reviewer_profile] *)

(** [sep.join(x)]: a list of strings is joined, a string is joined character
    by character, anything else is not iterable. *)
Definition join_cell (sep : str) (x : cell) : Res str :=
  match x with
  | CList l => Ok (join sep l)
  | CStr s => Ok (join sep (map (fun c => [c]) s))
  | _ => Raise TypeError
  end.

Definition comma_space : str := py ", ".

Definition to_reviewer_profile (self : SelectedPersona.t) : Res ReviewerProfile :=
  priorities ← join_cell comma_space (SelectedPersona.priorities self);
  hobbies ← join_cell comma_space (SelectedPersona.hobbies self);
  constraints ← join_cell comma_space (SelectedPersona.constraints self);
  Ok (mkProfile (SelectedPersona.profession self) (SelectedPersona.age self)
        (SelectedPersona.nationality self) (SelectedPersona.salary_range self)
        priorities hobbies constraints).

(** *** [product.py] *)
Record Product : Type := mkProduct {
  product_name : str;
  product_price : str;
  product_description : str;
  strengths : option (list str);
  weaknesses : option (list str);
  unique_features : option (list str) }.

(** One optional section of the product text: left out when the list is
    [None] or empty. *)
Definition optional_section (title : string) (items : option (list str)) : str :=
  match items with
  | Some (x :: l) => [NEWLINE; NEWLINE] ++ py title ++ [NEWLINE] ++ join [NEWLINE] (x :: l)
  | _ => []
  end.

Definition to_review_format (self : Product) : str :=
  let base_info :=
    py "Review this product: " ++ product_name self ++ [NEWLINE] ++ py "        " ++
    product_description self ++ py " price: " ++ product_price self in
  base_info ++ optional_section "Strengths:" (strengths self)
            ++ optional_section "Weaknesses:" (weaknesses self)
            ++ optional_section "Uniqueness:" (unique_features self).

(** *** [product_reviewer.py] *)

(** The keyword arguments of a chat client. *)
Abbreviation Config := (gmap str pyval).

Section WithLibrary.
Context `{PyFloat}.

(** What the constructors of the LangChain chat clients raise for given
    keyword arguments, if anything. *)
Class ClientLibrary : Type := client_check : AIProvider -> Config -> option exn.
Context `{ClientLibrary}.

(** A constructed client: which backend it talks to and with which
    keyword arguments it was built. *)
Record ChatModel : Type := mkModel { family : AIProvider; settings : Config }.

Definition new_client (p : AIProvider) (config : Config) : Res ChatModel :=
  match client_check p config with
  | Some e => Raise e
  | None => Ok (mkModel p config)
  end.

Record ProductReviewer : Type := mkReviewer {
  provider : AIProvider;
  api_key : str;
  model_config : Config;
  model : option ChatModel }.

Definition default_config (p : AIProvider) (api_key : str) : Config :=
  match p with
  | GEMINI =>
      {[ py "model" := PStr (py "gemini-1.5-pro");
         py "temperature" := PFloat (float_of_str (py "0.7"));
         py "google_api_key" := PStr api_key ]}
  | OPENAI =>
      {[ py "model" := PStr (py "gpt-4o-mini");
         py "temperature" := PFloat (float_of_str (py "0.7"));
         py "openai_api_key" := PStr api_key ]}
  end.

(** [{**default_config, **self.model_config}]: the items of the second
    dict replace those of the first. *)
Definition effective_config (p : AIProvider) (api_key : str) (model_config : Config) : Config :=
  model_config ∪ default_config p api_key.

Definition initialized (p : AIProvider) : string :=
  match p with
  | GEMINI => "Successfully initialized Gemini model"
  | OPENAI => "Successfully initialized OpenAI model"
  end.

Definition _initialize_model (self : ProductReviewer) : M ProductReviewer :=
  try_except
    (let config := effective_config (provider self) (api_key self) (model_config self) in
     client ← lift (new_client (provider self) config);
     _ ← logger INFO (initialized (provider self)) [];
     ret (mkReviewer (provider self) (api_key self) (model_config self) (Some client)))
    (fun e =>
       _ ← logger ERROR "Error initializing model: " [ArgStr (value (provider self)); ArgExn e];
       raise e).

(** [ProductReviewer(provider, api_key, model_config)]; [model_config or {}]
    turns [None] into the empty dict. *)
Definition __init__ (provider : str) (api_key : str) (model_config : option Config)
    : M ProductReviewer :=
  p ← lift (AIProvider_of provider);
  _initialize_model (mkReviewer p api_key (default ∅ model_config) None).

(** The values interpolated into the fixed text of the system prompt; the
    text lower-cases the first and the third. *)
Record SystemPrompt : Type := mkPrompt {
  prompt_nationality : str;
  prompt_age : cell;
  prompt_profession : str;
  prompt_salary_range : cell;
  prompt_priorities : str;
  prompt_hobbies : str;
  prompt_constraints : str }.

(** [x.lower()] needs a string. *)
Definition as_text (x : cell) : Res str :=
  match x with
  | CStr s => Ok s
  | _ => Raise AttributeError
  end.

Definition _generate_system_prompt (profile : ReviewerProfile) : Res SystemPrompt :=
  nationality ← as_text (profile_nationality profile);
  profession ← as_text (profile_profession profile);
  Ok (mkPrompt nationality (profile_age profile) profession (profile_salary_range profile)
        (profile_priorities profile) (profile_hobbies profile) (profile_constraints profile)).

(** [self.model.invoke(messages)]: the reply is the backend's to give. *)
Definition invoke (m : option ChatModel) (system : SystemPrompt) (human : str) : M str :=
  match m with
  | Some _ => invoke_backend
  | None => raise AttributeError
  end.

Definition _process_message (self : ProductReviewer) (system : SystemPrompt) (human : str)
    : M str :=
  try_except
    (invoke (model self) system human)
    (fun e => _ ← logger ERROR "Error in processing message: " [ArgExn e]; raise e).

Definition _parse_ai_response (response : str) : str := response.

Definition generate_review (self : ProductReviewer) (product : Product)
    (profile : ReviewerProfile) : M ReviewSession :=
  let session := new_session in
  system ← lift (_generate_system_prompt profile);
  let human := to_review_format product in
  response ← _process_message self system human;
  let review_content := _parse_ai_response response in
  let session := mkSession (messages session) (Some review_content) in
  add_message session (py "ai") review_content.

End WithLibrary.

End Reviewer.

(** ** [review_summarizer.py] (the summarizer) and [manger.py] (the orchestrator) *)
Module Manager.
Import Json Selector Summarizer Reviewer.

Section WithLibrary.
Context `{PyFloat} `{ExnText} `{!ClientLibrary}.

(** *** [ReviewSummarizer] *)
Record ReviewSummarizer : Type := mkSummarizer { summarizer_model : ChatModel }.

Definition summarizer_config (api_key : str) : Config :=
  {[ py "model" := PStr (py "gemini-1.5-pro");
     py "temperature" := PFloat (float_of_str (py "0.2"));
     py "google_api_key" := PStr api_key ]}.

(** [ReviewSummarizer(api_key)] *)
Definition new_summarizer (api_key : str) : Res ReviewSummarizer :=
  res_map mkSummarizer (new_client GEMINI (summarizer_config api_key)).

Record ProductInfo : Type := mkInfo {
  info_name : str;
  info_description : str;
  info_price : str;
  info_category : str }.

Definition error_review : pyval := PStr (py "Error processing review").

(** The summary returned when the summarizer's own call fails. *)
Definition processing_failed (e : exn) : ReviewSummary :=
  mkSummary
    (PStr (py "Neutral"))
    (PFloat (float_of_str (py "0.0")))
    (PFloat (float_of_str (py "0.0")))
    (PList [error_review])
    (PList [error_review])
    (PDict [(py "error", PStr (py "Processing failed"))])
    (PList [error_review])
    (PStr (py "Unable to generate recommendation due to processing error"))
    (PStr (py "Error occurred while processing reviews: " ++ exn_text e)).

(** [summarize_reviews(reviews, product_info)].  The prompt is built from
    the review texts in the order given; the reply is the backend's to give.
    The debug record is below the configured logging level. *)
Definition summarize_reviews (self : ReviewSummarizer) (reviews : list (option str))
    (product_info : ProductInfo) : M ReviewSummary :=
  try_except
    (response ← invoke_backend;
     from_json response)
    (fun e =>
       _ ← logger ERROR "Error in summarize_reviews: " [ArgExn e];
       ret (processing_failed e)).

(** *** [Manager] *)
Record ReviewConfiguration : Type := mkConfiguration {
  persona_criteria : Criteria.t;
  num_personas : Z;
  ai_provider : str;
  config_api_key : str;
  config_model_config : option Config;
  randomize_if_insufficient : bool }.

Record t : Type := mkManager {
  persona_selector : PersonaSelector;
  summarizer : ReviewSummarizer }.

(** [Manager(persona_data_path, summarizer_api_key)] *)
Definition __init__ (read_excel : Res DataFrame) (summarizer_api_key : str) : M t :=
  selector ← Selector.__init__ read_excel;
  s ← lift (new_summarizer summarizer_api_key);
  ret (mkManager selector s).

(** The [persona] entry of a review record. *)
Record PersonaInfo : Type := mkPersonaInfo {
  name : cell;
  age : cell;
  profession : cell;
  nationality : cell;
  salary_range : cell;
  hobbies : cell;
  priorities : cell }.

Record ReviewRecord : Type := mkRecord {
  persona : PersonaInfo;
  review : option str;
  record_timestamp : option nat }.

Definition persona_info (p : SelectedPersona.t) : PersonaInfo :=
  mkPersonaInfo (SelectedPersona.name p) (SelectedPersona.age p)
    (SelectedPersona.profession p) (SelectedPersona.nationality p)
    (SelectedPersona.salary_range p) (SelectedPersona.hobbies p)
    (SelectedPersona.priorities p).

(** The body of the inner [try]: the record that is appended. *)
Definition review_persona (reviewer : ProductReviewer) (product : Product)
    (persona : SelectedPersona.t) : M ReviewRecord :=
  profile ← lift (to_reviewer_profile persona);
  review_session ← generate_review reviewer product profile;
  ret (mkRecord (persona_info persona) (final_review review_session)
         (timestamp <$> last (messages review_session))).

(** The [for] loop: a record is appended for a persona whose review is
    generated; an exception is logged and the loop continues. *)
Fixpoint review_loop (reviewer : ProductReviewer) (product : Product)
    (selected_personas : list SelectedPersona.t) (reviews : list ReviewRecord)
    : M (list ReviewRecord) :=
  match selected_personas with
  | [] => ret reviews
  | persona :: rest =>
      reviews ←
        try_except
          (r ← review_persona reviewer product persona; ret (reviews ++ [r]))
          (fun e =>
             _ ← logger ERROR "Error generating review for persona "
                   [ArgCell (SelectedPersona.name persona); ArgExn e];
             ret reviews);
      review_loop reviewer product rest reviews
  end.

Record Metadata : Type := mkMetadata {
  total_personas : nat;
  successful_reviews : nat;
  metadata_ai_provider : str }.

Record Result : Type := mkResult {
  result_product : ProductInfo;
  result_summary : ReviewSummary;
  metadata : Metadata }.

(** [getattr(product, 'category', 'N/A')]: a [Product] has no such field. *)
Definition product_info_of (product : Product) : ProductInfo :=
  mkInfo (product_name product) (product_description product) (product_price product)
         (py "N/A").

Definition generate_product_reviews (self : t) (product : Product)
    (config : ReviewConfiguration) : M Result :=
  try_except
    (selected_personas ←
       get_selected_personas (persona_selector self) (persona_criteria config)
         (num_personas config) (randomize_if_insufficient config);
     _ ← logger INFO "Selected personas for review generation"
           [ArgInt (Z.of_nat (length selected_personas))];
     reviewer ← Reviewer.__init__ (ai_provider config) (config_api_key config)
                  (config_model_config config);
     reviews ← review_loop reviewer product selected_personas [];
     let product_info := product_info_of product in
     let review_texts := map review reviews in
     summary ← summarize_reviews (summarizer self) review_texts product_info;
     ret (mkResult product_info summary
            (mkMetadata (length selected_personas) (length reviews) (ai_provider config))))
    (fun e =>
       _ ← logger ERROR "Error in review generation process: " [ArgExn e];
       raise e).

(** [self.persona_selector.get_unique_values()] *)
Definition get_available_persona_criteria (self : t) : M loc :=
  get_unique_values (persona_selector self).

End WithLibrary.

End Manager.

(** ** Vocabulary for the selector's properties *)
Module SelectorSpec.
Import Selector.

(** [holds w0 l f w]: in [w], the frame [f] sits at an address allocated
    after [w0], and everything [w0] had allocated is untouched. *)
Definition holds (w0 : World) (l : loc) (f : DataFrame) (w : World) : Prop :=
  heap w0 `prefix_of` heap w ∧ (length (heap w0) ≤ l)%nat ∧ heap w !! l = Some (OFrame f).

(** A step that replaces the working frame by a function of it. *)
Definition frame_step (step : loc → M loc) (pure : DataFrame → Res DataFrame) : Prop :=
  ∀ w0 l f w, holds w0 l f w →
    match pure f with
    | Ok g => ∃ l' w', step l w = (Ok l', w') ∧ holds w0 l' g w'
    | Raise e => ∃ w', step l w = (Raise e, w') ∧ heap w0 `prefix_of` heap w'
    end.

Definition pure_when {A} (o : option A) (k : A → DataFrame → Res DataFrame)
    (f : DataFrame) : Res DataFrame :=
  match o with Some a => k a f | None => Ok f end.

Definition apply_filter (test : Row → Res bool) (f : DataFrame) : Res DataFrame :=
  mask ← mask_of f test; Ok (getitem_mask f mask).

Definition with_match_count (src dst : string) (desired : list str) (f : DataFrame)
  : Res DataFrame :=
  counts ← res_mapM (fun r => x ← iter_cell (at_col r (py src));
                              Ok (CNum (match_count x desired))) (rows f);
  Ok (setitem (py dst) counts f).

(** The filter phase as a function of the frame: the frame of matching
    records, or the exception a malformed cell causes. *)
Definition matching (c : Criteria.t) (f : DataFrame) : Res DataFrame :=
  f ← pure_when (Criteria.age_range c) (fun range => apply_filter (age_test range)) f;
  f ← pure_when (truthy (Criteria.professions c))
        (fun vs => apply_filter (isin_test "profession" vs)) f;
  f ← pure_when (truthy (Criteria.nationalities c))
        (fun vs => apply_filter (isin_test "nationality" vs)) f;
  f ← pure_when (truthy (Criteria.salary_ranges c))
        (fun vs => apply_filter (isin_test "salary_range" vs)) f;
  f ← pure_when (truthy (Criteria.desired_hobbies c))
        (fun desired f =>
           g ← with_match_count "hobbies" "hobby_match_count" desired f;
           apply_filter (count_test "hobby_match_count" (Criteria.min_matching_hobbies c)) g) f;
  pure_when (truthy (Criteria.desired_priorities c))
        (fun desired f =>
           g ← with_match_count "priorities" "priority_match_count" desired f;
           apply_filter (count_test "priority_match_count" (Criteria.min_matching_priorities c)) g) f.

(** [quiet m Q]: [m] never touches the heap, and any value it returns
    satisfies [Q]. *)
Definition quiet {A} (m : M A) (Q : A → Prop) : Prop :=
  ∀ w, ∃ r w', m w = (r, w') ∧ heap w' = heap w ∧
               match r with Ok a => Q a | Raise _ => True end.

(** What a synthesized multi-valued field looks like: a seed drawn from
    the desired list, then between one and [hi] further catalog values. *)
Definition seeded_from (desired : option (list str)) (min_matching : Z) (seed : list str) : Prop :=
  match truthy desired with
  | Some l => seed ⊆+ l ∧ Z.of_nat (length seed) = Z.min min_matching (Z.of_nat (length l))
  | None => seed = []
  end.

Definition multi_valued_ok (desired : option (list str)) (min_matching : Z)
    (catalog : list str) (hi : Z) (v : list str) : Prop :=
  ∃ seed extra,
    v = seed ++ extra ∧ seeded_from desired min_matching seed ∧
    extra ⊆+ filter (fun h => negb (str_in h seed)) catalog ∧
    1 ≤ Z.of_nat (length extra) ≤ hi.

Definition categorical_ok (allow : option (list str)) (catalog : list cell) (v : cell) : Prop :=
  match truthy allow with
  | Some l => ∃ s, v = CStr s ∧ s ∈ l
  | None => v ∈ catalog
  end.

(** [generated c cat r]: [r] is a row [_generate_random_persona] can return
    for criteria [c] over catalog [cat]. *)
Definition generated (c : Criteria.t) (cat : Catalog.t) (r : Row) : Prop :=
  ∃ k age profession nationality salary_range hobbies priorities constraints,
    r = mk_series (py "RandomPersona_" ++ str_of_Z k) age profession nationality
                  salary_range hobbies priorities constraints ∧
    1000 ≤ k ≤ 9999 ∧
    match Criteria.age_range c with
    | Some (lo, hi) => lo ≤ age ≤ hi
    | None => 18 ≤ age ≤ 80
    end ∧
    categorical_ok (Criteria.professions c) (Catalog.professions cat) profession ∧
    categorical_ok (Criteria.nationalities c) (Catalog.nationalities cat) nationality ∧
    categorical_ok (Criteria.salary_ranges c) (Catalog.salary_ranges cat) salary_range ∧
    multi_valued_ok (Criteria.desired_hobbies c) (Criteria.min_matching_hobbies c)
                    (Catalog.hobbies cat) 3 hobbies ∧
    multi_valued_ok (Criteria.desired_priorities c) (Criteria.min_matching_priorities c)
                    (Catalog.priorities cat) 2 priorities ∧
    constraints ⊆+ Catalog.constraints cat ∧
    1 ≤ Z.of_nat (length constraints) ≤ 2.

(** [total m]: [m] returns a value, whatever the random generator draws. *)
Definition total {A} (m : M A) : Prop :=
  ∀ w, ∃ a w', m w = (Ok a, w').

(** The catalog can supply the padding of a multi-valued field: at least
    [hi] catalog values lie outside the desired list, and the threshold is
    not negative. *)
Definition can_pad (desired : option (list str)) (min_matching : Z)
    (catalog : list str) (hi : Z) : Prop :=
  match truthy desired with
  | Some l => 0 ≤ min_matching ∧
              hi ≤ Z.of_nat (length (filter (fun h => negb (str_in h l)) catalog))
  | None => hi ≤ Z.of_nat (length catalog)
  end.

Definition can_choose (allow : option (list str)) (catalog : list cell) : Prop :=
  truthy allow = None → catalog ≠ [].

(** A sufficient condition for [_generate_random_persona] to return. *)
Definition can_backfill (c : Criteria.t) (cat : Catalog.t) : Prop :=
  match Criteria.age_range c with Some (lo, hi) => lo ≤ hi | None => True end ∧
  can_choose (Criteria.professions c) (Catalog.professions cat) ∧
  can_choose (Criteria.nationalities c) (Catalog.nationalities cat) ∧
  can_choose (Criteria.salary_ranges c) (Catalog.salary_ranges cat) ∧
  can_pad (Criteria.desired_hobbies c) (Criteria.min_matching_hobbies c)
          (Catalog.hobbies cat) 3 ∧
  can_pad (Criteria.desired_priorities c) (Criteria.min_matching_priorities c)
          (Catalog.priorities cat) 2 ∧
  2 ≤ Z.of_nat (length (Catalog.constraints cat)).

(** The persona a row materialises into. *)
Definition persona_of (r : Row) : SelectedPersona.t :=
  SelectedPersona.mk (at_col r (py "name")) (at_col r (py "age"))
    (at_col r (py "profession")) (at_col r (py "nationality"))
    (at_col r (py "salary_range")) (at_col r (py "hobbies"))
    (at_col r (py "priorities")) (at_col r (py "constraints")).

(** *** The constraints of a criteria, read on a persona *)

Definition in_age_range (range : Z * Z) (v : cell) : bool :=
  match v with
  | CNum a => (fst range <=? a) && (a <=? snd range)
  | _ => false
  end.

Definition in_allow_list (allow : list str) (v : cell) : bool :=
  match v with
  | CStr s => str_in s allow
  | _ => false
  end.

(** The record's values share at least [threshold] members with [desired]. *)
Definition meets_threshold (desired : list str) (threshold : Z) (v : cell) : bool :=
  match iter_cell v with
  | Ok x => threshold <=? match_count x desired
  | Raise _ => false
  end.

Definition opt_test {A} (o : option A) (t : A → bool) : bool :=
  match o with Some a => t a | None => true end.

(** Every constraint that is given and, for the list-valued ones, not
    empty: what the selector enforces. *)
Definition passes (c : Criteria.t) (p : SelectedPersona.t) : bool :=
  opt_test (Criteria.age_range c) (fun range => in_age_range range (SelectedPersona.age p)) &&
  opt_test (truthy (Criteria.professions c))
           (fun l => in_allow_list l (SelectedPersona.profession p)) &&
  opt_test (truthy (Criteria.nationalities c))
           (fun l => in_allow_list l (SelectedPersona.nationality p)) &&
  opt_test (truthy (Criteria.salary_ranges c))
           (fun l => in_allow_list l (SelectedPersona.salary_range p)) &&
  opt_test (truthy (Criteria.desired_hobbies c))
           (fun l => meets_threshold l (Criteria.min_matching_hobbies c) (SelectedPersona.hobbies p)) &&
  opt_test (truthy (Criteria.desired_priorities c))
           (fun l => meets_threshold l (Criteria.min_matching_priorities c)
                                     (SelectedPersona.priorities p)).

(** Every constraint that is given at all (not [None]), an empty list
    included. *)
Definition passes_given (c : Criteria.t) (p : SelectedPersona.t) : bool :=
  opt_test (Criteria.age_range c) (fun range => in_age_range range (SelectedPersona.age p)) &&
  opt_test (Criteria.professions c)
           (fun l => in_allow_list l (SelectedPersona.profession p)) &&
  opt_test (Criteria.nationalities c)
           (fun l => in_allow_list l (SelectedPersona.nationality p)) &&
  opt_test (Criteria.salary_ranges c)
           (fun l => in_allow_list l (SelectedPersona.salary_range p)) &&
  opt_test (Criteria.desired_hobbies c)
           (fun l => meets_threshold l (Criteria.min_matching_hobbies c) (SelectedPersona.hobbies p)) &&
  opt_test (Criteria.desired_priorities c)
           (fun l => meets_threshold l (Criteria.min_matching_priorities c)
                                     (SelectedPersona.priorities p)).

(** The records of the store that match the criteria. *)
Definition matches (c : Criteria.t) (f : DataFrame) : list SelectedPersona.t :=
  filter (fun p => passes c p) (map persona_of (rows f)).

(** The state a constructed selector is in: its two attributes point at
    the loaded frame and at the catalog, and the frame has every required
    column. *)
Definition selector_state (w : World) (self : PersonaSelector)
    (f : DataFrame) (cat : Catalog.t) : Prop :=
  heap w !! df self = Some (OFrame f) ∧
  heap w !! unique_values self = Some (ODict cat) ∧
  required_columns ⊆ columns f.

(** What [prepare_dataframe] leaves in the store: each multi-valued
    column of text is converted, the other columns are kept. *)
Definition convert_if (col : string) (f : DataFrame) : DataFrame :=
  if dtype_is_object f (py col) then apply_convert (py col) f else f.

Definition normalize (f : DataFrame) : DataFrame :=
  convert_if "constraints" (convert_if "priorities" (convert_if "hobbies" f)).

Definition scalar_columns : list str :=
  map py ["name"; "age"; "profession"; "nationality"; "salary_range"]%string.

(** What a selection call can produce, in terms of the store [f] and the
    catalog [cat]: the exception of the filter phase; or the matching
    records followed by synthesized ones; or a cut of the matching records;
    or the matching records themselves. *)
Definition outcome (c : Criteria.t) (cat : Catalog.t) (f : DataFrame) (n : Z) (b : bool)
    (r : Res (list SelectedPersona.t)) : Prop :=
  match matching c f with
  | Raise e => r = Raise e
  | Ok _ =>
      let real := matches c f in
      let k := Z.of_nat (length real) in
      if (k <? n) && b then
        match r with
        | Ok ps => ∃ synth, ps = real ++ map persona_of synth ∧
                            Z.of_nat (length synth) = n - k ∧
                            Forall (generated c cat) synth
        | Raise _ => ¬ can_backfill c cat
        end
      else if n <? k then
        if (n <? 0) && bool_decide (score_columns c = []) then r = Raise ValueError
        else ∃ ps, r = Ok ps ∧ length ps = Z.to_nat n ∧ ps ⊆+ real
      else r = Ok real
  end.

End SelectorSpec.

(** ** A small persona sheet used to exercise the model *)
Module Sheet.
Import Selector.

Definition persona_row (name : string) (age : cell) (profession hobbies priorities : string) : Row :=
  list_to_map
    [(py "name", CStr (py name)); (py "age", age);
     (py "profession", CStr (py profession));
     (py "nationality", CStr (py "Indian"));
     (py "salary_range", CStr (py "50k-80k"));
     (py "hobbies", CStr (py hobbies));
     (py "priorities", CStr (py priorities));
     (py "constraints", CStr (py "time, budget"))].

(** Three personas, multi-valued fields stored as delimited text. *)
Definition sheet : DataFrame :=
  mkFrame required_columns
    [persona_row "Asha" (CNum 30) "Software engineer" "chess, hiking, golf, music"
                 "price, quality, design";
     persona_row "Bram" (CNum 41) "Doctor" "['chess', 'reading']" "price, comfort";
     persona_row "Chen" (CNum 28) "Software engineer" "reading, golf, chess" "quality"].

(** The same sheet with the age of one persona left blank. *)
Definition sheet_blank_age : DataFrame :=
  mkFrame required_columns
    [persona_row "Asha" CNull "Software engineer" "chess, hiking" "price";
     persona_row "Bram" (CNum 41) "Doctor" "chess" "price"].

Definition boot : World :=
  mkWorld [] [7; 3; 5; 11; 2; 9; 4; 1; 0; 6; 8; 3; 3; 3; 1; 2; 5; 7; 9]%nat [] 0%nat [] [] [].

Definition selector_of (r : Res PersonaSelector * World) : PersonaSelector :=
  match fst r with Ok s => s | Raise _ => mkSelector 0%nat 0%nat end.

Definition frame_at (w : World) (l : loc) : DataFrame :=
  match heap w !! l with Some (OFrame f) => f | _ => empty_frame end.

Definition dict_at (w : World) (l : loc) : Catalog.t :=
  match heap w !! l with Some (ODict d) => d | _ => Catalog.empty end.

Definition loaded : Res PersonaSelector * World := __init__ (Ok sheet) boot.
Definition self : PersonaSelector := Eval vm_compute in selector_of loaded.
Definition world : World := Eval vm_compute in snd loaded.
Definition store : DataFrame := Eval vm_compute in frame_at world (df self).
Definition catalog : Catalog.t := Eval vm_compute in dict_at world (unique_values self).

Definition no_criteria : Criteria.t := Criteria.mk None None None None None None None 1 1.

(** Engineers between 25 and 35, as in [backend/test.py]. *)
Definition engineers : Criteria.t :=
  Criteria.mk (Some (25, 35)) (Some [py "Software engineer"]) None None None None None 1 1.

(** An age range with no member. *)
Definition empty_range : Criteria.t :=
  Criteria.mk (Some (40, 30)) None None None None None None 1 1.

(** An allow-list that is given but empty. *)
Definition no_profession : Criteria.t :=
  Criteria.mk None (Some []) None None None None None 1 1.

(** One desired hobby, two required matches. *)
Definition two_of_one : Criteria.t :=
  Criteria.mk None None None None (Some [py "chess"]) None None 2 1.

End Sheet.

(** ** Vocabulary for the properties of the JSON path *)
Module JsonSpec.
Import Json Summarizer.

Section WithFloat.
Context `{PyFloat}.

(** The keys of a decoded object are exactly the nine field names. *)
Definition schema_match (d : list (str * pyval)) : Prop :=
  ∀ k, k ∈ map fst d ↔ k ∈ field_names.

(** The object has every field and at least one other key. *)
Definition has_extra_key (d : list (str * pyval)) : Prop :=
  (∀ k, k ∈ field_names → k ∈ map fst d) ∧ ∃ k, k ∈ map fst d ∧ k ∉ field_names.

(** The text [from_json] hands to the decoder. *)
Definition json_string (json_str : str) : str :=
  slice_from (find (ch "{") json_str) json_str.

(** [print] will succeed in this world. *)
Definition stdout_writable (w : World) : Prop :=
  match stdout_faults w with
  | Some _ :: _ => False
  | _ => True
  end.

(** *** Values that survive a round trip *)

(** No high surrogate is directly followed by a low surrogate. *)
Fixpoint no_surrogate_pair (s : str) : bool :=
  match s with
  | a :: r =>
      match r with
      | b :: _ => negb (is_high_surrogate a && is_low_surrogate b)
      | [] => true
      end && no_surrogate_pair r
  | [] => true
  end.

(** A Python string whose code points are in range and which has no
    surrogate pair spelled as two code points. *)
Definition str_ok (s : str) : Prop :=
  Forall (fun c => (c < 1114112)%N) s ∧ no_surrogate_pair s = true.

(** The text does not start with the escape of a low surrogate. *)
Definition no_low_escape (r : str) : Prop :=
  ∀ k1 k2 k3 k4 r3, r = BACKSLASH :: ch "u" :: k1 :: k2 :: k3 :: k4 :: r3 →
    ∃ uni2, hex4 k1 k2 k3 k4 = Some uni2 ∧ is_low_surrogate uni2 = false.

#[export] Instance str_ok_dec s : Decision (str_ok s).
Proof. unfold str_ok. apply _. Defined.

Definition all_digits (ds : str) : Prop := Forall (fun c => is_digit c = true) ds.

(** The shape of a JSON number that the scanner reads as a float: integer
    part, then a fraction or an exponent or both. *)
Definition int_part (ds : str) : Prop :=
  ds = [ch "0"] ∨
  ∃ c rest, ds = c :: rest ∧ is_digit c = true ∧ c ≠ ch "0" ∧ all_digits rest.

Definition frac_part (frac : str) : Prop :=
  frac = [] ∨ ∃ d ds, frac = ch "." :: d :: ds ∧ all_digits (d :: ds).

Definition exp_part (exp : str) : Prop :=
  exp = [] ∨
  ∃ e sign d ds, exp = e :: sign ++ d :: ds ∧ (e = ch "e" ∨ e = ch "E") ∧
                 (sign = [] ∨ sign = [ch "-"] ∨ sign = [ch "+"]) ∧ all_digits (d :: ds).

Definition float_literal (t : str) : Prop :=
  ∃ (neg : bool) ds frac exp,
    t = (if neg then [ch "-"] else []) ++ ds ++ frac ++ exp ∧
    int_part ds ∧ frac_part frac ∧ exp_part exp ∧ (frac ≠ [] ∨ exp ≠ []).

(** What CPython guarantees about [repr] and [float] on floats that are
    neither NaN nor infinite: [repr] gives a float literal, and reading it
    back gives the same float. *)
Class ReprRoundTrip : Prop := {
  repr_literal : ∀ f, float_is_nan f = false → f ≠ float_inf → f ≠ float_neginf →
                      float_literal (float_repr f);
  repr_float : ∀ f, float_is_nan f = false → f ≠ float_inf → f ≠ float_neginf →
                    float_of_str (float_repr f) = f }.

(** An integer that [str] and [int] accept: at most 4300 digits. *)
Definition int_ok (z : Z) : Prop := (length (str_of_N (Z.abs_N z)) ≤ int_max_str_digits)%nat.

(** The values for which [dumps] followed by [raw_decode] is the identity. *)
Fixpoint value_ok (v : pyval) : Prop :=
  match v with
  | PNone | PBool _ => True
  | PInt z => int_ok z
  | PFloat f => float_is_nan f = false
  | PStr s => str_ok s
  | PList l =>
      (fix all (l : list pyval) : Prop :=
         match l with
         | [] => True
         | x :: l => value_ok x ∧ all l
         end) l
  | PDict d =>
      NoDup (map fst d) ∧
      (fix all (d : list (str * pyval)) : Prop :=
         match d with
         | [] => True
         | (k, x) :: d => str_ok k ∧ value_ok x ∧ all d
         end) d
  end.

(** The fields hold values of their declared types ([str], [float],
    [List[str]], [Dict[str, str]]) that survive a round trip: no NaN, no
    surrogate pair spelled as two code points. *)
Definition text_ok (v : pyval) : Prop := ∃ s, v = PStr s ∧ str_ok s.

Definition float_ok (v : pyval) : Prop := ∃ f, v = PFloat f ∧ float_is_nan f = false.

Definition text_list_ok (v : pyval) : Prop :=
  ∃ l, v = PList (map PStr l) ∧ Forall str_ok l.

Definition text_dict_ok (v : pyval) : Prop :=
  ∃ d : list (str * str),
    v = PDict (map (fun kv => (fst kv, PStr (snd kv))) d) ∧
    NoDup (map fst d) ∧ Forall (fun kv => str_ok (fst kv) ∧ str_ok (snd kv)) d.

Definition summary_ok (r : ReviewSummary) : Prop :=
  text_ok (overall_sentiment r) ∧ float_ok (purchase_intent_percentage r) ∧
  float_ok (confidence_score r) ∧ text_list_ok (key_strengths r) ∧
  text_list_ok (key_concerns r) ∧ text_dict_ok (demographic_insights r) ∧
  text_list_ok (common_themes r) ∧ text_ok (recommendation r) ∧
  text_ok (detailed_summary r).

(** The text [dumps] writes after the first element of a list, and after
    the first member of a dict, up to the closing bracket. *)
Definition encode_items (level : nat) (l : list pyval) : str :=
  List.concat (map (fun y => item_separator level ++ encode level y) l).

Definition encode_members (level : nat) (d : list (str * pyval)) : str :=
  List.concat (map (fun kv => item_separator level ++ encode_basestring_ascii (fst kv) ++
                              key_separator ++ encode level (snd kv)) d).

(** *** Fuel-free reading of the scanner *)
Definition scans (s : str) (r : Res (pyval * str)) : Prop :=
  ∃ n, scan_once n s = Some r.

Definition scans_members (pairs : list (str * pyval)) (s : str) (r : Res (pyval * str)) : Prop :=
  ∃ n, members n pairs s = Some r.

Definition scans_elements (values : list pyval) (s : str) (r : Res (pyval * str)) : Prop :=
  ∃ n, elements n values s = Some r.

(** What follows a value inside a document printed by [dumps]: nothing, a
    comma or a newline. *)
Definition delimited (rest : str) : Prop :=
  match rest with
  | [] => True
  | c :: _ => c = ch "," ∨ c = NEWLINE
  end.

(** The scanner reads the printed value back, at any nesting level and
    before any delimited rest. *)
Definition reads_back (v : pyval) : Prop :=
  ∀ level rest, delimited rest → scans (encode level v ++ rest) (Ok (v, rest)).

(** The result leaves less input than it was given. *)
Definition shorter (r : Res (pyval * str)) (s : str) : Prop :=
  match r with
  | Ok (_, rest) => (length rest < length s)%nat
  | Raise _ => True
  end.

End WithFloat.

End JsonSpec.

(** ** Summaries and replies used to exercise the JSON path *)
Module Replies.
Import Json Summarizer.

Definition summary : Type := @ReviewSummary integral_floats.

Definition score (z : Z) : @pyval integral_floats := @PFloat integral_floats (FIntegral z).

(** A summary as the model is asked to write it. *)
Definition positive : summary :=
  mkSummary
    (PStr (py "Positive")) (score 80) (score 90)
    (PList [PStr (py "battery life"); PStr (py "price")])
    (PList [PStr (py "weight")])
    (PDict [(py "age", PStr (py "younger buyers like it"));
            (py "profession", PStr (py "engineers approve"))])
    (PList [PStr (py "value for money")])
    (PStr (py "Launch it."))
    (PStr (py "Most personas would buy the product.")).

(** The same summary with a sentiment made of the two halves of a
    surrogate pair (U+D83D, U+DE00), kept as two code points. *)
Definition grinning : summary :=
  mkSummary
    (PStr [55357; 56832]%N) (score 80) (score 90)
    (key_strengths positive) (key_concerns positive) (demographic_insights positive)
    (common_themes positive) (recommendation positive) (detailed_summary positive).

Definition refusal : str := py "I cannot help with that.".

(** A reply with some prose, then an object that has the nine fields and
    one more key. *)
Definition annotated : list (str * @pyval integral_floats) :=
  __dict__ positive ++ [(py "note", PStr (py "draft"))].

Definition with_extra_key : str :=
  py "Here is the summary: " ++ dumps (PDict annotated).

End Replies.

(** ** Vocabulary for the properties of the orchestrator *)
Module ManagerSpec.
Import Json Selector Summarizer Reviewer Manager.

Section WithLibrary.
Context `{PyFloat} `{ExnText} `{!ClientLibrary}.

(** The record the loop logs for a persona whose review failed. *)
Definition failure_record (p : SelectedPersona.t) (e : exn) : logrec :=
  mkLog ERROR (py "Error generating review for persona ")
        [ArgCell (SelectedPersona.name p); ArgExn e].

(** The outcome of each persona's turn, in order.  A turn starts in the
    world the turn before it left behind, its failure record included. *)
Fixpoint outcomes (reviewer : ProductReviewer) (product : Product)
    (personas : list SelectedPersona.t) (w : World) : list (Res ReviewRecord) :=
  match personas with
  | [] => []
  | p :: rest =>
      let '(r, w1) := review_persona reviewer product p w in
      let w2 := match r with
                | Ok _ => w1
                | Raise e =>
                    snd (logger ERROR "Error generating review for persona "
                           [ArgCell (SelectedPersona.name p); ArgExn e] w1)
                end in
      r :: outcomes reviewer product rest w2
  end.

Fixpoint successes {A} (rs : list (Res A)) : list A :=
  match rs with
  | [] => []
  | Ok a :: rs => a :: successes rs
  | Raise _ :: rs => successes rs
  end.

(** The personas whose turn succeeded, and the records logged for the
    others. *)
Fixpoint survivors {A} (personas : list SelectedPersona.t) (rs : list (Res A))
    : list SelectedPersona.t :=
  match personas, rs with
  | p :: ps, Ok _ :: rs => p :: survivors ps rs
  | _ :: ps, Raise _ :: rs => survivors ps rs
  | _, _ => []
  end.

Fixpoint failure_records {A} (personas : list SelectedPersona.t) (rs : list (Res A))
    : list logrec :=
  match personas, rs with
  | _ :: ps, Ok _ :: rs => failure_records ps rs
  | p :: ps, Raise e :: rs => failure_record p e :: failure_records ps rs
  | _, _ => []
  end.

Definition is_loop_error (r : logrec) : bool :=
  str_eqb (text r) (py "Error generating review for persona ").

(** The failure records of the loop among the records of a log. *)
Definition loop_errors (l : list logrec) : list logrec := List.filter is_loop_error l.

(** The world in which the reviewer is constructed: after the selection
    and the record that reports its size. *)
Definition after_selection (self : Manager.t) (config : ReviewConfiguration) (w : World)
    : World :=
  let '(r, w1) := get_selected_personas (persona_selector self) (persona_criteria config)
                    (num_personas config) (randomize_if_insufficient config) w in
  match r with
  | Ok personas =>
      snd (logger INFO "Selected personas for review generation"
             [ArgInt (Z.of_nat (length personas))] w1)
  | Raise _ => w1
  end.

(** The world in which the loop starts. *)
Definition after_construction (self : Manager.t) (config : ReviewConfiguration) (w : World)
    : World :=
  snd (Reviewer.__init__ (ai_provider config) (config_api_key config)
         (config_model_config config) (after_selection self config w)).

End WithLibrary.

End ManagerSpec.

(** ** A run of the orchestrator used to exercise the model *)
Module Desk.
Import Json Selector Summarizer Reviewer Manager.

(** Clients that accept every configuration, and exceptions that all
    carry the same message. *)
Definition accept_all : @ClientLibrary integral_floats := fun _ _ => None.

Definition terse : ExnText := fun _ => py "failed".

(** The monitor of [backend/test.py], with shorter lists. *)
Definition product : Product :=
  mkProduct (py "HP 24mh FHD Computer Monitor") (py "$179")
    (py "A 23.8-inch FHD monitor for work and leisure.")
    (Some [py "Clear Full HD resolution"; py "Slim design"])
    (Some [py "Built-in speakers are only sufficient for casual use"])
    (Some []).

Definition key : str := py "secret".

(** Five personas wanted, any persona will do, backfill allowed. *)
Definition config : @ReviewConfiguration integral_floats :=
  mkConfiguration Sheet.no_criteria 5 (py "gemini") key None true.

Definition manager : @Manager.t integral_floats :=
  mkManager Sheet.self (mkSummarizer (mkModel GEMINI (summarizer_config key))).

(** The backend answers the first two personas, fails for the third,
    answers the last two, and then writes the summary. *)
Definition replies : list (Res str) :=
  [Ok (py "REVIEW: I would buy it, 80%.");
   Ok (py "REVIEW: Too small for me, 30%.");
   Raise (ProviderError 503);
   Ok (py "REVIEW: Good value, 70%.");
   Ok (py "REVIEW: Fine for the office, 60%.");
   Ok (to_json Replies.positive)].

Definition world : World :=
  mkWorld (heap Sheet.world) (entropy Sheet.world) replies (clock Sheet.world)
          [] [] [].

Definition personas : list SelectedPersona.t :=
  Eval vm_compute in
    match fst (get_selected_personas Sheet.self Sheet.no_criteria 5 true world) with
    | Ok l => l
    | Raise _ => []
    end.

(** A caller who asks for another model and a temperature of zero. *)
Definition overlay : gmap str (@pyval integral_floats) :=
  {[ py "model" := PStr (py "gpt-4o"); py "temperature" := Replies.score 0 ]}.

Definition tuned : @ProductReviewer integral_floats :=
  mkReviewer OPENAI key overlay (Some (mkModel OPENAI (effective_config OPENAI key overlay))).

End Desk.

(** ** More of [product_reviewer.py]: the provider of a reviewer *)
Module Provider.
Import Json Reviewer.

Section WithLibrary.
Context `{PyFloat} `{!ClientLibrary}.

(** The property [provider_name]. *)
Definition provider_name (self : ProductReviewer) : str := value (provider self).

(** [switch_provider] assigns to the attributes of [self] one by one, so
    [self] is returned whether the call raises or not: an exception of the
    enum lookup leaves it untouched, one of [_initialize_model] leaves the
    three assigned attributes changed and [self.model] as it was. *)
Definition switch_provider (self : ProductReviewer) (new_provider new_api_key : str)
    (new_model_config : option Config) : World -> (Res unit * ProductReviewer) * World :=
  fun w =>
    match AIProvider_of new_provider with
    | Raise e => ((Raise e, self), w)
    | Ok p =>
        let self1 := mkReviewer p new_api_key (default ∅ new_model_config) (model self) in
        match _initialize_model self1 w with
        | (Ok self2, w') => ((Ok tt, self2), w')
        | (Raise e, w') => ((Raise e, self1), w')
        end
    end.

End WithLibrary.

End Provider.

(** ** More of [persona_selector.py]: [PersonaSelector.generate_reviews] *)
Module SelectorReviews.
Import Json Selector Reviewer.

Section WithLibrary.
Context `{PyFloat} `{!ClientLibrary}.

(** The [persona_info] entry of a review. *)
Record PersonaInfo : Type := mkInfo {
  age : cell;
  profession : cell;
  nationality : cell;
  salary_range : cell;
  hobbies : cell;
  priorities : cell }.

Record Review : Type := mkReview {
  persona_name : cell;
  persona_info : PersonaInfo;
  review : option str;
  timestamp : option nat }.

(** The body of the inner [try]: the review that is appended. *)
Definition review_persona (reviewer : ProductReviewer) (product : Product)
    (persona : SelectedPersona.t) : M Review :=
  profile ← lift (to_reviewer_profile persona);
  review_session ← generate_review reviewer product profile;
  ret (mkReview (SelectedPersona.name persona)
         (mkInfo (SelectedPersona.age persona) (SelectedPersona.profession persona)
                 (SelectedPersona.nationality persona)
                 (SelectedPersona.salary_range persona)
                 (SelectedPersona.hobbies persona) (SelectedPersona.priorities persona))
         (final_review review_session)
         (Reviewer.timestamp <$> last (messages review_session))).

Fixpoint review_loop (reviewer : ProductReviewer) (product : Product)
    (selected_personas : list SelectedPersona.t) (reviews : list Review)
    : M (list Review) :=
  match selected_personas with
  | [] => ret reviews
  | persona :: rest =>
      reviews ←
        try_except
          (r ← review_persona reviewer product persona; ret (reviews ++ [r]))
          (fun e =>
             _ ← logger ERROR "Error generating review for persona "
                   [ArgCell (SelectedPersona.name persona); ArgExn e];
             ret reviews);
      review_loop reviewer product rest reviews
  end.

(** [self.generate_reviews(product, criteria, num_personas, provider,
    api_key, model_config)]; the selection is made with backfill, the
    default of [get_selected_personas]. *)
Definition generate_reviews (self : PersonaSelector) (product : Product)
    (criteria : Criteria.t) (num_personas : Z) (provider api_key : str)
    (model_config : option Config) : M (list Review) :=
  try_except
    (selected_personas ← get_selected_personas self criteria num_personas true;
     reviewer ← Reviewer.__init__ provider api_key model_config;
     reviews ← review_loop reviewer product selected_personas [];
     _ ← logger INFO "Successfully generated reviews"
           [ArgInt (Z.of_nat (length reviews))];
     ret reviews)
    (fun e => _ ← logger ERROR "Error in generate_reviews: " [ArgExn e]; raise e).

End WithLibrary.

End SelectorReviews.

(** ** Vocabulary for further properties of the code *)
Module MoreSpec.
Import Json Selector Summarizer Reviewer Manager.

(** *** Items of a multi-valued field *)

(** What [_convert_string_to_list] leaves in an item it cuts out of text:
    something, with no white space at either end, no comma and no quote. *)
Definition tidy (item : str) : Prop :=
  item ≠ [] ∧
  (∀ c, head item = Some c → is_space c = false) ∧
  (∀ c, last item = Some c → is_space c = false) ∧
  Forall (fun c => c ≠ ch "," ∧ is_quote c = false) item.

(** A tidy item without brackets. *)
Definition plain (item : str) : Prop :=
  tidy item ∧ Forall (fun c => is_bracket_or_quote c = false) item.

(** *** The store and its catalog *)

(** [v] is the cell some record of [f] has in column [c]. *)
Definition occurs (f : DataFrame) (c : string) (v : cell) : Prop :=
  ∃ r, r ∈ rows f ∧ at_col r (py c) = v.

(** [h] is one of the values some record of [f] lists in column [c]. *)
Definition listed (f : DataFrame) (c : string) (h : str) : Prop :=
  ∃ r l, r ∈ rows f ∧ iter_cell (at_col r (py c)) = Ok l ∧ h ∈ l.

(** Every record of [f] holds a list in each multi-valued column. *)
Definition normalised (f : DataFrame) : Prop :=
  ∀ r c, r ∈ rows f → c ∈ list_columns → ∃ l, at_col r c = CList l.

Definition is_list_cell (v : cell) : bool :=
  match v with CList _ => true | _ => false end.

Definition normalisedb (f : DataFrame) : bool :=
  forallb (fun r => forallb (fun c => is_list_cell (at_col r c)) list_columns) (rows f).

(** The profile of a persona whose multi-valued fields are the lists
    [h], [q] and [k]. *)
Definition profile_of (p : SelectedPersona.t) (h q k : list str) : ReviewerProfile :=
  mkProfile (SelectedPersona.profession p) (SelectedPersona.age p)
    (SelectedPersona.nationality p) (SelectedPersona.salary_range p)
    (join comma_space q) (join comma_space h) (join comma_space k).

(** *** Ranking *)

(** How many of the desired values a field holds; nothing when no
    desired list is given. *)
Definition overlap (desired : option (list str)) (v : cell) : Z :=
  match truthy desired, iter_cell v with
  | Some d, Ok x => match_count x d
  | _, _ => 0
  end.

(** The total score the selector ranks the matching records by. *)
Definition score (c : Criteria.t) (p : SelectedPersona.t) : Z :=
  overlap (Criteria.desired_hobbies c) (SelectedPersona.hobbies p) +
  overlap (Criteria.desired_priorities c) (SelectedPersona.priorities p).

(** No element is followed by one of larger key. *)
Fixpoint descending {A} (key : A -> Z) (l : list A) : Prop :=
  match l with
  | [] => True
  | x :: l => Forall (fun y => key y ≤ key x) l ∧ descending key l
  end.

(** *** Synthesized personas *)

(** The number of desired values a synthesized field is seeded with. *)
Definition seed_size (desired : option (list str)) (min_matching : Z) : Z :=
  match truthy desired with
  | Some l => Z.min min_matching (Z.of_nat (length l))
  | None => 0
  end.

(** A desired list that is given has no value twice. *)
Definition distinct (desired : option (list str)) : Prop :=
  ∀ l, truthy desired = Some l → NoDup l.

(** *** Decoded replies *)



(** *** The two review loops *)

(** The review [PersonaSelector.generate_reviews] appends where the
    orchestrator appends the record [r]: the same fields, laid out
    differently. *)
Definition as_review (r : ReviewRecord) : SelectorReviews.Review :=
  SelectorReviews.mkReview (name (persona r))
    (SelectorReviews.mkInfo (age (persona r)) (profession (persona r))
       (nationality (persona r)) (salary_range (persona r))
       (hobbies (persona r)) (priorities (persona r)))
    (review r) (record_timestamp r).

End MoreSpec.

(** ** Further values used to exercise the model *)
Module Bench.
Import Json Selector Summarizer Reviewer Manager.

Definition profile : ReviewerProfile :=
  mkProfile (CStr (py "Doctor")) (CNum 41) (CStr (py "Indian")) (CStr (py "50k-80k"))
            (py "price, comfort") (py "chess, reading") (py "time, budget").

(** The same profile with the nationality left blank in the sheet. *)
Definition stateless : ReviewerProfile :=
  mkProfile (CStr (py "Doctor")) (CNum 41) CNull (CStr (py "50k-80k"))
            (py "price, comfort") (py "chess, reading") (py "time, budget").



(** A reply that wraps the summary in a code fence. *)
Definition fence_open : str := py "```json" ++ [NEWLINE].
Definition fence_close : str := [NEWLINE] ++ py "```".

(** A run that asks for one persona of an age between 40 and 30. *)
Definition hopeless : @ReviewConfiguration integral_floats :=
  mkConfiguration Sheet.empty_range 1 (py "gemini") Desk.key None true.

(** Chess, golf or hiking, one of the three being enough. *)
Definition players : Criteria.t :=
  Criteria.mk None None None None (Some [py "chess"; py "golf"; py "hiking"])
              None None 1 1.

Definition best_players : list SelectedPersona.t :=
  Eval vm_compute in
    match fst (get_selected_personas Sheet.self players 2 false Sheet.world) with
    | Ok l => l
    | Raise _ => []
    end.

(** The reviewer the run of [Desk] constructs. *)
Definition reviewer : @ProductReviewer integral_floats :=
  mkReviewer GEMINI Desk.key ∅ (Some (mkModel GEMINI (effective_config GEMINI Desk.key ∅))).

End Bench.

(** * Properties *)

Import Selector SelectorSpec.

(** ** Heap discipline of the selector *)

Lemma read_frame_at l f w :
  heap w !! l = Some (OFrame f) → read_frame l w = (Ok f, w).
Proof. intros H. unfold read_frame. by rewrite H. Qed.

Lemma read_dict_at l d w :
  heap w !! l = Some (ODict d) → read_dict l w = (Ok d, w).
Proof. intros H. unfold read_dict. by rewrite H. Qed.

Lemma prefix_store (h0 h : list obj) l o :
  h0 `prefix_of` h → (length h0 ≤ l)%nat → h0 `prefix_of` <[l := o]> h.
Proof.
  intros [k ->] Hl. exists (<[(l - length h0)%nat := o]> k).
  by rewrite insert_app_r_alt.
Qed.

Lemma prefix_alloc (h0 h : list obj) o : h0 `prefix_of` h → h0 `prefix_of` h ++ [o].
Proof. intros H. by apply prefix_app_r. Qed.

Lemma holds_alloc w0 w o :
  heap w0 `prefix_of` heap w →
  ∃ w', alloc o w = (Ok (length (heap w)), w') ∧ heap w' = heap w ++ [o].
Proof. intros _. eexists. split; reflexivity. Qed.

Lemma prefix_length (h0 h : list obj) : h0 `prefix_of` h → (length h0 ≤ length h)%nat.
Proof. intros [k ->]. rewrite length_app. lia. Qed.

Lemma lookup_alloc (h : list obj) o : (h ++ [o]) !! length h = Some o.
Proof. by rewrite lookup_app_r, Nat.sub_diag by lia. Qed.

Lemma frame_step_seq s1 p1 s2 p2 :
  frame_step s1 p1 → frame_step s2 p2 →
  frame_step (fun l => l' ← s1 l; s2 l') (fun f => g ← p1 f; p2 g).
Proof.
  intros H1 H2 w0 l f w Hh.
  specialize (H1 w0 l f w Hh).
  unfold mbind, M_bind, res_mbind, bind. simpl.
  destruct (p1 f) as [g|e]; simpl.
  - destruct H1 as (l' & w' & -> & Hh').
    specialize (H2 w0 l' g w' Hh'). destruct (p2 g); exact H2.
  - destruct H1 as (w' & -> & Hp). eauto.
Qed.

Lemma frame_step_when {A} (o : option A) (s : A → loc → M loc) k :
  (∀ a, frame_step (s a) (k a)) →
  frame_step (fun l => when_some o l (fun a => s a l)) (pure_when o k).
Proof.
  intros H w0 l f w Hh. destruct o as [a|]; simpl.
  - apply H, Hh.
  - eauto.
Qed.

Lemma frame_step_filter test :
  frame_step (fun l => filter_frame l test) (apply_filter test).
Proof.
  intros w0 l f w (Hp & Hl & Hf). unfold filter_frame, apply_filter.
  unfold mbind, M_bind, res_mbind, bind.
  rewrite (read_frame_at _ _ _ Hf). unfold lift.
  destruct (mask_of f test) as [mask|e]; simpl.
  - eexists _, _. split; [reflexivity|]. split_and!; simpl.
    + by apply prefix_alloc.
    + apply prefix_length in Hp. lia.
    + apply lookup_alloc.
  - eauto.
Qed.

Lemma frame_step_count src dst desired threshold :
  frame_step
    (fun l => _ ← assign_match_count l src dst desired;
              filter_frame l (count_test dst threshold))
    (fun f => g ← with_match_count src dst desired f;
              apply_filter (count_test dst threshold) g).
Proof.
  intros w0 l f w (Hp & Hl & Hf). unfold assign_match_count, with_match_count.
  unfold mbind, M_bind, res_mbind, bind.
  rewrite (read_frame_at _ _ _ Hf). unfold lift.
  destruct (res_mapM _ (rows f)) as [counts|e]; simpl; [|eauto].
  set (g := setitem (py dst) counts f).
  set (w1 := mkWorld _ _ _ _ _ _ _).
  assert (Hh1 : holds w0 l g w1).
  { split_and!; simpl; [by apply prefix_store|done|].
    apply list_lookup_insert_eq. by eapply lookup_lt_Some. }
  apply (frame_step_filter (count_test dst threshold) w0 l g w1 Hh1).
Qed.

Lemma frame_step_apply_filters c : frame_step (apply_filters c) (matching c).
Proof.
  unfold apply_filters, matching.
  repeat (apply frame_step_seq;
          [apply frame_step_when; intros; first [apply frame_step_filter | apply frame_step_count]|]).
  apply frame_step_when; intros. apply frame_step_count.
Qed.


(** ** The random generator and synthetic personas *)

Lemma quiet_ret {A} (a : A) (Q : A → Prop) : Q a → quiet (ret a) Q.
Proof. intros H w. by eexists (Ok a), w. Qed.

Lemma quiet_raise {A} e (Q : A → Prop) : quiet (raise e) Q.
Proof. intros w. by eexists (Raise e), w. Qed.

Lemma quiet_bind {A B} (m : M A) (k : A → M B) Q R :
  quiet m Q → (∀ a, Q a → quiet (k a) R) → quiet (bind m k) R.
Proof.
  intros Hm Hk w. destruct (Hm w) as (r & w' & E & Hh & HQ).
  unfold bind. rewrite E. destruct r as [a|e].
  - destruct (Hk a HQ w') as (r2 & w2 & E2 & Hh2 & HR).
    exists r2, w2. split_and!; [done|congruence|done].
  - by exists (Raise e), w'.
Qed.

Lemma quiet_weaken {A} (m : M A) (Q R : A → Prop) :
  quiet m Q → (∀ a, Q a → R a) → quiet m R.
Proof.
  intros Hm HQR w. destruct (Hm w) as (r & w' & E & Hh & HQ).
  exists r, w'. split_and!; [done..|]. destruct r; auto.
Qed.

Lemma quiet_logger l t a : quiet (logger l t a) (fun _ => True).
Proof. intros w. by eexists (Ok tt), _. Qed.

Lemma quiet_try_log {A} (m : M A) Q t :
  quiet m Q →
  quiet (try_except m (fun e => _ ← logger ERROR t [ArgExn e]; raise e)) Q.
Proof.
  intros Hm w. destruct (Hm w) as (r & w' & E & Hh & HQ).
  unfold try_except. rewrite E. destruct r as [a|e].
  - by exists (Ok a), w'.
  - by eexists (Raise e), _.
Qed.

Lemma quiet_draw : quiet draw (fun _ => True).
Proof.
  intros w. unfold draw. destruct (entropy w); by eexists (Ok _), _.
Qed.

Lemma quiet_randint a b : quiet (randint a b) (fun z => a ≤ z ≤ b).
Proof.
  unfold randint. destruct (Z.ltb_spec b a); [apply quiet_raise|].
  eapply quiet_bind; [apply quiet_draw|]. intros d _. apply quiet_ret.
  pose proof (Z.mod_pos_bound (Z.of_nat d) (b - a + 1)). lia.
Qed.

Lemma quiet_choice {A} (l : list A) : quiet (choice l) (fun x => x ∈ l).
Proof.
  unfold choice. destruct l as [|x l']; [apply quiet_raise|].
  eapply quiet_bind; [apply quiet_draw|]. intros d _. apply quiet_ret.
  apply list_elem_of_In, nth_In. apply Nat.mod_upper_bound. done.
Qed.

Lemma quiet_sample_loop {A} k (pool : list A) :
  quiet (sample_loop k pool) (fun xs => length xs = k ∧ xs ⊆+ pool).
Proof.
  revert pool. induction k as [|k IH]; intros pool; simpl.
  - apply quiet_ret. split; [done|]. apply submseteq_nil_l.
  - eapply quiet_bind; [apply quiet_draw|]. intros d _.
    destruct (pool !! (d mod length pool)%nat) as [x|] eqn:E; [|apply quiet_raise].
    eapply quiet_bind; [apply IH|]. intros rest [Hlen Hsub]. apply quiet_ret.
    split; [simpl; lia|].
    rewrite (delete_Permutation pool _ x E). by apply submseteq_skip.
Qed.

Lemma quiet_sample {A} (l : list A) k :
  quiet (sample l k) (fun xs => Z.of_nat (length xs) = k ∧ xs ⊆+ l).
Proof.
  unfold sample. destruct (_ || _) eqn:E; [apply quiet_raise|].
  apply orb_false_iff in E as [E1 E2].
  eapply quiet_weaken; [apply quiet_sample_loop|].
  intros xs [Hlen Hsub]. split; [lia|done].
Qed.

Lemma quiet_read_dict l : quiet (read_dict l) (fun _ => True).
Proof. intros w. by eexists (Ok _), w. Qed.

Lemma quiet_choose_categorical allow catalog :
  quiet (choose_categorical allow catalog) (categorical_ok allow catalog).
Proof.
  unfold choose_categorical, categorical_ok. destruct (truthy allow) as [l|].
  - eapply quiet_weaken; [apply quiet_choice|]. intros v Hv.
    apply list_elem_of_fmap in Hv as (s & -> & Hs). eauto.
  - apply quiet_choice.
Qed.

Lemma quiet_seed_matches desired m :
  quiet (seed_matches desired m) (seeded_from desired m).
Proof.
  unfold seed_matches, seeded_from. destruct (truthy desired) as [l|].
  - eapply quiet_weaken; [apply quiet_sample|]. intros xs [H1 H2]. done.
  - by apply quiet_ret.
Qed.

Lemma quiet_multi_valued desired m catalog hi :
  quiet (multi_valued desired m catalog hi) (multi_valued_ok desired m catalog hi).
Proof.
  unfold multi_valued.
  eapply quiet_bind; [apply quiet_seed_matches|]. intros seed Hseed.
  eapply quiet_bind; [apply quiet_randint|]. intros k Hk.
  eapply quiet_bind; [apply quiet_sample|]. intros extra [Hlen Hsub].
  apply quiet_ret. simpl in Hk. exists seed, extra. split_and!; [done..|lia|lia].
Qed.

Lemma quiet_generate_from c cat : quiet (generate_from c cat) (generated c cat).
Proof.
  unfold generate_from.
  eapply quiet_bind; [apply quiet_randint|]. intros k Hk. simpl in Hk.
  eapply quiet_bind with (Q := fun age =>
    match Criteria.age_range c with
    | Some (lo, hi) => lo ≤ age ≤ hi
    | None => 18 ≤ age ≤ 80
    end).
  { destruct (Criteria.age_range c) as [[lo hi]|]; apply quiet_randint. }
  intros age Hage.
  eapply quiet_bind; [apply quiet_choose_categorical|]. intros p Hp.
  eapply quiet_bind; [apply quiet_choose_categorical|]. intros n Hn.
  eapply quiet_bind; [apply quiet_choose_categorical|]. intros s Hs.
  eapply quiet_bind; [apply quiet_multi_valued|]. intros h Hh.
  eapply quiet_bind; [apply quiet_multi_valued|]. intros q Hq.
  eapply quiet_bind; [apply quiet_randint|]. intros j Hj. simpl in Hj.
  eapply quiet_bind; [apply quiet_sample|]. intros cs [Hlen Hsub].
  apply quiet_ret. exists k, age, p, n, s, h, q, cs.
  split_and!; try done; lia.
Qed.

(** *** When generation cannot fail *)

Lemma total_bind {A B} (m : M A) (k : A → M B) Q :
  total m → quiet m Q → (∀ a, Q a → total (k a)) → total (bind m k).
Proof.
  intros Hm Hq Hk w. destruct (Hm w) as (a & w1 & E).
  destruct (Hq w) as (r & w1' & E' & _ & HQ). rewrite E in E'. injection E' as <- <-.
  unfold bind. rewrite E. by apply Hk.
Qed.

Lemma total_ret {A} (a : A) : total (ret a).
Proof. intros w. by exists a, w. Qed.

Lemma total_randint a b : a ≤ b → total (randint a b).
Proof.
  intros Hab w. unfold randint. destruct (Z.ltb_spec b a); [lia|].
  unfold bind, draw. destruct (entropy w); by eexists _, _.
Qed.

Lemma total_choice {A} (l : list A) : l ≠ [] → total (choice l).
Proof.
  intros Hl w. unfold choice. destruct l; [done|].
  unfold bind, draw. destruct (entropy w); by eexists _, _.
Qed.

Lemma total_sample {A} (l : list A) k :
  0 ≤ k ≤ Z.of_nat (length l) → total (sample l k).
Proof.
  intros Hk w. unfold sample.
  destruct (Z.ltb_spec k 0); [lia|]. destruct (Z.ltb_spec (Z.of_nat (length l)) k); [lia|].
  simpl. assert (Hn : (Z.to_nat k ≤ length l)%nat) by lia.
  clear -Hn. revert l w Hn. induction (Z.to_nat k) as [|n IH]; intros l w Hn; simpl.
  - by exists [], w.
  - unfold bind. destruct (quiet_draw w) as (r & w1 & E1 & _ & _). rewrite E1.
    destruct r as [d|e]; [|unfold draw in E1; destruct (entropy w); done].
    assert (Hlt : (d mod length l < length l)%nat) by (apply Nat.mod_upper_bound; lia).
    destruct (lookup_lt_is_Some_2 l _ Hlt) as [x Ex]. rewrite Ex.
    destruct (IH (delete (d mod length l)%nat l) w1) as (xs & w2 & E2).
    { rewrite length_delete by (by exists x). lia. }
    rewrite E2. by eexists _, _.
Qed.

Lemma total_choose_categorical allow catalog :
  can_choose allow catalog → total (choose_categorical allow catalog).
Proof.
  unfold can_choose, choose_categorical. intros H.
  destruct (truthy allow) as [l|] eqn:E.
  - apply total_choice. destruct allow as [[|x l']|]; simpl in E; try done.
    by injection E as <-.
  - by apply total_choice, H.
Qed.

Lemma filter_length_mono {A} (P Q : A → bool) (l : list A) :
  (∀ x, P x = true → Q x = true) →
  (length (filter (fun x => P x) l) ≤ length (filter (fun x => Q x) l))%nat.
Proof.
  intros H. induction l as [|x l IH]; [done|].
  destruct (P x) eqn:EP.
  - rewrite !filter_cons_True by (by rewrite ?EP, ?H). simpl. lia.
  - rewrite (filter_cons_False (fun x => P x)) by (rewrite EP; intros []).
    destruct (Q x) eqn:EQ.
    + rewrite filter_cons_True by (by rewrite EQ). simpl. lia.
    + rewrite filter_cons_False by (rewrite EQ; intros []). done.
Qed.

Lemma total_multi_valued desired m catalog hi :
  1 ≤ hi → can_pad desired m catalog hi → total (multi_valued desired m catalog hi).
Proof.
  intros Hhi Hpad. unfold multi_valued.
  eapply total_bind; [|apply quiet_seed_matches|].
  { unfold seed_matches, can_pad in *. destruct (truthy desired) as [l|].
    - apply total_sample. lia.
    - apply total_ret. }
  intros seed Hseed.
  eapply total_bind; [by apply total_randint|apply quiet_randint|].
  intros k Hk. simpl in Hk.
  eapply total_bind; [|apply quiet_sample|intros; apply total_ret].
  apply total_sample. split; [lia|].
  unfold seeded_from, can_pad in *. destruct (truthy desired) as [l|].
  - destruct Hseed as [Hsub _]. destruct Hpad as [_ Hpad].
    pose proof (filter_length_mono (fun h => negb (str_in h l))
                  (fun h => negb (str_in h seed)) catalog) as Hmono.
    assert (length (filter (fun h => negb (str_in h l)) catalog)
            ≤ length (filter (fun h => negb (str_in h seed)) catalog))%nat; [|lia].
    apply Hmono. intros x Hx. apply negb_true_iff in Hx. apply negb_true_iff.
    unfold str_in in *. apply bool_decide_eq_false in Hx. apply bool_decide_eq_false.
    intros Hin. apply Hx. by eapply elem_of_submseteq.
  - subst seed.
    assert (filter (fun h : str => negb (str_in h [])) catalog = catalog) as ->; [|lia].
    clear. induction catalog as [|x l IH]; [done|].
    rewrite filter_cons_True; [by rewrite IH|]. unfold str_in.
    rewrite bool_decide_eq_false_2; [done|]. apply not_elem_of_nil.
Qed.

Lemma total_generate_from c cat : can_backfill c cat → total (generate_from c cat).
Proof.
  intros (Hage & Hp & Hn & Hs & Hh & Hq & Hc). unfold generate_from.
  eapply total_bind; [by apply total_randint|apply quiet_randint|]. intros k _.
  eapply total_bind with (Q := fun _ => True).
  { destruct (Criteria.age_range c) as [[lo hi]|]; by apply total_randint. }
  { destruct (Criteria.age_range c) as [[lo hi]|];
      (eapply quiet_weaken; [apply quiet_randint|done]). }
  intros age _.
  eapply total_bind; [by apply total_choose_categorical|apply quiet_choose_categorical|].
  intros p _.
  eapply total_bind; [by apply total_choose_categorical|apply quiet_choose_categorical|].
  intros n _.
  eapply total_bind; [by apply total_choose_categorical|apply quiet_choose_categorical|].
  intros s _.
  eapply total_bind; [by apply total_multi_valued|apply quiet_multi_valued|]. intros h _.
  eapply total_bind; [by apply total_multi_valued|apply quiet_multi_valued|]. intros q _.
  eapply total_bind; [by apply total_randint|apply quiet_randint|]. intros j Hj. simpl in Hj.
  eapply total_bind; [|apply quiet_sample|intros; apply total_ret].
  apply total_sample. lia.
Qed.

Lemma generate_spec self c cat w :
  heap w !! unique_values self = Some (ODict cat) →
  ∃ r w', _generate_random_persona self c w = (r, w') ∧ heap w' = heap w ∧
          match r with
          | Ok row => generated c cat row
          | Raise _ => ¬ can_backfill c cat
          end.
Proof.
  intros Hcat. unfold _generate_random_persona.
  unfold try_except. unfold mbind at 1, M_bind at 1, bind at 1.
  rewrite (read_dict_at _ _ _ Hcat).
  destruct (quiet_generate_from c cat w) as (r & w' & E & Hh & Hr). rewrite E.
  destruct r as [row|e].
  - by exists (Ok row), w'.
  - eexists (Raise e), _. split; [reflexivity|]. split; [done|].
    intros Hcan. destruct (total_generate_from c cat Hcan w) as (a & w2 & E2).
    congruence.
Qed.

Lemma repeat_generate_spec self c cat n w :
  heap w !! unique_values self = Some (ODict cat) →
  ∃ r w', repeatM n (_generate_random_persona self c) w = (r, w') ∧ heap w' = heap w ∧
          match r with
          | Ok l => length l = n ∧ Forall (generated c cat) l
          | Raise _ => ¬ can_backfill c cat
          end.
Proof.
  revert w. induction n as [|n IH]; intros w Hcat; simpl.
  - by eexists (Ok []), w.
  - unfold mbind, M_bind, bind.
    destruct (generate_spec self c cat w Hcat) as (r & w1 & -> & Hh1 & Hr).
    destruct r as [row|e]; [|by eexists (Raise e), w1].
    destruct (IH w1) as (r2 & w2 & -> & Hh2 & Hr2); [by rewrite Hh1|].
    destruct r2 as [l|e]; [|eexists (Raise e), w2; split_and!; [done|congruence|done]].
    destruct Hr2 as [Hlen Hall].
    eexists (Ok (row :: l)), w2. split_and!; [done|congruence|simpl; lia|by constructor].
Qed.


(** ** The filter phase keeps exactly the matching records *)

Lemma filter_bool_cons {A} (p : A → bool) x l :
  filter (fun y => p y) (x :: l) = if p x then x :: filter (fun y => p y) l
                                   else filter (fun y => p y) l.
Proof.
  destruct (p x) eqn:E.
  - apply filter_cons_True. by rewrite E.
  - apply filter_cons_False. rewrite E. intros [].
Qed.

Lemma label_fresh (dst : str) (label : string) :
  dst ∉ required_columns → py label ∈ required_columns → dst ≠ py label.
Proof. intros H1 H2 ->. done. Qed.

Lemma at_col_insert_ne (r : Row) (dst k : str) v :
  dst ≠ k → at_col (<[dst := v]> r) k = at_col r k.
Proof. intros H. unfold at_col. by rewrite lookup_insert_ne. Qed.

Lemma at_col_insert_eq (r : Row) (dst : str) v : at_col (<[dst := v]> r) dst = v.
Proof. unfold at_col. by rewrite lookup_insert_eq. Qed.

Lemma persona_of_insert (r : Row) (dst : str) v :
  dst ∉ required_columns → persona_of (<[dst := v]> r) = persona_of r.
Proof.
  intros H. unfold persona_of.
  rewrite !at_col_insert_ne; [done|..];
    (apply label_fresh; [done|]; apply (bool_decide_unpack _); vm_compute; exact I).
Qed.

Lemma score_labels_fresh :
  (py "hobby_match_count" ∉ required_columns) ∧
  (py "priority_match_count" ∉ required_columns) ∧
  (py "total_score" ∉ required_columns).
Proof. split_and!; apply (bool_decide_unpack _); vm_compute; exact I. Qed.

(** A boolean-indexing step is a [filter], read on personas. *)
Lemma select_rows_filter (test : Row → Res bool) (tp : SelectedPersona.t → bool) rs mask :
  (∀ r b, test r = Ok b → b = tp (persona_of r)) →
  res_mapM test rs = Ok mask →
  map persona_of (select_rows rs mask) = filter (fun p => tp p) (map persona_of rs).
Proof.
  intros Htest. revert mask. induction rs as [|r rs IH]; intros mask H; simpl in *.
  - by destruct mask.
  - destruct (test r) as [b|] eqn:Eb; simpl in H; [|done].
    destruct (res_mapM test rs) as [bs|] eqn:Ebs; simpl in H; [|done].
    injection H as <-. rewrite (Htest r b Eb).
    rewrite filter_bool_cons.
    destruct (tp (persona_of r)) eqn:Et; simpl.
    + f_equal. by apply IH.
    + by apply IH.
Qed.

Lemma apply_filter_personas test tp f g :
  (∀ r b, test r = Ok b → b = tp (persona_of r)) →
  apply_filter test f = Ok g →
  map persona_of (rows g) = filter (fun p => tp p) (map persona_of (rows f)) ∧
  columns g = columns f.
Proof.
  intros Htest. unfold apply_filter, mask_of.
  destruct (res_mapM test (rows f)) as [mask|] eqn:E; simpl; [|done].
  intros [= <-]. simpl. split; [|done]. by eapply select_rows_filter.
Qed.

Lemma age_test_personas range r b :
  age_test range r = Ok b → b = in_age_range range (SelectedPersona.age (persona_of r)).
Proof.
  unfold age_test, in_age_range. simpl.
  destruct (at_col r (py "age")); simpl; try done; by intros [= <-].
Qed.

Lemma isin_test_personas label (sel : SelectedPersona.t → cell) vs r b :
  (∀ r, sel (persona_of r) = at_col r (py label)) →
  isin_test label vs r = Ok b → b = in_allow_list vs (sel (persona_of r)).
Proof.
  intros Hsel. rewrite Hsel. unfold isin_test, cell_isin, in_allow_list.
  destruct (at_col r (py label)); simpl; try done; by intros [= <-].
Qed.

(** The count column followed by its threshold filter. *)
Lemma count_rows_filter src (dst : string) (sel : SelectedPersona.t → cell) desired th rs counts mask :
  (∀ r, sel (persona_of r) = at_col r (py src)) →
  py dst ∉ required_columns →
  res_mapM (fun r => x ← iter_cell (at_col r (py src));
                     Ok (CNum (match_count x desired))) rs = Ok counts →
  res_mapM (count_test dst th) (zip_with (fun r v => <[py dst := v]> r) rs counts) = Ok mask →
  map persona_of (select_rows (zip_with (fun r v => <[py dst := v]> r) rs counts) mask)
  = filter (fun p => meets_threshold desired th (sel p)) (map persona_of rs).
Proof.
  intros Hsel Hfresh. revert counts mask.
  induction rs as [|r rs IH]; intros counts mask Hc Hm; simpl in *.
  - injection Hc as <-. simpl in Hm. by injection Hm as <-.
  - unfold mbind, res_mbind in Hc. simpl in Hc.
    destruct (iter_cell (at_col r (py src))) as [x|] eqn:Ex; simpl in Hc; [|done].
    destruct (res_mapM _ rs) as [cs|] eqn:Ecs; simpl in Hc; [|done].
    injection Hc as <-. simpl in Hm.
    unfold count_test at 1 in Hm. rewrite at_col_insert_eq in Hm. simpl in Hm.
    destruct (res_mapM _ (zip_with _ rs cs)) as [bs|] eqn:Ebs; simpl in Hm; [|done].
    injection Hm as <-.
    assert (Hmt : meets_threshold desired th (sel (persona_of r)) = (th <=? match_count x desired)).
    { unfold meets_threshold. by rewrite Hsel, Ex. }
    rewrite (filter_bool_cons (fun p => meets_threshold desired th (sel p))), Hmt.
    destruct (th <=? match_count x desired) eqn:Et; simpl.
    + rewrite persona_of_insert by done. f_equal. by apply IH.
    + by apply IH.
Qed.

Lemma count_step_personas src (dst : string) sel desired th f g :
  (∀ r, sel (persona_of r) = at_col r (py src)) →
  py dst ∉ required_columns →
  (h ← with_match_count src dst desired f; apply_filter (count_test dst th) h) = Ok g →
  map persona_of (rows g)
  = filter (fun p => meets_threshold desired th (sel p)) (map persona_of (rows f)) ∧
  columns f ⊆ columns g.
Proof.
  intros Hsel Hfresh. unfold with_match_count, apply_filter, mask_of.
  unfold mbind, res_mbind. simpl.
  destruct (res_mapM _ (rows f)) as [counts|] eqn:Ec; simpl; [|done].
  destruct (res_mapM _ (zip_with _ _ _)) as [mask|] eqn:Em; simpl; [|done].
  intros [= <-]. simpl. split; [by eapply count_rows_filter|].
  destruct (str_in _ _); [done|]. set_solver.
Qed.

Lemma filter_opt_test {A} (o : option A) (t : A → SelectedPersona.t → bool)
    (l : list SelectedPersona.t) :
  match o with Some a => filter (fun p => t a p) l | None => l end
  = filter (fun p => opt_test o (fun a => t a p)) l.
Proof.
  destruct o; simpl; [done|]. induction l as [|x l IH]; [done|].
  rewrite filter_cons_True by exact I. by rewrite <- IH.
Qed.

(** One stage of the filter phase, guarded by its criteria field. *)
Lemma stage_personas {A} (o : option A) (k : A → DataFrame → Res DataFrame)
    (t : A → SelectedPersona.t → bool) f g :
  (∀ a f g, k a f = Ok g →
     map persona_of (rows g) = filter (fun p => t a p) (map persona_of (rows f)) ∧
     columns f ⊆ columns g) →
  pure_when o k f = Ok g →
  map persona_of (rows g) = filter (fun p => opt_test o (fun a => t a p)) (map persona_of (rows f)) ∧
  columns f ⊆ columns g.
Proof.
  intros Hk H. rewrite <- filter_opt_test. destruct o as [a|]; simpl in *.
  - by apply Hk.
  - by injection H as <-.
Qed.

Lemma allow_stage label sel (o : option (list str)) f g :
  (∀ r, sel (persona_of r) = at_col r (py label)) →
  pure_when o (fun vs => apply_filter (isin_test label vs)) f = Ok g →
  map persona_of (rows g)
  = filter (fun p => opt_test o (fun l => in_allow_list l (sel p))) (map persona_of (rows f)) ∧
  columns f ⊆ columns g.
Proof.
  intros Hsel. apply (stage_personas o _ (fun l p => in_allow_list l (sel p))).
  intros a f' g' H.
  apply (apply_filter_personas _ (fun p => in_allow_list a (sel p))) in H as [H1 H2];
    [|intros r b; by apply isin_test_personas].
  split; [done|by rewrite H2].
Qed.

Theorem matching_personas c f m :
  matching c f = Ok m →
  map persona_of (rows m) = matches c f ∧ columns f ⊆ columns m.
Proof.
  unfold matching, matches. unfold mbind, res_mbind.
  destruct (pure_when (Criteria.age_range c) _ f) as [f1|] eqn:E1; simpl; [|done].
  destruct (pure_when (truthy (Criteria.professions c)) _ f1) as [f2|] eqn:E2; simpl; [|done].
  destruct (pure_when (truthy (Criteria.nationalities c)) _ f2) as [f3|] eqn:E3; simpl; [|done].
  destruct (pure_when (truthy (Criteria.salary_ranges c)) _ f3) as [f4|] eqn:E4; simpl; [|done].
  destruct (pure_when (truthy (Criteria.desired_hobbies c)) _ f4) as [f5|] eqn:E5; simpl; [|done].
  intros E6.
  apply (stage_personas _ _ (fun range p => in_age_range range (SelectedPersona.age p)))
    in E1 as [R1 C1].
  2:{ intros a f' g' H.
      apply (apply_filter_personas _ (fun p => in_age_range a (SelectedPersona.age p)))
        in H as [H1 H2]; [|intros r b; apply age_test_personas].
      split; [done|by rewrite H2]. }
  apply (allow_stage "profession" SelectedPersona.profession) in E2 as [R2 C2]; [|done].
  apply (allow_stage "nationality" SelectedPersona.nationality) in E3 as [R3 C3]; [|done].
  apply (allow_stage "salary_range" SelectedPersona.salary_range) in E4 as [R4 C4]; [|done].
  destruct score_labels_fresh as (Fh & Fp & _).
  apply (stage_personas _ _ (fun l p => meets_threshold l (Criteria.min_matching_hobbies c)
                                           (SelectedPersona.hobbies p))) in E5 as [R5 C5].
  2:{ intros a f' g' H. by eapply (count_step_personas "hobbies" "hobby_match_count") in H. }
  apply (stage_personas _ _ (fun l p => meets_threshold l (Criteria.min_matching_priorities c)
                                           (SelectedPersona.priorities p))) in E6 as [R6 C6].
  2:{ intros a f' g' H. by eapply (count_step_personas "priorities" "priority_match_count") in H. }
  split; [|set_solver].
  rewrite R6, R5, R4, R3, R2, R1. unfold passes.
  rewrite !list_filter_filter. apply list_filter_iff. intros p.
  rewrite !andb_True. tauto.
Qed.


(** ** Backfill, trimming and the whole selection *)

Lemma sample_loop_total {A} k (pool : list A) w :
  (k ≤ length pool)%nat →
  ∃ xs w', sample_loop k pool w = (Ok xs, w') ∧ heap w' = heap w ∧
           length xs = k ∧ xs ⊆+ pool.
Proof.
  revert pool w. induction k as [|k IH]; intros pool w Hk; simpl.
  - exists [], w. split_and!; try done. apply submseteq_nil_l.
  - unfold bind. destruct (quiet_draw w) as (r & w1 & E1 & Hh1 & _).
    rewrite E1. destruct r as [d|e].
    2:{ unfold draw in E1. destruct (entropy w); done. }
    assert (Hlt : (d mod length pool < length pool)%nat)
      by (apply Nat.mod_upper_bound; lia).
    destruct (lookup_lt_is_Some_2 pool _ Hlt) as [x Ex]. rewrite Ex.
    destruct (IH (delete (d mod length pool)%nat pool) w1) as (xs & w2 & E2 & Hh2 & Hlen & Hsub).
    { rewrite length_delete by (by exists x). lia. }
    rewrite E2. exists (x :: xs), w2. split_and!; [done|congruence|simpl; lia|].
    rewrite (delete_Permutation pool _ x Ex). by apply submseteq_skip.
Qed.

Lemma sample_total {A} (l : list A) k w :
  0 ≤ k ≤ Z.of_nat (length l) →
  ∃ xs w', sample l k w = (Ok xs, w') ∧ heap w' = heap w ∧
           Z.of_nat (length xs) = k ∧ xs ⊆+ l.
Proof.
  intros Hk. unfold sample.
  destruct (Z.ltb_spec k 0); [lia|]. destruct (Z.ltb_spec (Z.of_nat (length l)) k); [lia|].
  simpl. destruct (sample_loop_total (Z.to_nat k) l w) as (xs & w' & E & Hh & Hlen & Hsub); [lia|].
  exists xs, w'. split_and!; [done..|lia|done].
Qed.

Lemma sample_negative {A} (l : list A) k w : k < 0 → sample l k w = (Raise ValueError, w).
Proof. intros Hk. unfold sample. by destruct (Z.ltb_spec k 0); [|lia]. Qed.

Lemma insert_desc_perm key r l : insert_desc key r l ≡ₚ r :: l.
Proof.
  induction l as [|x l IH]; simpl; [done|].
  destruct (key x <=? key r); [done|]. rewrite IH. apply Permutation_swap.
Qed.

Lemma sort_desc_perm key l : sort_desc key l ≡ₚ l.
Proof.
  induction l as [|x l IH]; simpl; [done|].
  unfold sort_desc in *. simpl. by rewrite insert_desc_perm, IH.
Qed.

Lemma holds_lookup_old w0 l f w i o :
  holds w0 l f w → heap w0 !! i = Some o → heap w !! i = Some o.
Proof. intros (Hp & _ & _) Hi. by eapply prefix_lookup_Some. Qed.

Lemma holds_same_heap w0 l f w w' : holds w0 l f w → heap w' = heap w → holds w0 l f w'.
Proof. unfold holds. intros H ->. done. Qed.

Lemma holds_alloc_new w0 l f w g :
  holds w0 l f w →
  holds w0 (length (heap w)) g
        (mkWorld (heap w ++ [OFrame g]) (entropy w) (backend w) (clock w)
                 (stdout_faults w) (stdout w) (log w)).
Proof.
  intros (Hp & Hl & Hf). split_and!; simpl.
  - by apply prefix_alloc.
  - apply prefix_length in Hp. lia.
  - apply lookup_alloc.
Qed.

Lemma backfill_spec self c n b w0 l f w cat :
  holds w0 l f w → heap w0 !! unique_values self = Some (ODict cat) →
  ∃ r w', backfill self c n b l w = (r, w') ∧ heap w0 `prefix_of` heap w' ∧
    match r with
    | Ok l' =>
        if (len f <? n) && b then
          ∃ synth, holds w0 l' (concat f (of_series series_labels synth)) w' ∧
                   length synth = Z.to_nat (n - len f) ∧ Forall (generated c cat) synth
        else holds w0 l' f w'
    | Raise e => (len f <? n) && b = true ∧ ¬ can_backfill c cat
    end.
Proof.
  intros Hh Hcat. pose proof Hh as (Hp & Hl & Hf).
  unfold backfill, mbind, M_bind, bind. rewrite (read_frame_at _ _ _ Hf).
  destruct ((len f <? n) && b) eqn:Eb.
  2:{ by exists (Ok l), w. }
  destruct (repeat_generate_spec self c cat (Z.to_nat (n - len f)) w)
    as (r & w1 & -> & Hh1 & Hr); [by eapply holds_lookup_old|].
  destruct r as [synth|e].
  2:{ exists (Raise e), w1. split_and!; [done|by rewrite Hh1|done..]. }
  destruct Hr as [Hlen Hall].
  assert (Hholds1 : holds w0 l f w1) by (by eapply holds_same_heap).
  unfold alloc at 1. simpl.
  unfold read_frame. simpl. rewrite lookup_alloc.
  eexists (Ok _), _. split; [reflexivity|]. simpl. split.
  { apply prefix_alloc, prefix_alloc. by destruct Hholds1. }
  exists synth. split_and!; [|done..].
  pose proof (holds_alloc_new w0 l f w1 (of_series series_labels synth) Hholds1) as H2.
  apply (holds_alloc_new _ _ _ _ (concat f (of_series series_labels synth))) in H2.
  simpl in H2. exact H2.
Qed.

Lemma personas_with_score (cols : list str) (rs : list Row) :
  map persona_of (zip_with (fun r v => <[py "total_score" := v]> r) rs
                           (map (fun r => CNum (total_score cols r)) rs))
  = map persona_of rs.
Proof.
  induction rs as [|r rs IH]; simpl; [done|].
  rewrite IH. f_equal. apply persona_of_insert, score_labels_fresh.
Qed.

Lemma trim_spec c n w0 l f w :
  holds w0 l f w →
  ∃ r w', trim c n l w = (r, w') ∧ heap w0 `prefix_of` heap w' ∧
    match r with
    | Ok l' =>
        ∃ g, holds w0 l' g w' ∧ columns f ⊆ columns g ∧
             if n <? len f then
               length (rows g) = Z.to_nat n ∧
               map persona_of (rows g) ⊆+ map persona_of (rows f) ∧
               (score_columns c = [] → 0 ≤ n)
             else g = f
    | Raise e => n < len f ∧ n < 0 ∧ score_columns c = [] ∧ e = ValueError
    end.
Proof.
  intros Hh. pose proof Hh as (Hp & Hl & Hf).
  unfold trim, mbind, M_bind, bind. rewrite (read_frame_at _ _ _ Hf).
  destruct (Z.ltb_spec n (len f)) as [Hn|Hn].
  2:{ exists (Ok l), w. split_and!; [done..|]. exists f. split_and!; [done..|].
      by destruct (Z.ltb_spec n (len f)); [lia|]. }
  destruct (score_columns c) as [|col cols] eqn:Ecols.
  - (* uniform sample *)
    destruct (Z.ltb_spec n 0) as [Hneg|Hpos].
    { rewrite sample_negative by done. exists (Raise ValueError), w. done. }
    unfold len in Hn.
    destruct (sample_total (rows f) n w) as (xs & w1 & -> & Hh1 & Hlen & Hsub); [lia|].
    eexists (Ok _), _. split; [reflexivity|]. simpl. split.
    { apply prefix_alloc. by rewrite Hh1. }
    exists (mkFrame (columns f) xs). split_and!; simpl.
    + apply (holds_alloc_new w0 l f w1). by eapply holds_same_heap.
    + done.
    + lia.
    + by apply fmap_submseteq.
    + done.
  - (* ranking by total score *)
    set (sc := col :: cols).
    set (f1 := setitem (py "total_score") (map (fun r => CNum (total_score sc r)) (rows f)) f).
    set (w1 := mkWorld (<[l := OFrame f1]> (heap w)) (entropy w) (backend w) (clock w)
                       (stdout_faults w) (stdout w) (log w)).
    assert (Hh1 : holds w0 l f1 w1).
    { split_and!; simpl; [by apply prefix_store|done|].
      apply list_lookup_insert_eq. by eapply lookup_lt_Some. }
    change (store l (OFrame f1) w) with (Ok tt, w1).
    cbv beta iota. rewrite (read_frame_at l f1 w1) by apply Hh1.
    eexists (Ok _), _. split; [reflexivity|]. split.
    { apply prefix_alloc. apply Hh1. }
    exists (nlargest n (py "total_score") f1). split_and!.
    + apply (holds_alloc_new w0 l f1 w1 _ Hh1).
    + subst f1. simpl. destruct (str_in _ _); set_solver.
    + subst f1. simpl. rewrite length_take. apply Nat.min_l.
      rewrite (Permutation_length (sort_desc_perm _ _)).
      rewrite length_zip_with, length_map. unfold len in Hn. lia.
    + subst f1. unfold nlargest, setitem; cbn [rows].
      etrans; [apply fmap_submseteq, sublist_submseteq, sublist_take|].
      rewrite (sort_desc_perm _ _), personas_with_score. done.
    + done.
Qed.

Lemma series_get_ok f r label :
  py label ∈ columns f → series_get f r label = Ok (at_col r (py label)).
Proof. intros H. unfold series_get, str_in. by rewrite bool_decide_eq_true_2. Qed.

Lemma from_series_ok f r :
  required_columns ⊆ columns f → from_series f r = Ok (persona_of r).
Proof.
  intros H. unfold from_series.
  rewrite !series_get_ok; [done|..];
    (apply H; apply (bool_decide_unpack _); vm_compute; exact I).
Qed.

Lemma mapM_from_series f rs :
  required_columns ⊆ columns f → res_mapM (from_series f) rs = Ok (map persona_of rs).
Proof.
  intros H. induction rs as [|r rs IH]; simpl; [done|].
  by rewrite (from_series_ok _ _ H), IH.
Qed.

Lemma filter_personas_spec self c n b w f cat :
  selector_state w self f cat →
  ∃ r w', _filter_personas self c n b w = (r, w') ∧ heap w `prefix_of` heap w' ∧
    match r with
    | Ok l => ∃ g, heap w' !! l = Some (OFrame g) ∧ required_columns ⊆ columns g ∧
                   outcome c cat f n b (Ok (map persona_of (rows g)))
    | Raise e => outcome c cat f n b (Raise e)
    end.
Proof.
  intros (Hdf & Hcat & Hcols).
  unfold _filter_personas, try_except, mbind, M_bind, bind.
  rewrite (read_frame_at _ _ _ Hdf). unfold alloc at 1.
  set (w1 := mkWorld (heap w ++ [OFrame f]) _ _ _ _ _ _).
  assert (H1 : holds w (length (heap w)) f w1).
  { split_and!; simpl; [by apply prefix_app_r|done|apply lookup_alloc]. }
  cbv beta iota.
  pose proof (frame_step_apply_filters c w _ f w1 H1) as Hf.
  unfold outcome.
  destruct (matching c f) as [m|e] eqn:Em.
  2:{ destruct Hf as (w2 & -> & Hp2). eexists (Raise e), _. split; [reflexivity|]. done. }
  destruct Hf as (l2 & w2 & -> & H2).
  apply matching_personas in Em as [Hm Hmc]. cbv zeta.
  assert (Hlen : len m = Z.of_nat (length (matches c f))).
  { unfold len. by rewrite <- Hm, length_map. }
  destruct (backfill_spec self c n b w l2 m w2 cat H2 Hcat) as (r3 & w3 & -> & Hp3 & Hr3).
  rewrite Hlen in Hr3.
  destruct r3 as [l3|e].
  2:{ eexists (Raise e), _. split; [reflexivity|]. split; [done|].
      destruct Hr3 as [-> Hno]. done. }
  destruct ((Z.of_nat (length (matches c f)) <? n) && b) eqn:Eb.
  - (* synthesized personas were appended: nothing is left to cut *)
    destruct Hr3 as (synth & H3 & Hsl & Hall).
    destruct (trim_spec c n w l3 _ w3 H3) as (r4 & w4 & -> & Hp4 & Hr4).
    apply andb_true_iff in Eb as [Ek _]. apply Z.ltb_lt in Ek.
    assert (Hfull : ¬ n < len (concat m (of_series series_labels synth))).
    { unfold len, concat. simpl. rewrite length_app. unfold len in Hlen. lia. }
    destruct r4 as [l4|e]; [|lia].
    destruct Hr4 as (g & H4 & Hc4 & Hg).
    destruct (Z.ltb_spec n (len (concat m (of_series series_labels synth)))); [lia|].
    subst g. rewrite (read_frame_at _ _ _ (proj2 (proj2 H4))).
    eexists (Ok _), _. split; [reflexivity|]. split; [done|].
    eexists. split; [apply H4|]. split.
    { intros x Hx. simpl. apply elem_of_app. left. by apply Hmc, Hcols. }
    exists synth. split_and!; [|lia|done].
    simpl. by rewrite map_app, Hm.
  - destruct (trim_spec c n w l3 m w3 Hr3) as (r4 & w4 & -> & Hp4 & Hr4).
    rewrite Hlen in Hr4.
    destruct r4 as [l4|e].
    + destruct Hr4 as (g & H4 & Hc4 & Hg).
      rewrite (read_frame_at _ _ _ (proj2 (proj2 H4))).
      eexists (Ok _), _. split; [reflexivity|]. split; [done|].
      exists g. split; [apply H4|]. split; [intros x Hx; by apply Hc4, Hmc, Hcols|].
      destruct (n <? Z.of_nat (length (matches c f))) eqn:En.
      * destruct Hg as (Hgl & Hgs & Hpos). rewrite Hm in Hgs.
        destruct ((n <? 0) && bool_decide (score_columns c = [])) eqn:Ebad.
        { apply andb_true_iff in Ebad as [E1 E2]. apply Z.ltb_lt in E1.
          apply bool_decide_eq_true in E2. specialize (Hpos E2). lia. }
        eexists. split; [done|]. by rewrite length_map.
      * subst g. by rewrite Hm.
    + destruct Hr4 as (Hlt & Hneg & Hsc & ->).
      eexists (Raise _), _. split; [reflexivity|]. split; [done|].
      destruct (Z.ltb_spec n (Z.of_nat (length (matches c f)))); [|lia].
      destruct (Z.ltb_spec n 0); [|lia]. simpl.
      by rewrite bool_decide_eq_true_2.
Qed.

Theorem selection_spec self c n b w f cat :
  selector_state w self f cat →
  ∃ r w', get_selected_personas self c n b w = (r, w') ∧ heap w `prefix_of` heap w' ∧
          outcome c cat f n b r.
Proof.
  intros Hs. unfold get_selected_personas, try_except, mbind, M_bind, bind.
  destruct (filter_personas_spec self c n b w f cat Hs) as (r & w1 & -> & Hp & Hr).
  destruct r as [l|e].
  - destruct Hr as (g & Hg & Hcols & Hout).
    rewrite (read_frame_at _ _ _ Hg). unfold lift.
    rewrite (mapM_from_series _ _ Hcols). by eexists (Ok _), _.
  - by eexists (Raise e), _.
Qed.


(** ** Selection: the length of the result and the constraints it meets *)

Lemma sheet_state : selector_state Sheet.world Sheet.self Sheet.store Sheet.catalog.
Proof.
  split_and!; [reflexivity|reflexivity|].
  apply (bool_decide_unpack _). vm_compute. exact I.
Qed.

(** C1, as stated, fails: with backfill enabled and an age range that has
    no member, no persona can be synthesized, and the call raises instead of
    returning [count] personas. *)
Lemma selection_length_counterexample :
  ¬ ∃ ps, fst (get_selected_personas Sheet.self Sheet.empty_range 1 true Sheet.world) = Ok ps
          ∧ Z.of_nat (length ps) = 1.
Proof. intros (ps & H & _). vm_compute in H. discriminate H. Qed.

(** C1 (amended): on a constructed selector and for a count that is not
    negative, whenever [get_selected_personas] returns, the result has exactly
    [count] personas if backfill is enabled and [min(count, matches)] personas
    if it is disabled; without backfill and with at most [count] matches the
    result is exactly the matching records.  The call returns whenever the
    filters can be evaluated on the store and backfill is disabled, or enough
    records match, or the catalog can supply a synthetic persona. *)
Theorem get_selected_personas_length self c n b w f cat :
  selector_state w self f cat → 0 ≤ n →
  (∀ ps, fst (get_selected_personas self c n b w) = Ok ps →
     Z.of_nat (length ps)
       = (if b then n else Z.min n (Z.of_nat (length (matches c f)))) ∧
     (b = false → Z.of_nat (length (matches c f)) ≤ n → ps = matches c f)) ∧
  (is_ok (matching c f) = true →
   b = false ∨ n ≤ Z.of_nat (length (matches c f)) ∨ can_backfill c cat →
   ∃ ps, fst (get_selected_personas self c n b w) = Ok ps).
Proof.
  intros Hs Hn.
  destruct (selection_spec self c n b w f cat Hs) as (r & w1 & E & _ & Hout).
  unfold outcome in Hout. set (k := Z.of_nat (length (matches c f))) in *.
  split.
  - intros ps E'. rewrite E in E'. simpl in E'. subst r.
    destruct (matching c f) as [m|e]; [|done]. cbv zeta in Hout. fold k in Hout.
    destruct (Z.ltb_spec k n) as [Hk|Hk]; simpl in Hout.
    + destruct b.
      * destruct Hout as (synth & -> & Hlen & _).
        rewrite length_app, length_map. split; [lia|done].
      * rewrite (proj2 (Z.ltb_ge n k)) in Hout by lia. injection Hout as ->.
        split; [lia|done].
    + destruct (Z.ltb_spec n k) as [Hk'|Hk'].
      * destruct (Z.ltb_spec n 0); [lia|]. simpl in Hout.
        destruct Hout as (ps' & [= ->] & Hlen & _).
        split; [destruct b; lia|]. intros _ ?. lia.
      * injection Hout as ->. split; [destruct b; lia|done].
  - intros Hok Hcase.
    destruct (matching c f) as [m|e]; [|done]. cbv zeta in Hout. fold k in Hout.
    destruct ((k <? n) && b) eqn:Eb.
    + apply andb_true_iff in Eb as [Ek ->]. apply Z.ltb_lt in Ek.
      rewrite E. destruct r as [ps|e]; [by eexists|].
      destruct Hcase as [?|[?|Hcan]]; [done|lia|done].
    + destruct (n <? k).
      * destruct (Z.ltb_spec n 0); [lia|]. simpl in Hout.
        destruct Hout as (ps & -> & _). rewrite E. by eexists.
      * subst r. rewrite E. by eexists.
Qed.

Lemma get_selected_personas_length_witness :
  selector_state Sheet.world Sheet.self Sheet.store Sheet.catalog ∧ 0 ≤ 3 ∧
  ((∀ ps, fst (get_selected_personas Sheet.self Sheet.engineers 3 true Sheet.world) = Ok ps →
      Z.of_nat (length ps)
        = (if true then 3 else Z.min 3 (Z.of_nat (length (matches Sheet.engineers Sheet.store)))) ∧
      (true = false → Z.of_nat (length (matches Sheet.engineers Sheet.store)) ≤ 3 →
       ps = matches Sheet.engineers Sheet.store)) ∧
   (is_ok (matching Sheet.engineers Sheet.store) = true →
    true = false ∨ 3 ≤ Z.of_nat (length (matches Sheet.engineers Sheet.store))
    ∨ can_backfill Sheet.engineers Sheet.catalog →
    ∃ ps, fst (get_selected_personas Sheet.self Sheet.engineers 3 true Sheet.world) = Ok ps)).
Proof.
  split; [exact sheet_state|]. split; [lia|].
  apply (get_selected_personas_length Sheet.self Sheet.engineers 3 true
           Sheet.world Sheet.store Sheet.catalog); [exact sheet_state|lia].
Defined.

(** C2, as stated, fails: an allow-list that is given but empty is not
    enforced; every record is returned although none has a profession in
    the empty list. *)
Lemma selection_constraints_counterexample :
  ∃ ps p,
    fst (get_selected_personas Sheet.self Sheet.no_profession 5 false Sheet.world) = Ok ps ∧
    p ∈ ps ∧ p ∈ map persona_of (rows Sheet.store) ∧
    passes_given Sheet.no_profession p = false.
Proof.
  eexists _, _. split; [vm_compute; reflexivity|].
  split; [apply list_elem_of_here|]. split; [apply list_elem_of_here|].
  vm_compute. reflexivity.
Qed.

Lemma matches_pass c f p : p ∈ matches c f → passes c p = true ∧ p ∈ map persona_of (rows f).
Proof.
  unfold matches. intros H. apply list_elem_of_filter in H as [H1 H2].
  split; [by apply Is_true_true|done].
Qed.

(** C2 (amended): the result of [get_selected_personas] is a list of
    records of the store followed by the synthesized ones; each of the former
    meets every constraint that is given and, for allow-lists and desired sets,
    not empty: age within the inclusive range, profession, nationality and
    salary range in their allow-lists, and at least the minimum number of
    desired hobbies and priorities among the record's values. *)
Theorem selected_records_pass self c n b w f cat ps :
  selector_state w self f cat →
  fst (get_selected_personas self c n b w) = Ok ps →
  ∃ real synth,
    ps = real ++ map persona_of synth ∧
    Z.of_nat (length synth)
      = (if (Z.of_nat (length (matches c f)) <? n) && b
         then n - Z.of_nat (length (matches c f)) else 0) ∧
    Forall (generated c cat) synth ∧
    Forall (fun p => passes c p = true ∧ p ∈ map persona_of (rows f)) real.
Proof.
  intros Hs E.
  destruct (selection_spec self c n b w f cat Hs) as (r & w1 & E1 & _ & Hout).
  rewrite E1 in E. simpl in E. subst r.
  unfold outcome in Hout. destruct (matching c f) as [m|e]; [|done]. cbv zeta in Hout.
  destruct ((Z.of_nat (length (matches c f)) <? n) && b).
  - destruct Hout as (synth & -> & Hlen & Hall).
    exists (matches c f), synth. split_and!; [done..|].
    apply Forall_forall. intros p. apply matches_pass.
  - assert (Hsub : ps ⊆+ matches c f).
    { destruct (n <? Z.of_nat (length (matches c f))).
      - destruct ((n <? 0) && _); [done|]. by destruct Hout as (ps' & [= ->] & _ & ?).
      - by injection Hout as ->. }
    exists ps, []. rewrite app_nil_r. split_and!; [done..|].
    apply Forall_forall. intros p Hp. apply matches_pass. by eapply elem_of_submseteq.
Qed.

Lemma selected_records_pass_witness :
  ∃ ps,
    selector_state Sheet.world Sheet.self Sheet.store Sheet.catalog ∧
    fst (get_selected_personas Sheet.self Sheet.engineers 3 true Sheet.world) = Ok ps ∧
    ∃ real synth,
      ps = real ++ map persona_of synth ∧
      Z.of_nat (length synth)
        = (if (Z.of_nat (length (matches Sheet.engineers Sheet.store)) <? 3) && true
           then 3 - Z.of_nat (length (matches Sheet.engineers Sheet.store)) else 0) ∧
      Forall (generated Sheet.engineers Sheet.catalog) synth ∧
      Forall (fun p => passes Sheet.engineers p = true ∧ p ∈ map persona_of (rows Sheet.store)) real.
Proof.
  eexists. split; [exact sheet_state|]. split; [vm_compute; reflexivity|].
  eapply (selected_records_pass Sheet.self Sheet.engineers 3 true Sheet.world);
    [exact sheet_state|vm_compute; reflexivity].
Defined.


(** ** Synthesized personas *)

Lemma persona_of_series n a p t s h q c :
  persona_of (mk_series n a p t s h q c)
  = SelectedPersona.mk (CStr n) (CNum a) p t s (CList h) (CList q) (CList c).
Proof. reflexivity. Qed.

Lemma elem_of_unique_from {A} `{EqDecision A} (seen l : list A) x :
  x ∈ unique_from seen l ↔ x ∈ l ∧ x ∉ seen.
Proof.
  revert seen. induction l as [|y l IH]; intros seen; simpl.
  - split; [by intros ?%elem_of_nil|by intros [?%elem_of_nil _]].
  - case_bool_decide as Hy.
    + rewrite IH, elem_of_cons. split; [tauto|].
      intros [[->|?] ?]; [done|tauto].
    + rewrite !elem_of_cons, IH, elem_of_cons. split.
      * intros [->|[? ?]]; [tauto|]. split; [tauto|]. intros ?. tauto.
      * intros [[->|?] ?]; [tauto|].
        destruct (decide (x = y)) as [->|]; [tauto|]. right. split; [done|].
        intros [?|?]; done.
Qed.

Lemma elem_of_unique {A} `{EqDecision A} (l : list A) x : x ∈ unique l ↔ x ∈ l.
Proof.
  unfold unique. rewrite elem_of_unique_from. split; [tauto|].
  intros ?. split; [done|apply not_elem_of_nil].
Qed.

Lemma submseteq_NoDup_l {A} (l k : list A) : l ⊆+ k → NoDup k → NoDup l.
Proof.
  intros [k' Hk]%submseteq_Permutation Hnd. rewrite Hk in Hnd.
  by apply NoDup_app in Hnd as [? _].
Qed.

(** The seed alone already accounts for as many matches as it has members. *)
Lemma match_count_seed (seed extra desired : list str) :
  NoDup desired → seed ⊆+ desired →
  Z.of_nat (length seed) ≤ match_count (seed ++ extra) desired.
Proof.
  intros Hnd Hsub. unfold match_count. apply inj_le, submseteq_length.
  apply NoDup_submseteq; [by eapply submseteq_NoDup_l|].
  intros x Hx. apply list_elem_of_filter. split.
  - apply Is_true_true. unfold str_in. apply bool_decide_eq_true.
    by eapply elem_of_submseteq.
  - apply elem_of_unique, elem_of_app. by left.
Qed.

Lemma multi_valued_meets desired m catalog hi v l :
  multi_valued_ok desired m catalog hi v →
  truthy desired = Some l → NoDup l →
  meets_threshold l (Z.min m (Z.of_nat (length l))) (CList v) = true.
Proof.
  intros (seed & extra & -> & Hseed & _ & _) Hl Hnd.
  unfold seeded_from in Hseed. rewrite Hl in Hseed. destruct Hseed as [Hsub Hlen].
  unfold meets_threshold. simpl. apply Z.leb_le. rewrite <- Hlen.
  by apply match_count_seed.
Qed.

(** C3, as stated, fails: with one desired hobby and a minimum of two
    matches, the synthesized persona carries the single desired hobby only;
    it would not pass the filter the real records go through. *)
Lemma synthesized_persona_counterexample :
  ∃ p, res_map persona_of
         (fst (_generate_random_persona Sheet.self Sheet.two_of_one Sheet.world)) = Ok p ∧
       meets_threshold [py "chess"] 2 (SelectedPersona.hobbies p) = false ∧
       passes Sheet.two_of_one p = false.
Proof. eexists. split; [vm_compute; reflexivity|]. split; vm_compute; reflexivity. Qed.

(** C3 (amended): a persona synthesized by [_generate_random_persona] has
    a number as its age, within the requested range and within 18..80 when no
    range is given; its profession, nationality and salary range are texts of
    the requested allow-list when that list is not empty and cells of the
    catalog otherwise; for a desired set without repetitions it has at least
    [min(minimum, size of the desired set)] desired hobbies and priorities;
    its name is [RandomPersona_] followed by a number between 1000 and 9999,
    so it differs from every name that does not start that way.  The persona
    is produced whenever the catalog can supply it. *)
Theorem generated_persona_respects_criteria self c cat w :
  heap w !! unique_values self = Some (ODict cat) →
  (∀ r, fst (_generate_random_persona self c w) = Ok r →
     let p := persona_of r in
     (∃ a, SelectedPersona.age p = CNum a ∧
           match Criteria.age_range c with
           | Some (lo, hi) => lo ≤ a ≤ hi
           | None => 18 ≤ a ≤ 80
           end) ∧
     match truthy (Criteria.professions c) with
     | Some l => ∃ s, SelectedPersona.profession p = CStr s ∧ s ∈ l
     | None => SelectedPersona.profession p ∈ Catalog.professions cat
     end ∧
     match truthy (Criteria.nationalities c) with
     | Some l => ∃ s, SelectedPersona.nationality p = CStr s ∧ s ∈ l
     | None => SelectedPersona.nationality p ∈ Catalog.nationalities cat
     end ∧
     match truthy (Criteria.salary_ranges c) with
     | Some l => ∃ s, SelectedPersona.salary_range p = CStr s ∧ s ∈ l
     | None => SelectedPersona.salary_range p ∈ Catalog.salary_ranges cat
     end ∧
     (∀ l, truthy (Criteria.desired_hobbies c) = Some l → NoDup l →
           meets_threshold l (Z.min (Criteria.min_matching_hobbies c) (Z.of_nat (length l)))
                           (SelectedPersona.hobbies p) = true) ∧
     (∀ l, truthy (Criteria.desired_priorities c) = Some l → NoDup l →
           meets_threshold l (Z.min (Criteria.min_matching_priorities c) (Z.of_nat (length l)))
                           (SelectedPersona.priorities p) = true) ∧
     (∃ k, 1000 ≤ k ≤ 9999 ∧
           SelectedPersona.name p = CStr (py "RandomPersona_" ++ str_of_Z k)) ∧
     (∀ s, ¬ py "RandomPersona_" `prefix_of` s → SelectedPersona.name p ≠ CStr s)) ∧
  (can_backfill c cat → ∃ r, fst (_generate_random_persona self c w) = Ok r).
Proof.
  intros Hcat.
  destruct (generate_spec self c cat w Hcat) as (res & w' & E & _ & Hres).
  rewrite E. cbn [fst]. split.
  - intros r ->. cbv zeta.
    destruct Hres as (k & age & p & n & s & h & q & cs & -> & Hk & Hage & Hp & Hn & Hs & Hh & Hq & _).
    rewrite persona_of_series.
    cbn [SelectedPersona.age SelectedPersona.profession SelectedPersona.nationality
         SelectedPersona.salary_range SelectedPersona.hobbies SelectedPersona.priorities
         SelectedPersona.name].
    split_and!.
    + exists age. split; [done|]. by destruct (Criteria.age_range c) as [[lo hi]|].
    + exact Hp.
    + exact Hn.
    + exact Hs.
    + intros l Hl Hnd. by eapply multi_valued_meets.
    + intros l Hl Hnd. by eapply multi_valued_meets.
    + by exists k.
    + intros s' Hpre [= <-]. apply Hpre. by eexists.
  - intros Hcan. destruct res as [r|e]; [by exists r|done].
Qed.

Lemma sheet_can_backfill : can_backfill Sheet.engineers Sheet.catalog.
Proof.
  unfold can_backfill, can_choose, can_pad. simpl.
  split_and!; try done; try lia; vm_compute; congruence.
Qed.

Lemma sheet_can_seed : can_backfill Sheet.two_of_one Sheet.catalog.
Proof.
  unfold can_backfill, can_choose, can_pad. simpl.
  split_and!; try done; try lia; vm_compute; congruence.
Qed.

Lemma generated_persona_respects_criteria_witness :
  heap Sheet.world !! unique_values Sheet.self = Some (ODict Sheet.catalog) ∧
  (∃ r, fst (_generate_random_persona Sheet.self Sheet.engineers Sheet.world) = Ok r ∧
        (∃ a, SelectedPersona.age (persona_of r) = CNum a ∧ 25 ≤ a ≤ 35) ∧
        SelectedPersona.profession (persona_of r) = CStr (py "Software engineer") ∧
        SelectedPersona.nationality (persona_of r) ∈ Catalog.nationalities Sheet.catalog) ∧
  (∃ r, fst (_generate_random_persona Sheet.self Sheet.two_of_one Sheet.world) = Ok r ∧
        (∃ a, SelectedPersona.age (persona_of r) = CNum a ∧ 18 ≤ a ≤ 80) ∧
        SelectedPersona.profession (persona_of r) ∈ Catalog.professions Sheet.catalog ∧
        meets_threshold [py "chess"] 1 (SelectedPersona.hobbies (persona_of r)) = true ∧
        SelectedPersona.name (persona_of r) ≠ CStr (py "Asha")).
Proof.
  split; [reflexivity|]. split.
  - destruct (generated_persona_respects_criteria Sheet.self Sheet.engineers Sheet.catalog
                Sheet.world eq_refl) as [Hall Hret].
    destruct (Hret sheet_can_backfill) as [r Hr]. exists r. split; [exact Hr|].
    destruct (Hall r Hr) as (Hage & Hp & Hn & _).
    split; [exact Hage|]. split; [|exact Hn].
    destruct Hp as (s & Hs & Hin). rewrite Hs.
    apply list_elem_of_singleton in Hin. by rewrite Hin.
  - destruct (generated_persona_respects_criteria Sheet.self Sheet.two_of_one Sheet.catalog
                Sheet.world eq_refl) as [Hall Hret].
    destruct (Hret sheet_can_seed) as [r Hr]. exists r. split; [exact Hr|].
    destruct (Hall r Hr) as (Hage & Hp & _ & _ & Hh & _ & _ & Hname).
    split; [exact Hage|]. split; [exact Hp|]. split.
    + apply (Hh [py "chess"] eq_refl). apply NoDup_singleton.
    + apply Hname. vm_compute. intros [k Hk]. discriminate Hk.
Defined.

(** ** Loading the store, and what later calls leave of it *)

Lemma store_at l o w :
  store l o w = (Ok tt, mkWorld (<[l := o]> (heap w)) (entropy w) (backend w) (clock w)
                                (stdout_faults w) (stdout w) (log w)).
Proof. reflexivity. Qed.

Lemma missing_none (cols req : list str) :
  filter (fun c => negb (str_in c cols)) req = [] ↔ req ⊆ cols.
Proof.
  induction req as [|c req IH].
  - split; [intros _ x Hx; by apply elem_of_nil in Hx|done].
  - destruct (str_in c cols) eqn:E.
    + rewrite filter_cons_False by (rewrite E; intros []). rewrite IH.
      apply bool_decide_eq_true in E. split.
      * intros H x [->|Hx]%elem_of_cons; [done|by apply H].
      * intros H x Hx. apply H. by right.
    + rewrite filter_cons_True by (by rewrite E). split; [done|].
      intros H. apply bool_decide_eq_false in E. destruct E. apply H. by left.
Qed.

Lemma prepare_step (col : string) l f w :
  heap w !! l = Some (OFrame f) →
  ∃ w', (f' ← read_frame l;
         if dtype_is_object f' (py col) then update_frame l (apply_convert (py col))
         else ret tt) w = (Ok tt, w') ∧
        heap w' = <[l := OFrame (convert_if col f)]> (heap w) ∧
        heap w' !! l = Some (OFrame (convert_if col f)).
Proof.
  intros Hf. unfold mbind, M_bind, bind, convert_if. rewrite (read_frame_at _ _ _ Hf).
  destruct (dtype_is_object f (py col)).
  - unfold update_frame, bind. rewrite (read_frame_at _ _ _ Hf), store_at.
    eexists. split; [done|]. simpl. split; [done|].
    apply list_lookup_insert_eq. by eapply lookup_lt_Some.
  - exists w. split; [done|]. split; [|done]. by rewrite list_insert_id.
Qed.

Lemma prepare_missing l f w :
  heap w !! l = Some (OFrame f) → ¬ required_columns ⊆ columns f →
  prepare_dataframe l w = (Raise ValueError, w).
Proof.
  intros Hf Hcols. unfold prepare_dataframe.
  unfold mbind, M_bind, bind. rewrite (read_frame_at _ _ _ Hf).
  destruct (filter _ required_columns) eqn:E; [|done].
  by apply missing_none in E.
Qed.

Lemma prepare_spec l f w :
  heap w !! l = Some (OFrame f) → required_columns ⊆ columns f →
  ∃ w', prepare_dataframe l w = (Ok tt, w') ∧
        heap w' = <[l := OFrame (normalize f)]> (heap w).
Proof.
  intros Hf Hcols. unfold prepare_dataframe.
  unfold mbind at 1, M_bind at 1, bind at 1. rewrite (read_frame_at _ _ _ Hf).
  rewrite (proj2 (missing_none _ _) Hcols).
  change list_columns with [py "hobbies"; py "priorities"; py "constraints"].
  cbn [for_each]. unfold bind at 1.
  destruct (prepare_step "hobbies" l f w Hf) as (w1 & -> & Hh1 & Hl1).
  unfold bind at 1.
  destruct (prepare_step "priorities" l _ w1 Hl1) as (w2 & -> & Hh2 & Hl2).
  unfold bind at 1.
  destruct (prepare_step "constraints" l _ w2 Hl2) as (w3 & -> & Hh3 & Hl3).
  exists w3. split; [done|].
  rewrite Hh3, Hh2, Hh1, !list_insert_insert_eq. done.
Qed.

(** The rows after normalisation, column by column. *)
Lemma rows_apply_convert col f :
  rows (apply_convert col f)
  = map (fun r => <[col := CList (_convert_string_to_list (at_col r col))]> r) (rows f).
Proof.
  unfold apply_convert, setitem. cbn [rows].
  by rewrite zip_with_fmap_r, zip_with_diag.
Qed.

Lemma columns_convert_if col f : columns f ⊆ columns (convert_if col f).
Proof.
  unfold convert_if. destruct (dtype_is_object f (py col)); [|done].
  unfold apply_convert, setitem. cbn [columns].
  destruct (str_in _ _); [done|]. intros x Hx. apply elem_of_app. by left.
Qed.

Lemma columns_normalize f : columns f ⊆ columns (normalize f).
Proof.
  unfold normalize. intros x Hx. by do 3 apply columns_convert_if.
Qed.

Lemma length_convert_if col f : length (rows (convert_if col f)) = length (rows f).
Proof.
  unfold convert_if. destruct (dtype_is_object f (py col)); [|done].
  by rewrite rows_apply_convert, length_map.
Qed.

(** A converted column holds lists; the other columns are as they were. *)
Lemma convert_if_lookup col f i r' :
  rows (convert_if col f) !! i = Some r' →
  ∃ r, rows f !! i = Some r ∧
       (∀ label, label ≠ py col → at_col r' label = at_col r label) ∧
       (at_col r' (py col) =
          if dtype_is_object f (py col)
          then CList (_convert_string_to_list (at_col r (py col)))
          else at_col r (py col)).
Proof.
  unfold convert_if. destruct (dtype_is_object f (py col)).
  - rewrite rows_apply_convert, list_lookup_fmap.
    destruct (rows f !! i) as [r|]; [|done]. intros [= <-]. exists r.
    split_and!; [done| |by rewrite at_col_insert_eq].
    intros label Hne. by rewrite at_col_insert_ne.
  - intros H. by exists r'.
Qed.

Lemma dtype_convert_other (col col' : string) f :
  py col ≠ py col' →
  dtype_is_object (convert_if col f) (py col') = dtype_is_object f (py col').
Proof.
  intros Hne. unfold convert_if. destruct (dtype_is_object f (py col)); [|done].
  unfold dtype_is_object. rewrite rows_apply_convert.
  induction (rows f) as [|r rs IH]; [done|]. simpl.
  by rewrite at_col_insert_ne, IH.
Qed.

Lemma normalize_lookup f i r' :
  rows (normalize f) !! i = Some r' →
  ∃ r, rows f !! i = Some r ∧
       (∀ label, label ∈ scalar_columns → at_col r' label = at_col r label) ∧
       (∀ label, label ∈ list_columns →
          at_col r' label = if dtype_is_object f label
                            then CList (_convert_string_to_list (at_col r label))
                            else at_col r label).
Proof.
  unfold normalize. intros H.
  apply convert_if_lookup in H as (r2 & H & Hc_other & Hc).
  apply convert_if_lookup in H as (r1 & H & Hp_other & Hp).
  apply convert_if_lookup in H as (r & H & Hh_other & Hh).
  rewrite !dtype_convert_other in Hc by done.
  rewrite dtype_convert_other in Hp by done.
  exists r. split; [done|]. split.
  - intros label Hl.
    assert (label ≠ py "hobbies" ∧ label ≠ py "priorities" ∧ label ≠ py "constraints")
      as (N1 & N2 & N3).
    { unfold scalar_columns in Hl. simpl in Hl.
      repeat (apply elem_of_cons in Hl as [->|Hl]; [by split_and!|]).
      by apply elem_of_nil in Hl. }
    by rewrite Hc_other, Hp_other, Hh_other.
  - intros label Hl. unfold list_columns in Hl. simpl in Hl.
    apply elem_of_cons in Hl as [->|Hl].
    { by rewrite Hc_other, Hp_other, Hh by done. }
    apply elem_of_cons in Hl as [->|Hl].
    { by rewrite Hc_other, Hp, Hh_other by done. }
    apply elem_of_cons in Hl as [->|Hl]; [|by apply elem_of_nil in Hl].
    by rewrite Hc, Hp_other, Hh_other by done.
Qed.

Lemma mapM_ok_inv {A B} (g : A → Res B) (l : list A) ys x :
  res_mapM g l = Ok ys → x ∈ l → is_ok (g x) = true.
Proof.
  revert ys. induction l as [|a l IH]; intros ys H Hx; [by apply elem_of_nil in Hx|].
  simpl in H. destruct (g a) eqn:Ea; simpl in H; [|done].
  destruct (res_mapM g l) eqn:El; simpl in H; [|done].
  apply elem_of_cons in Hx as [->|Hx]; [by rewrite Ea|by eapply IH].
Qed.

Lemma mapM_ok_all {A B} (g : A → Res B) (l : list A) :
  (∀ x, x ∈ l → is_ok (g x) = true) → is_ok (res_mapM g l) = true.
Proof.
  induction l as [|a l IH]; intros H; [done|]. simpl.
  assert (Ha : is_ok (g a) = true) by (apply H; by left).
  destruct (g a); [|done]. simpl.
  assert (Hl : is_ok (res_mapM g l) = true) by (apply IH; intros x Hx; apply H; by right).
  by destruct (res_mapM g l).
Qed.

Lemma flatten_ok_inv g (c : string) l r :
  flatten_column g c = Ok l → r ∈ rows g → is_ok (iter_cell (at_col r (py c))) = true.
Proof.
  unfold flatten_column, mbind, res_mbind. intros H Hr.
  destruct (res_mapM _ (rows g)) eqn:E; [|done].
  by eapply (mapM_ok_inv (fun r => iter_cell (at_col r (py c)))).
Qed.

Lemma dtype_false_cell f c r :
  dtype_is_object f c = false → r ∈ rows f → is_object_cell (at_col r c) = false.
Proof.
  unfold dtype_is_object. intros H Hr.
  destruct (is_object_cell (at_col r c)) eqn:E; [|done].
  assert (existsb (fun r => is_object_cell (at_col r c)) (rows f) = true); [|congruence].
  apply existsb_exists. exists r. split; [by apply list_elem_of_In|done].
Qed.

Lemma compute_unique_values_lists g cat (c : str) r :
  compute_unique_values g = Ok cat → c ∈ list_columns → r ∈ rows g →
  is_ok (iter_cell (at_col r c)) = true.
Proof.
  unfold compute_unique_values, mbind, res_mbind. intros H Hc Hr.
  destruct (column g "profession"); simpl in H; [|done].
  destruct (column g "nationality"); simpl in H; [|done].
  destruct (column g "salary_range"); simpl in H; [|done].
  destruct (column g "hobbies"); simpl in H; [|done].
  destruct (flatten_column g "hobbies") eqn:Eh; simpl in H; [|done].
  destruct (column g "priorities"); simpl in H; [|done].
  destruct (flatten_column g "priorities") eqn:Ep; simpl in H; [|done].
  destruct (column g "constraints"); simpl in H; [|done].
  destruct (flatten_column g "constraints") eqn:Ec; simpl in H; [|done].
  unfold list_columns in Hc. simpl in Hc.
  apply elem_of_cons in Hc as [->|Hc]; [by eapply (flatten_ok_inv g "hobbies")|].
  apply elem_of_cons in Hc as [->|Hc]; [by eapply (flatten_ok_inv g "priorities")|].
  apply elem_of_cons in Hc as [->|Hc]; [by eapply (flatten_ok_inv g "constraints")|].
  by apply elem_of_nil in Hc.
Qed.

Lemma column_ok g (c : string) :
  py c ∈ columns g → column g c = Ok (map (fun r => at_col r (py c)) (rows g)).
Proof. intros H. unfold column, str_in. by rewrite bool_decide_eq_true_2. Qed.

Lemma flatten_ok g (c : string) :
  (∀ r, r ∈ rows g → is_ok (iter_cell (at_col r (py c))) = true) →
  is_ok (flatten_column g c) = true.
Proof.
  intros H. unfold flatten_column, mbind, res_mbind.
  pose proof (mapM_ok_all (fun r => iter_cell (at_col r (py c))) (rows g) H) as Hok.
  by destruct (res_mapM _ (rows g)).
Qed.

Lemma compute_unique_values_ok g :
  required_columns ⊆ columns g →
  (∀ c r, c ∈ list_columns → r ∈ rows g → is_ok (iter_cell (at_col r c)) = true) →
  is_ok (compute_unique_values g) = true.
Proof.
  intros Hcols Hit. unfold compute_unique_values, mbind, res_mbind.
  rewrite !column_ok by (apply Hcols; apply (bool_decide_unpack _); vm_compute; exact I).
  simpl.
  pose proof (flatten_ok g "hobbies") as Hh.
  pose proof (flatten_ok g "priorities") as Hp.
  pose proof (flatten_ok g "constraints") as Hc.
  destruct (flatten_column g "hobbies");
    [|apply Hh; intros; apply Hit; [apply (bool_decide_unpack _); vm_compute; exact I|done]].
  destruct (flatten_column g "priorities");
    [|apply Hp; intros; apply Hit; [apply (bool_decide_unpack _); vm_compute; exact I|done]].
  destruct (flatten_column g "constraints");
    [|apply Hc; intros; apply Hit; [apply (bool_decide_unpack _); vm_compute; exact I|done]].
  done.
Qed.

(** Construction, step by step. *)
Lemma init_spec f w :
  ∃ r w', __init__ (Ok f) w = (r, w') ∧
    if bool_decide (required_columns ⊆ columns f) then
      match compute_unique_values (normalize f) with
      | Ok cat => ∃ self, r = Ok self ∧ selector_state w' self (normalize f) cat
      | Raise e => r = Raise e
      end
    else r = Raise ValueError.
Proof.
  unfold __init__, try_except, mbind, M_bind, bind, lift. unfold alloc at 1.
  set (w1 := mkWorld (heap w ++ [OFrame f]) _ _ _ _ _ _).
  assert (Hf : heap w1 !! length (heap w) = Some (OFrame f)) by apply lookup_alloc.
  case_bool_decide as Hcols.
  2:{ rewrite (prepare_missing _ _ _ Hf Hcols). by eexists _, _. }
  destruct (prepare_spec _ _ _ Hf Hcols) as (w2 & -> & Hh2).
  assert (Hg : heap w2 !! length (heap w) = Some (OFrame (normalize f))).
  { rewrite Hh2. apply list_lookup_insert_eq. by eapply lookup_lt_Some. }
  unfold _cache_unique_values, try_except, mbind, M_bind, bind, lift.
  rewrite (read_frame_at _ _ _ Hg).
  destruct (compute_unique_values (normalize f)) as [cat|e]; simpl.
  - eexists _, _. split; [reflexivity|]. eexists. split; [reflexivity|].
    split_and!; simpl.
    + by rewrite lookup_app_l by (by eapply lookup_lt_Some).
    + apply lookup_alloc.
    + intros x Hx. by apply columns_normalize, Hcols.
  - by eexists _, _.
Qed.

(** C7, as stated, fails: a sheet with every required column and one
    blank age loads, and the loaded record keeps the blank. *)
Lemma load_blank_field_counterexample :
  is_ok (fst (__init__ (Ok Sheet.sheet_blank_age) Sheet.boot)) = true ∧
  map (fun r => at_col r (py "age"))
      (rows (Sheet.frame_at (snd (__init__ (Ok Sheet.sheet_blank_age) Sheet.boot))
                            (df (Sheet.selector_of (__init__ (Ok Sheet.sheet_blank_age) Sheet.boot)))))
  = [CNull; CNum 41].
Proof. split; vm_compute; reflexivity. Qed.

(** C7 (amended): the load fails with an error when a required column is
    missing.  After a successful load the store has every required column and
    as many records as the source; the multi-valued fields of every record are
    lists (the normalised source cell, a blank one giving the empty list), and
    the scalar fields are the source cells unchanged, blank ones included.  A
    source with every required column whose multi-valued columns hold text
    always loads. *)
Theorem load_normalizes_lists f w :
  (¬ required_columns ⊆ columns f → fst (__init__ (Ok f) w) = Raise ValueError) ∧
  (∀ self, fst (__init__ (Ok f) w) = Ok self →
     ∃ g cat,
       selector_state (snd (__init__ (Ok f) w)) self g cat ∧
       length (rows g) = length (rows f) ∧
       ∀ i r', rows g !! i = Some r' →
         ∃ r, rows f !! i = Some r ∧
              (∀ label, label ∈ scalar_columns → at_col r' label = at_col r label) ∧
              (∀ label, label ∈ list_columns →
                 at_col r' label = CList (_convert_string_to_list (at_col r label)))) ∧
  (required_columns ⊆ columns f →
   (∀ col, col ∈ list_columns → dtype_is_object f col = true) →
   is_ok (fst (__init__ (Ok f) w)) = true).
Proof.
  destruct (init_spec f w) as (r & w' & E & H). rewrite E. simpl.
  split_and!.
  - intros Hmiss. by rewrite bool_decide_eq_false_2 in H.
  - intros self ->. case_bool_decide as Hcols; [|done].
    destruct (compute_unique_values (normalize f)) as [cat|e] eqn:Ec; [|done].
    destruct H as (self' & [= <-] & Hs).
    exists (normalize f), cat. split; [done|]. split.
    { unfold normalize. by rewrite !length_convert_if. }
    intros i r' Hr'. destruct (normalize_lookup f i r' Hr') as (r0 & Hr0 & Hsc & Hli).
    exists r0. split_and!; [done..|].
    intros label Hl. rewrite (Hli label Hl).
    destruct (dtype_is_object f label) eqn:Ed; [done|].
    (* a numeric multi-valued column cannot be iterated: the load would have failed *)
    exfalso.
    assert (Hit : is_ok (iter_cell (at_col r' label)) = true).
    { eapply compute_unique_values_lists; [done..|by eapply list_elem_of_lookup_2]. }
    rewrite (Hli label Hl), Ed in Hit.
    assert (Hno : is_object_cell (at_col r0 label) = false).
    { eapply dtype_false_cell; [done|]. by eapply list_elem_of_lookup_2. }
    by destruct (at_col r0 label).
  - intros Hcols Hobj. rewrite bool_decide_eq_true_2 in H by done.
    assert (Hok : is_ok (compute_unique_values (normalize f)) = true).
    { apply compute_unique_values_ok.
      - intros x Hx. by apply columns_normalize, Hcols.
      - intros c r0 Hc Hr0. apply list_elem_of_lookup_1 in Hr0 as [i Hi].
        destruct (normalize_lookup f i r0 Hi) as (r1 & _ & _ & Hli).
        by rewrite (Hli c Hc), (Hobj c Hc). }
    destruct (compute_unique_values (normalize f)); [|done].
    by destruct H as (self & -> & _).
Qed.

Lemma load_normalizes_lists_witness :
  required_columns ⊆ columns Sheet.sheet ∧
  (∀ col, col ∈ list_columns → dtype_is_object Sheet.sheet col = true) ∧
  is_ok (fst (__init__ (Ok Sheet.sheet) Sheet.boot)) = true.
Proof.
  assert (H1 : required_columns ⊆ columns Sheet.sheet) by done.
  assert (H2 : ∀ col, col ∈ list_columns → dtype_is_object Sheet.sheet col = true).
  { intros col Hc. unfold list_columns in Hc. simpl in Hc.
    repeat (apply elem_of_cons in Hc as [->|Hc]; [vm_compute; reflexivity|]).
    by apply elem_of_nil in Hc. }
  split; [exact H1|]. split; [exact H2|].
  exact (proj2 (proj2 (load_normalizes_lists Sheet.sheet Sheet.boot)) H1 H2).
Defined.

Lemma selector_state_extend w w' self f cat :
  selector_state w self f cat → heap w `prefix_of` heap w' → selector_state w' self f cat.
Proof.
  intros (H1 & H2 & H3) Hp. split_and!; [..|done]; by eapply prefix_lookup_Some.
Qed.

Lemma get_unique_values_spec self w f cat :
  selector_state w self f cat →
  ∃ d w', get_unique_values self w = (Ok d, w') ∧
          heap w' = heap w ++ [ODict cat] ∧ d = length (heap w).
Proof.
  intros (_ & Hcat & _). unfold get_unique_values, mbind, M_bind, bind.
  rewrite (read_dict_at _ _ _ Hcat). by eexists _, _.
Qed.

(** C9: on a constructed selector, a selection call (backfill included)
    leaves every object that was allocated before it exactly as it was, in
    particular the loaded store and the cached catalog; [get_unique_values]
    does the same; so two calls of [get_unique_values] in a row, and also a
    call made after a selection, return dicts with the same items as the
    cache. *)
Theorem selector_calls_preserve_store self c n b w f cat :
  selector_state w self f cat →
  (∀ r w', get_selected_personas self c n b w = (r, w') →
     heap w `prefix_of` heap w' ∧ selector_state w' self f cat ∧
     ∃ d w'', get_unique_values self w' = (Ok d, w'') ∧
              heap w'' !! d = Some (ODict cat)) ∧
  (∃ d1 w1 d2 w2,
     get_unique_values self w = (Ok d1, w1) ∧
     get_unique_values self w1 = (Ok d2, w2) ∧
     heap w `prefix_of` heap w1 ∧ heap w1 `prefix_of` heap w2 ∧
     selector_state w2 self f cat ∧
     heap w1 !! d1 = Some (ODict cat) ∧
     heap w2 !! d1 = Some (ODict cat) ∧
     heap w2 !! d2 = Some (ODict cat)).
Proof.
  intros Hs. split.
  - intros r w' E.
    destruct (selection_spec self c n b w f cat Hs) as (r1 & w1 & E1 & Hp & _).
    rewrite E in E1. injection E1 as <- <-.
    assert (Hs' : selector_state w' self f cat) by (by eapply selector_state_extend).
    split_and!; [done..|].
    destruct (get_unique_values_spec self w' f cat Hs') as (d & w2 & -> & Hh & ->).
    eexists _, _. split; [done|]. rewrite Hh. apply lookup_alloc.
  - destruct (get_unique_values_spec self w f cat Hs) as (d1 & w1 & E1 & Hh1 & ->).
    assert (Hp1 : heap w `prefix_of` heap w1) by (rewrite Hh1; by apply prefix_app_r).
    assert (Hs1 : selector_state w1 self f cat) by (by eapply selector_state_extend).
    destruct (get_unique_values_spec self w1 f cat Hs1) as (d2 & w2 & E2 & Hh2 & ->).
    assert (Hp2 : heap w1 `prefix_of` heap w2) by (rewrite Hh2; by apply prefix_app_r).
    exists (length (heap w)), w1, (length (heap w1)), w2.
    assert (Hd1 : heap w1 !! length (heap w) = Some (ODict cat)).
    { rewrite Hh1. apply lookup_alloc. }
    split_and!; [done..|by eapply selector_state_extend|done| |].
    + by eapply prefix_lookup_Some.
    + rewrite Hh2. apply lookup_alloc.
Qed.

Lemma selector_calls_preserve_store_witness :
  selector_state Sheet.world Sheet.self Sheet.store Sheet.catalog ∧
  ∃ d1 w1 d2 w2,
     get_unique_values Sheet.self Sheet.world = (Ok d1, w1) ∧
     get_unique_values Sheet.self w1 = (Ok d2, w2) ∧
     heap Sheet.world `prefix_of` heap w1 ∧ heap w1 `prefix_of` heap w2 ∧
     selector_state w2 Sheet.self Sheet.store Sheet.catalog ∧
     heap w1 !! d1 = Some (ODict Sheet.catalog) ∧
     heap w2 !! d1 = Some (ODict Sheet.catalog) ∧
     heap w2 !! d2 = Some (ODict Sheet.catalog).
Proof.
  split; [exact sheet_state|].
  exact (proj2 (selector_calls_preserve_store Sheet.self Sheet.engineers 3 true
                  Sheet.world Sheet.store Sheet.catalog sheet_state)).
Defined.

(** ** The summary parsing path *)
Import Json Summarizer JsonSpec.

Section ParseWithFloat.
Context `{PyFloat}.

Lemma dict_get_is_Some (d : list (str * pyval)) k :
  is_Some (dict_get d k) ↔ k ∈ map fst d.
Proof.
  induction d as [|[k' v'] d IH]; simpl.
  - split; [by intros [? ?]|by intros ?%elem_of_nil].
  - unfold str_eqb. case_bool_decide as Hk.
    + subst. split; [intros _; by left|by eexists].
    + rewrite IH, elem_of_cons. split; [tauto|]. intros [->|?]; [done|tauto].
Qed.

Lemma keys_allowed (d : list (str * pyval)) :
  forallb (fun kv => str_in (fst kv) field_names) d = true ↔
  ∀ k, k ∈ map fst d → k ∈ field_names.
Proof.
  induction d as [|[k' v'] d IH]; simpl.
  - split; [by intros _ k ?%elem_of_nil|done].
  - rewrite andb_true_iff, IH. unfold str_in. rewrite bool_decide_eq_true. split.
    + intros [H1 H2] k [->|Hk]%elem_of_cons; [done|by apply H2].
    + intros Hall. split; [apply Hall; by left|]. intros k Hk. apply Hall. by right.
Qed.

Lemma from_kwargs_mismatch d : ¬ schema_match d → from_kwargs d = Raise TypeError.
Proof.
  intros Hno. unfold from_kwargs.
  destruct (forallb _ d) eqn:Ekeys; [|done].
  pose proof (proj1 (keys_allowed d) Ekeys) as Hkeys.
  destruct (dict_get d (py "overall_sentiment")) eqn:E1; [|done].
  destruct (dict_get d (py "purchase_intent_percentage")) eqn:E2; [|done].
  destruct (dict_get d (py "confidence_score")) eqn:E3; [|done].
  destruct (dict_get d (py "key_strengths")) eqn:E4; [|done].
  destruct (dict_get d (py "key_concerns")) eqn:E5; [|done].
  destruct (dict_get d (py "demographic_insights")) eqn:E6; [|done].
  destruct (dict_get d (py "common_themes")) eqn:E7; [|done].
  destruct (dict_get d (py "recommendation")) eqn:E8; [|done].
  destruct (dict_get d (py "detailed_summary")) eqn:E9; [|done].
  destruct Hno. intros k. split; [apply Hkeys|].
  unfold field_names. simpl. intros Hk.
  repeat (apply elem_of_cons in Hk as [->|Hk]; [apply dict_get_is_Some; by eexists|]).
  by apply elem_of_nil in Hk.
Qed.

(** *** Which texts decode to a dict *)

Lemma finish_number_scalar neg ds s v rest :
  finish_number neg ds s = Ok (v, rest) → ∀ d, v ≠ PDict d.
Proof.
  unfold finish_number. destruct (scan_frac s) as [frac r1]. destruct (scan_exp r1) as [exp r2].
  destruct frac, exp; try (by intros [= <- <-]).
  destruct (_ <? _)%nat; [done|]. by intros [= <- <-].
Qed.

Lemma match_number_scalar s v rest : match_number s = Ok (v, rest) → ∀ d, v ≠ PDict d.
Proof.
  unfold match_number.
  destruct (match s with [] => _ | c :: r => _ end) as [neg s1].
  destruct s1 as [|c r]; [done|].
  destruct (c =? ch "0")%N; [apply finish_number_scalar|].
  destruct (is_digit c); [|done].
  destruct (span_digits r). apply finish_number_scalar.
Qed.

Lemma scan_scalar_scalar s v rest : scan_scalar s = Ok (v, rest) → ∀ d, v ≠ PDict d.
Proof.
  unfold scan_scalar.
  repeat (destruct (strip_prefix _ s); [by intros [= <- <-]|]).
  apply match_number_scalar.
Qed.

Lemma elements_list n values s v rest :
  elements n values s = Some (Ok (v, rest)) → ∃ l, v = PList l.
Proof.
  revert values s. induction n as [|n IH]; intros values s; simpl; [done|].
  unfold step_element. destruct (scan_once n s) as [[[x r1]|e]|]; try done.
  destruct (skip_ws r1) as [|d r2]; [done|].
  destruct (d =? ch "]")%N; [intros [= <- <-]; by eexists|].
  destruct (d =? ch ",")%N; [apply IH|done].
Qed.

(** Only a text that starts with an opening brace decodes to a dict. *)
Lemma scan_once_dict n s d rest :
  scan_once n s = Some (Ok (PDict d, rest)) → ∃ r, s = ch "{" :: r.
Proof.
  destruct n as [|n]; simpl; [done|]. unfold step_value.
  destruct s as [|c r]; [done|].
  destruct (c =? DQUOTE)%N.
  { destruct (scanstring r) as [[k r']|]; done. }
  destruct (N.eqb_spec c (ch "{")) as [->|Hc]; [by eexists|].
  destruct (c =? ch "[")%N.
  { unfold open_array. intros Harr.
    destruct (skip_ws r) as [|c' r'].
    - by apply elements_list in Harr as [l ?].
    - destruct (c' =? ch "]")%N; [done|]. by apply elements_list in Harr as [l ?]. }
  intros [= Hs]. by apply scan_scalar_scalar with (d := d) in Hs.
Qed.

Lemma raw_decode_dict s d rest : raw_decode s = Ok (PDict d, rest) → ∃ r, s = ch "{" :: r.
Proof.
  unfold raw_decode. destruct (scan_once _ s) as [r|] eqn:E; [|done].
  intros ->. by eapply scan_once_dict.
Qed.

Lemma find_from_none c s i : 0 ≤ i → find_from c s i = -1 → Forall (fun x => x ≠ c) s.
Proof.
  revert i. induction s as [|x s IH]; intros i Hi; simpl; [done|].
  destruct (N.eqb_spec x c); [lia|]. intros Hf. constructor; [done|].
  apply (IH (i + 1)); [lia|done].
Qed.

Lemma no_brace_no_dict json_str d rest :
  find (ch "{") json_str = -1 → raw_decode (json_string json_str) ≠ Ok (PDict d, rest).
Proof.
  intros Hfind Hraw. apply raw_decode_dict in Hraw as [r Hr].
  apply (find_from_none _ _ 0) in Hfind as Hall; [|done].
  unfold json_string in Hr. rewrite Hfind in Hr. unfold slice_from in Hr.
  assert (Hin : ch "{" ∈ json_str).
  { eapply subseteq_drop. rewrite Hr. by left. }
  rewrite Forall_forall in Hall. by apply (Hall _ Hin).
Qed.

(** *** The runs of [from_json] *)

Lemma from_json_parse_fails json_str w e :
  parse json_str = Raise e → ∃ w', from_json json_str w = (Ok fallback, w').
Proof.
  intros Hp. unfold from_json, try_except, bind, print, lift, logger. rewrite Hp.
  destruct (stdout_faults w) as [|[e'|] t]; simpl;
    repeat match goal with |- context [if ?b then _ else _] => destruct b end;
    by eexists.
Qed.

Lemma from_json_parse_ok json_str w r :
  stdout_writable w → parse json_str = Ok r → ∃ w', from_json json_str w = (Ok r, w').
Proof.
  intros Hw Hp. unfold from_json, try_except, bind, print, lift. rewrite Hp.
  unfold stdout_writable in Hw.
  destruct (stdout_faults w) as [|[e'|] t]; simpl; try done; by eexists.
Qed.

Lemma from_json_never_raises json_str w : ∃ r w', from_json json_str w = (Ok r, w').
Proof.
  unfold from_json, try_except, bind, print, lift, logger.
  destruct (parse json_str) as [r|e];
    destruct (stdout_faults w) as [|[e'|] t]; simpl;
    repeat match goal with |- context [if ?b then _ else _] => destruct b end;
    by eexists _, _.
Qed.

Lemma parse_fails_cases json_str :
  find (ch "{") json_str = -1
  ∨ is_ok (raw_decode (json_string json_str)) = false
  ∨ (∃ v rest, raw_decode (json_string json_str) = Ok (v, rest) ∧ ∀ d, v ≠ PDict d)
  ∨ (∃ d rest, raw_decode (json_string json_str) = Ok (PDict d, rest) ∧ ¬ schema_match d) →
  ∃ e, parse json_str = Raise e.
Proof.
  unfold parse. fold (json_string json_str).
  intros [Hfind|[Hdec|[(v & rest & Hraw & Hv)|(d & rest & Hraw & Hs)]]].
  - destruct (raw_decode (json_string json_str)) as [[v rest]|e] eqn:E; [|by eexists].
    destruct v; try by eexists. by apply no_brace_no_dict in E.
  - destruct (raw_decode (json_string json_str)) as [[v rest]|e]; [done|by eexists].
  - rewrite Hraw. destruct v; try by eexists. by destruct (Hv d).
  - rewrite Hraw. rewrite from_kwargs_mismatch by done. by eexists.
Qed.

(** C5: [from_json] never raises.  When the text has no opening brace, or
    no JSON value can be decoded from its first opening brace on, or the
    decoded value is not an object, or the keys of the decoded object are not
    exactly the nine field names, it returns the fallback summary: sentiment
    [Neutral], both scores [0.0], and the [Unable to ...] sentinel strings.
    The refusal [I cannot help with that.] is such a text. *)
Theorem from_json_fallback json_str w :
  (∃ r w', from_json json_str w = (Ok r, w')) ∧
  (find (ch "{") json_str = -1
   ∨ is_ok (raw_decode (json_string json_str)) = false
   ∨ (∃ v rest, raw_decode (json_string json_str) = Ok (v, rest) ∧ ∀ d, v ≠ PDict d)
   ∨ (∃ d rest, raw_decode (json_string json_str) = Ok (PDict d, rest) ∧ ¬ schema_match d) →
   ∃ w', from_json json_str w = (Ok fallback, w')) ∧
  (∃ w', from_json (py "I cannot help with that.") w = (Ok fallback, w')) ∧
  overall_sentiment fallback = PStr (py "Neutral") ∧
  purchase_intent_percentage fallback = PFloat (float_of_str (py "0.0")) ∧
  confidence_score fallback = PFloat (float_of_str (py "0.0")) ∧
  key_strengths fallback = PList [PStr (py "Unable to parse review")] ∧
  key_concerns fallback = PList [PStr (py "Unable to parse review")] ∧
  demographic_insights fallback = PDict [(py "error", PStr (py "Unable to parse review"))] ∧
  common_themes fallback = PList [PStr (py "Unable to parse review")] ∧
  recommendation fallback
    = PStr (py "Unable to generate recommendation due to parsing error") ∧
  detailed_summary fallback = PStr (py "Unable to generate summary due to parsing error").
Proof.
  split; [apply from_json_never_raises|]. split.
  { intros Hcase. destruct (parse_fails_cases json_str Hcase) as [e He].
    by eapply from_json_parse_fails. }
  split; [|by repeat split].
  destruct (parse_fails_cases (py "I cannot help with that.")) as [e He].
  { left. reflexivity. }
  by eapply from_json_parse_fails.
Qed.

(** C10: a text that decodes to an object with all nine fields and at
    least one further key yields the fallback summary; the extra key is not
    ignored. *)
Theorem from_json_extra_key json_str w d rest :
  raw_decode (json_string json_str) = Ok (PDict d, rest) →
  has_extra_key d →
  ∃ w', from_json json_str w = (Ok fallback, w').
Proof.
  intros Hraw [_ (k & Hk & Hnot)].
  destruct (parse_fails_cases json_str) as [e He].
  { right. right. right. exists d, rest. split; [done|].
    intros Hs. apply Hnot, Hs, Hk. }
  by eapply from_json_parse_fails.
Qed.

End ParseWithFloat.

Lemma from_json_extra_key_witness :
  raw_decode (json_string Replies.with_extra_key) = Ok (PDict Replies.annotated, []) ∧
  has_extra_key Replies.annotated ∧
  ∃ w', @from_json integral_floats Replies.with_extra_key Sheet.boot = (Ok fallback, w').
Proof.
  assert (Hraw : raw_decode (json_string Replies.with_extra_key)
                 = Ok (PDict Replies.annotated, [])) by (vm_compute; reflexivity).
  assert (Hextra : has_extra_key Replies.annotated).
  { split.
    - apply Forall_forall. by apply (bool_decide_unpack _).
    - exists (py "note"). split; by apply (bool_decide_unpack _). }
  split; [exact Hraw|]. split; [exact Hextra|].
  exact (@from_json_extra_key integral_floats Replies.with_extra_key Sheet.boot
           Replies.annotated [] Hraw Hextra).
Defined.

Lemma from_json_fallback_witness :
  find (ch "{") Replies.refusal = -1 ∧
  ∃ w', @from_json integral_floats Replies.refusal Sheet.boot = (Ok fallback, w').
Proof.
  split; [reflexivity|].
  apply (proj1 (proj2 (@from_json_fallback integral_floats Replies.refusal Sheet.boot))).
  left. reflexivity.
Defined.

(** ** The scanner's fuel *)
Section FuelWithFloat.
Context `{PyFloat}.

(** More fuel never changes a result. *)
Lemma step_value_mono (po po' pa pa' : str → option (Res (pyval * str))) s r :
  (∀ s r, po s = Some r → po' s = Some r) →
  (∀ s r, pa s = Some r → pa' s = Some r) →
  step_value po pa s = Some r → step_value po' pa' s = Some r.
Proof.
  intros Ho Ha. unfold step_value. destruct s as [|c t]; [done|].
  destruct (c =? DQUOTE)%N; [done|].
  destruct (c =? ch "{")%N; [apply Ho|].
  destruct (c =? ch "[")%N; [apply Ha|done].
Qed.

Lemma open_object_mono (m m' : list (str * pyval) → str → option (Res (pyval * str))) s r :
  (∀ p s r, m p s = Some r → m' p s = Some r) →
  open_object m s = Some r → open_object m' s = Some r.
Proof.
  intros Hm. unfold open_object. destruct s as [|c t]; [apply Hm|].
  destruct (c =? ch "}")%N; [done|apply Hm].
Qed.

Lemma open_array_mono (m m' : list pyval → str → option (Res (pyval * str))) s r :
  (∀ p s r, m p s = Some r → m' p s = Some r) →
  open_array m s = Some r → open_array m' s = Some r.
Proof.
  intros Hm. unfold open_array. destruct s as [|c t]; [apply Hm|].
  destruct (c =? ch "]")%N; [done|apply Hm].
Qed.

Lemma step_member_mono (sc sc' : str → option (Res (pyval * str)))
    (m m' : list (str * pyval) → str → option (Res (pyval * str))) p s r :
  (∀ s r, sc s = Some r → sc' s = Some r) →
  (∀ p s r, m p s = Some r → m' p s = Some r) →
  step_member sc m p s = Some r → step_member sc' m' p s = Some r.
Proof.
  intros Hs Hm. unfold step_member. destruct s as [|c t]; [done|].
  destruct (c =? DQUOTE)%N; [|done].
  destruct (scanstring t) as [[key r1]|e]; [|done].
  destruct (skip_ws r1) as [|colon r2]; [done|].
  destruct (colon =? ch ":")%N; [|done].
  destruct (sc (skip_ws r2)) as [res|] eqn:E; [|done].
  rewrite (Hs _ _ E). destruct res as [[value r3]|e]; [|done].
  destruct (skip_ws r3) as [|d r4]; [done|].
  destruct (d =? ch "}")%N; [done|].
  destruct (d =? ch ",")%N; [apply Hm|done].
Qed.

Lemma step_element_mono (sc sc' : str → option (Res (pyval * str)))
    (m m' : list pyval → str → option (Res (pyval * str))) p s r :
  (∀ s r, sc s = Some r → sc' s = Some r) →
  (∀ p s r, m p s = Some r → m' p s = Some r) →
  step_element sc m p s = Some r → step_element sc' m' p s = Some r.
Proof.
  intros Hs Hm. unfold step_element.
  destruct (sc s) as [res|] eqn:E; [|done].
  rewrite (Hs _ _ E). destruct res as [[value r1]|e]; [|done].
  destruct (skip_ws r1) as [|d r2]; [done|].
  destruct (d =? ch "]")%N; [done|].
  destruct (d =? ch ",")%N; [apply Hm|done].
Qed.

Lemma scan_mono_step n :
  (∀ s r, scan_once n s = Some r → scan_once (S n) s = Some r) ∧
  (∀ p s r, members n p s = Some r → members (S n) p s = Some r) ∧
  (∀ v s r, elements n v s = Some r → elements (S n) v s = Some r).
Proof.
  induction n as [|n (IHs & IHm & IHe)]; [by split_and!|].
  split_and!.
  - intros s r. cbn [scan_once].
    apply step_value_mono; intros s' r'.
    + by apply open_object_mono.
    + by apply open_array_mono.
  - intros p s r. cbn [members]. by apply step_member_mono.
  - intros v s r. cbn [elements]. by apply step_element_mono.
Qed.

Lemma scan_once_mono n m s r : (n ≤ m)%nat → scan_once n s = Some r → scan_once m s = Some r.
Proof.
  induction 1 as [|m _ IH]; [done|]. intros Hn. by apply scan_mono_step, IH.
Qed.

Lemma members_mono n m p s r : (n ≤ m)%nat → members n p s = Some r → members m p s = Some r.
Proof.
  induction 1 as [|m _ IH]; [done|]. intros Hn. by apply scan_mono_step, IH.
Qed.

Lemma elements_mono n m v s r :
  (n ≤ m)%nat → elements n v s = Some r → elements m v s = Some r.
Proof.
  induction 1 as [|m _ IH]; [done|]. intros Hn. by apply scan_mono_step, IH.
Qed.

(** *** Every token consumes input *)

Lemma skip_ws_length s : (length (skip_ws s) ≤ length s)%nat.
Proof.
  induction s as [|c s IH]; simpl; [done|]. destruct (is_ws c); simpl; lia.
Qed.

Lemma cons_char_length c r cs rest (s : str) :
  cons_char c r = Ok (cs, rest) → ∃ cs', r = Ok (cs', rest).
Proof. destruct r as [[cs' rest']|e]; [|done]. intros [= <- <-]. by eexists. Qed.

Lemma scanstring_shorter s k rest :
  scanstring s = Ok (k, rest) → (length rest < length s)%nat.
Proof.
  remember (length s) as n eqn:Hn. revert s k rest Hn.
  induction n as [n IH] using lt_wf_ind. intros s k rest -> Hs.
  destruct s as [|c r]; [done|]. simpl in Hs.
  destruct (c =? DQUOTE)%N; [injection Hs as <- <-; simpl; lia|].
  destruct (c =? BACKSLASH)%N.
  - destruct r as [|e r1]; [done|].
    destruct (e =? ch "u")%N.
    + destruct r1 as [|h1 [|h2 [|h3 [|h4 r2]]]]; try done.
      destruct (hex4 h1 h2 h3 h4) as [uni|]; [|done].
      assert (Hplain : ∀ k', cons_char uni (scanstring r2) = Ok (k', rest) →
                            (length rest < length (c :: e :: h1 :: h2 :: h3 :: h4 :: r2))%nat).
      { intros k' Hc. apply (cons_char_length _ _ _ _ r2) in Hc as [cs' Hc].
        apply (IH (length r2)) in Hc; simpl; [lia|lia|done]. }
      destruct (is_high_surrogate uni); [|by eapply Hplain].
      destruct r2 as [|b [|u [|k1 [|k2 [|k3 [|k4 r3]]]]]]; try by eapply Hplain.
      destruct ((b =? BACKSLASH)%N && (u =? ch "u")%N); [|by eapply Hplain].
      destruct (hex4 k1 k2 k3 k4) as [uni2|]; [|done].
      destruct (is_low_surrogate uni2); [|by eapply Hplain].
      apply (cons_char_length _ _ _ _ r3) in Hs as [cs' Hc].
      apply (IH (length r3)) in Hc; simpl; [lia|lia|done].
    + destruct (unescape e) as [c'|]; [|done].
      apply (cons_char_length _ _ _ _ r1) in Hs as [cs' Hc].
      apply (IH (length r1)) in Hc; simpl; [lia|lia|done].
  - destruct (c <=? 31)%N; [done|].
    apply (cons_char_length _ _ _ _ r) in Hs as [cs' Hc].
    apply (IH (length r)) in Hc; simpl; [lia|lia|done].
Qed.

Lemma span_digits_length s : (length (snd (span_digits s)) ≤ length s)%nat.
Proof.
  induction s as [|c s IH]; simpl; [done|].
  destruct (is_digit c); [|simpl; lia].
  destruct (span_digits s); simpl in *. lia.
Qed.

Lemma scan_frac_length s : (length (snd (scan_frac s)) ≤ length s)%nat.
Proof.
  unfold scan_frac. destruct s as [|dot [|d r]]; simpl; try lia.
  destruct ((dot =? ch ".")%N && is_digit d); [|simpl; lia].
  pose proof (span_digits_length r). destruct (span_digits r); simpl in *. lia.
Qed.

Lemma scan_exp_length s : (length (snd (scan_exp s)) ≤ length s)%nat.
Proof.
  unfold scan_exp. destruct s as [|e r]; simpl; [lia|].
  destruct ((e =? ch "e")%N || (e =? ch "E")%N); [|simpl; lia].
  destruct r as [|sg t].
  - simpl. lia.
  - destruct ((sg =? ch "-")%N || (sg =? ch "+")%N).
    + pose proof (span_digits_length t). destruct (span_digits t) as [[|d ds] rest];
        simpl in *; lia.
    + pose proof (span_digits_length (sg :: t)).
      destruct (span_digits (sg :: t)) as [[|d ds] rest]; simpl in *; lia.
Qed.

Lemma finish_number_length neg ds s v rest :
  finish_number neg ds s = Ok (v, rest) → (length rest ≤ length s)%nat.
Proof.
  unfold finish_number.
  pose proof (scan_frac_length s). destruct (scan_frac s) as [frac r1].
  pose proof (scan_exp_length r1). destruct (scan_exp r1) as [exp r2]. simpl in *.
  destruct frac, exp; try (intros [= <- <-]; lia).
  destruct (_ <? _)%nat; [done|]. intros [= <- <-]. lia.
Qed.

Lemma match_number_shorter s v rest :
  match_number s = Ok (v, rest) → (length rest < length s)%nat.
Proof.
  unfold match_number. destruct s as [|c r]; [done|].
  destruct (c =? ch "-")%N.
  - destruct r as [|c' r']; [done|].
    destruct (c' =? ch "0")%N.
    { intros Hf%finish_number_length. simpl. lia. }
    destruct (is_digit c'); [|done].
    pose proof (span_digits_length r'). destruct (span_digits r') as [ds rest'].
    intros Hf%finish_number_length. simpl in *. lia.
  - destruct (c =? ch "0")%N.
    { intros Hf%finish_number_length. simpl. lia. }
    destruct (is_digit c); [|done].
    pose proof (span_digits_length r). destruct (span_digits r) as [ds rest'].
    intros Hf%finish_number_length. simpl in *. lia.
Qed.

Lemma strip_prefix_length p s r : strip_prefix p s = Some r → length s = (length p + length r)%nat.
Proof.
  revert s. induction p as [|a p IH]; intros s; simpl; [by intros [= ->]|].
  destruct s as [|b s]; [done|]. destruct (a =? b)%N; [|done].
  intros Hr%IH. simpl. lia.
Qed.

Lemma scan_scalar_shorter s v rest :
  scan_scalar s = Ok (v, rest) → (length rest < length s)%nat.
Proof.
  unfold scan_scalar.
  repeat (destruct (strip_prefix _ s) as [r|] eqn:E;
          [intros [= <- <-]; apply strip_prefix_length in E; simpl in E; lia|clear E]).
  apply match_number_shorter.
Qed.

(** With fuel above twice the length of the text, the scanner never runs
    out of it. *)
Lemma scan_enough n :
  (∀ s, (2 * length s < n)%nat → ∃ r, scan_once n s = Some r ∧ shorter r s) ∧
  (∀ p s, (2 * length s < n)%nat → ∃ r, members n p s = Some r ∧ shorter r s) ∧
  (∀ v s, (2 * length s + 1 < n)%nat → ∃ r, elements n v s = Some r ∧ shorter r s).
Proof.
  induction n as [|n (IHs & IHm & IHe)]; [split_and!; intros; lia|].
  split_and!.
  - intros s Hn. cbn [scan_once]. unfold step_value.
    destruct s as [|c r]; [by eexists|]. simpl in Hn.
    destruct (c =? DQUOTE)%N.
    { destruct (scanstring r) as [[k rest]|e] eqn:E; eexists; split; try done.
      apply scanstring_shorter in E. simpl. lia. }
    pose proof (skip_ws_length r) as Hws.
    destruct (c =? ch "{")%N.
    { unfold open_object. destruct (skip_ws r) as [|c' r'] eqn:Er.
      - destruct (IHm [] []) as (res & -> & Hres); [simpl; lia|].
        exists res. split; [done|]. destruct res as [[? ?]|]; simpl in *; lia.
      - destruct (c' =? ch "}")%N.
        + eexists. split; [done|]. simpl in *. lia.
        + destruct (IHm [] (c' :: r')) as (res & -> & Hres); [simpl in *; lia|].
          exists res. split; [done|]. destruct res as [[? ?]|]; simpl in *; lia. }
    destruct (c =? ch "[")%N.
    { unfold open_array. destruct (skip_ws r) as [|c' r'] eqn:Er.
      - destruct (IHe [] []) as (res & -> & Hres); [simpl; lia|].
        exists res. split; [done|]. destruct res as [[? ?]|]; simpl in *; lia.
      - destruct (c' =? ch "]")%N.
        + eexists. split; [done|]. simpl in *. lia.
        + destruct (IHe [] (c' :: r')) as (res & -> & Hres); [simpl in *; lia|].
          exists res. split; [done|]. destruct res as [[? ?]|]; simpl in *; lia. }
    destruct (scan_scalar (c :: r)) as [[v rest]|e] eqn:E; eexists; split; try done.
    by apply scan_scalar_shorter in E.
  - intros p s Hn. cbn [members]. unfold step_member.
    destruct s as [|c r]; [by eexists|]. simpl in Hn.
    destruct (c =? DQUOTE)%N; [|by eexists].
    destruct (scanstring r) as [[key r1]|e] eqn:E; [|by eexists].
    apply scanstring_shorter in E.
    pose proof (skip_ws_length r1) as Hws1.
    destruct (skip_ws r1) as [|colon r2] eqn:E1; [by eexists|].
    destruct (colon =? ch ":")%N; [|by eexists].
    pose proof (skip_ws_length r2) as Hws2. simpl in Hws1.
    destruct (IHs (skip_ws r2)) as (res & -> & Hres); [lia|].
    destruct res as [[value r3]|e]; [|by eexists]. simpl in Hres.
    pose proof (skip_ws_length r3) as Hws3.
    destruct (skip_ws r3) as [|d r4] eqn:E3; [by eexists|]. simpl in Hws3.
    destruct (d =? ch "}")%N; [eexists; split; [done|]; simpl; lia|].
    destruct (d =? ch ",")%N; [|by eexists].
    pose proof (skip_ws_length r4) as Hws4.
    destruct (IHm (dict_set p key value) (skip_ws r4)) as (res & -> & Hres'); [lia|].
    exists res. split; [done|]. destruct res as [[? ?]|]; simpl in *; lia.
  - intros v s Hn. cbn [elements]. unfold step_element.
    destruct (IHs s) as (res & -> & Hres); [lia|].
    destruct res as [[value r1]|e]; [|by eexists]. simpl in Hres.
    pose proof (skip_ws_length r1) as Hws1.
    destruct (skip_ws r1) as [|d r2] eqn:E1; [by eexists|]. simpl in Hws1.
    destruct (d =? ch "]")%N; [eexists; split; [done|]; simpl; lia|].
    destruct (d =? ch ",")%N; [|by eexists].
    pose proof (skip_ws_length r2) as Hws2.
    destruct (IHe (v ++ [value]) (skip_ws r2)) as (res & -> & Hres'); [lia|].
    exists res. split; [done|]. destruct res as [[? ?]|]; simpl in *; lia.
Qed.

(** [raw_decode] returns what the scanner returns with any sufficient fuel. *)
Theorem scan_once_enough s : ∃ r, scan_once (S (2 * length s)) s = Some r ∧ raw_decode s = r.
Proof.
  destruct (proj1 (scan_enough (S (2 * length s))) s) as (r & E & _); [lia|].
  exists r. split; [done|]. unfold raw_decode. by rewrite E.
Qed.

Lemma raw_decode_scans s r : scans s r → raw_decode s = r.
Proof.
  intros [n Hn]. destruct (scan_once_enough s) as (r' & E & ->).
  destruct (Nat.le_ge_cases n (S (2 * length s))) as [Hle|Hge].
  - apply (scan_once_mono _ _ _ _ Hle) in Hn. congruence.
  - apply (scan_once_mono _ _ _ _ Hge) in E. congruence.
Qed.

End FuelWithFloat.

(** ** Strings survive the encoder and the scanner *)

Lemma hex_value_digit d : (d < 16)%N → hex_value (hex_digit d) = Some d.
Proof.
  intros Hd.
  assert (d = 0 ∨ d = 1 ∨ d = 2 ∨ d = 3 ∨ d = 4 ∨ d = 5 ∨ d = 6 ∨ d = 7 ∨ d = 8 ∨ d = 9 ∨
          d = 10 ∨ d = 11 ∨ d = 12 ∨ d = 13 ∨ d = 14 ∨ d = 15)%N as Hcases by lia.
  repeat (destruct Hcases as [->|Hcases]; [reflexivity|]). by subst.
Qed.

Lemma hex4_escape n :
  (n < 65536)%N →
  hex4 (hex_digit (n / 4096 mod 16)) (hex_digit (n / 256 mod 16))
       (hex_digit (n / 16 mod 16)) (hex_digit (n mod 16)) = Some n.
Proof.
  intros Hn. unfold hex4.
  rewrite !hex_value_digit by (by apply N.mod_upper_bound).
  f_equal.
  assert (H1 := N.div_mod n 16 ltac:(done)).
  assert (H2 := N.div_mod (n / 16) 16 ltac:(done)).
  assert (H3 := N.div_mod (n / 16 / 16) 16 ltac:(done)).
  rewrite !N.Div0.div_div in *.
  change (16 * 16)%N with 256%N in *. change (256 * 16)%N with 4096%N in *.
  assert (H0 : (n / 4096 < 16)%N) by (by apply N.Div0.div_lt_upper_bound).
  rewrite (N.mod_small (n / 4096) 16) by done.
  assert (H4 := N.mod_upper_bound n 16 ltac:(done)).
  assert (H5 := N.mod_upper_bound (n / 16) 16 ltac:(done)).
  assert (H6 := N.mod_upper_bound (n / 256) 16 ltac:(done)).
  generalize dependent (n mod 16)%N. generalize dependent (n / 16 mod 16)%N.
  generalize dependent (n / 256 mod 16)%N. generalize dependent (n / 4096)%N.
  generalize dependent (n / 256)%N. generalize dependent (n / 16)%N.
  intros. lia.
Qed.

Lemma lor_low_bits a y :
  N.land a 1023 = 0%N → N.lor a (N.land y 1023) = (a + y mod 1024)%N.
Proof.
  intros Ha.
  assert (Hdisj : N.land a (N.land y 1023) = 0%N).
  { rewrite (N.land_comm y), N.land_assoc, Ha. apply N.land_0_l. }
  rewrite <- N.lxor_lor by done. rewrite <- N.add_nocarry_lxor by done.
  f_equal. change 1023%N with (N.ones 10). by rewrite N.land_ones.
Qed.

(** A code point beyond the basic plane is written as a surrogate pair and
    read back from it. *)
Lemma surrogate_split c :
  (65536 ≤ c < 1114112)%N →
  let n := (c - 65536)%N in
  let s1 := N.lor 55296 (N.land (N.shiftr n 10) 1023) in
  let s2 := N.lor 56320 (N.land n 1023) in
  (s1 < 65536)%N ∧ (s2 < 65536)%N ∧
  is_high_surrogate s1 = true ∧ is_low_surrogate s2 = true ∧
  join_surrogates s1 s2 = c.
Proof.
  intros Hc n s1 s2.
  assert (Hs1 : s1 = (55296 + (n / 1024) mod 1024)%N).
  { unfold s1. rewrite lor_low_bits by reflexivity. by rewrite N.shiftr_div_pow2. }
  assert (Hs2 : s2 = (56320 + n mod 1024)%N).
  { unfold s2. by rewrite lor_low_bits by reflexivity. }
  assert (Hn : (n < 1048576)%N) by (unfold n; lia).
  assert (Hnc : (n + 65536 = c)%N) by (unfold n; lia).
  clearbody s1 s2 n.
  assert (B1 : (n / 1024 < 1024)%N) by (by apply N.Div0.div_lt_upper_bound).
  assert (B2 : (n mod 1024 < 1024)%N) by (by apply N.mod_upper_bound).
  rewrite (N.mod_small (n / 1024) 1024) in Hs1 by done.
  pose proof (N.div_mod n 1024 ltac:(done)) as Hdm.
  assert (Hm1 : ((n / 1024 + 54 * 1024) mod 1024 = n / 1024)%N).
  { rewrite N.Div0.mod_add. by apply N.mod_small. }
  assert (Hm2 : ((n mod 1024 + 55 * 1024) mod 1024 = n mod 1024)%N).
  { rewrite N.Div0.mod_add. by apply N.Div0.mod_mod. }
  assert (Hm3 : ((n / 1024 * 1024) mod 1024 = 0)%N) by apply N.Div0.mod_mul.
  set (q := (n / 1024)%N) in *. set (r := (n mod 1024)%N) in *.
  clearbody q r.
  split_and!.
  - lia.
  - lia.
  - unfold is_high_surrogate. apply andb_true_iff. split; apply N.leb_le; lia.
  - unfold is_low_surrogate. apply andb_true_iff. split; apply N.leb_le; lia.
  - unfold join_surrogates.
    assert (N.land s1 1023 = q)%N as ->.
    { change 1023%N with (N.ones 10). rewrite N.land_ones, Hs1.
      change (2 ^ 10)%N with 1024%N.
      by replace (55296 + q)%N with (q + 54 * 1024)%N by lia. }
    rewrite N.shiftl_mul_pow2. change (2 ^ 10)%N with 1024%N.
    rewrite lor_low_bits.
    + rewrite Hs2.
      replace (56320 + r)%N with (r + 55 * 1024)%N by lia.
      rewrite Hm2. lia.
    + change 1023%N with (N.ones 10). rewrite N.land_ones.
      by change (2 ^ 10)%N with 1024%N.
Qed.

Lemma scanstring_escape_u uni r :
  (uni < 65536)%N →
  (is_high_surrogate uni = true → no_low_escape r) →
  scanstring (escape_u uni ++ r) = cons_char uni (scanstring r).
Proof.
  intros Hu Hr. unfold escape_u.
  change (scanstring ([?x0; ?x1; ?h1; ?h2; ?h3; ?h4] ++ r))
    with (match hex4 h1 h2 h3 h4 with
          | None => Raise JSONDecodeError
          | Some uni =>
              if is_high_surrogate uni then
                match r with
                | b :: u :: k1 :: k2 :: k3 :: k4 :: r3 =>
                    if (b =? BACKSLASH)%N && (u =? ch "u")%N then
                      match hex4 k1 k2 k3 k4 with
                      | None => Raise JSONDecodeError
                      | Some uni2 =>
                          if is_low_surrogate uni2
                          then cons_char (join_surrogates uni uni2) (scanstring r3)
                          else cons_char uni (scanstring r)
                      end
                    else cons_char uni (scanstring r)
                | _ => cons_char uni (scanstring r)
                end
              else cons_char uni (scanstring r)
          end).
  rewrite hex4_escape by done.
  destruct (is_high_surrogate uni); [|done].
  destruct r as [|b [|u [|k1 [|k2 [|k3 [|k4 r3]]]]]]; try done.
  destruct (b =? BACKSLASH)%N eqn:Eb; [|done].
  destruct (u =? ch "u")%N eqn:Eu; [|done].
  apply N.eqb_eq in Eb, Eu. subst b u.
  destruct (Hr eq_refl _ _ _ _ _ eq_refl) as (uni2 & -> & ->). done.
Qed.

Lemma high_not_low c : is_high_surrogate c = true → is_low_surrogate c = false.
Proof.
  unfold is_high_surrogate, is_low_surrogate.
  intros [H1 H2]%andb_true_iff. apply N.leb_le in H1, H2.
  apply andb_false_iff. left. apply N.leb_gt. lia.
Qed.

(** One character: the scanner reads back what the encoder wrote for it. *)
Lemma scanstring_escape_char c r :
  (c < 1114112)%N →
  (is_high_surrogate c = true → no_low_escape r) →
  scanstring (escape_char c ++ r) = cons_char c (scanstring r).
Proof.
  intros Hc Hr. unfold escape_char.
  destruct (c =? DQUOTE)%N eqn:E1; [apply N.eqb_eq in E1 as ->; done|].
  destruct (c =? BACKSLASH)%N eqn:E2; [apply N.eqb_eq in E2 as ->; done|].
  destruct (c =? 10)%N eqn:E3; [apply N.eqb_eq in E3 as ->; done|].
  destruct (c =? 13)%N eqn:E4; [apply N.eqb_eq in E4 as ->; done|].
  destruct (c =? 9)%N eqn:E5; [apply N.eqb_eq in E5 as ->; done|].
  destruct (c =? 8)%N eqn:E6; [apply N.eqb_eq in E6 as ->; done|].
  destruct (c =? 12)%N eqn:E7; [apply N.eqb_eq in E7 as ->; done|].
  destruct ((32 <=? c)%N && (c <=? 126)%N) eqn:E8.
  - apply andb_true_iff in E8 as [Hlo _]. apply N.leb_le in Hlo.
    cbn [app scanstring]. rewrite E1, E2.
    by replace (c <=? 31)%N with false by (symmetry; apply N.leb_gt; lia).
  - destruct (c <? 65536)%N eqn:E9.
    + apply N.ltb_lt in E9. by apply scanstring_escape_u.
    + apply N.ltb_ge in E9. cbv zeta.
      destruct (surrogate_split c) as (H1 & H2 & Hhi & Hlo & Hjoin); [lia|].
      cbv zeta in H1, H2, Hhi, Hlo, Hjoin.
      set (s1 := N.lor 55296 _) in *. set (s2 := N.lor 56320 _) in *.
      rewrite <- app_assoc. unfold escape_u at 1.
      change (scanstring ([?x0; ?x1; ?h1; ?h2; ?h3; ?h4] ++ ?t))
        with (match hex4 h1 h2 h3 h4 with
              | None => Raise JSONDecodeError
              | Some uni =>
                  if is_high_surrogate uni then
                    match t with
                    | b :: u :: k1 :: k2 :: k3 :: k4 :: r3 =>
                        if (b =? BACKSLASH)%N && (u =? ch "u")%N then
                          match hex4 k1 k2 k3 k4 with
                          | None => Raise JSONDecodeError
                          | Some uni2 =>
                              if is_low_surrogate uni2
                              then cons_char (join_surrogates uni uni2) (scanstring r3)
                              else cons_char uni (scanstring t)
                          end
                        else cons_char uni (scanstring t)
                    | _ => cons_char uni (scanstring t)
                    end
                  else cons_char uni (scanstring t)
              end).
      rewrite hex4_escape, Hhi by done.
      unfold escape_u. cbn [app]. change (BACKSLASH =? BACKSLASH)%N with true.
      change (ch "u" =? ch "u")%N with true. cbn [andb].
      by rewrite hex4_escape, Hlo, Hjoin by done.
Qed.

Lemma no_low_escape_body c s rest :
  is_high_surrogate c = true →
  Forall (fun c => (c < 1114112)%N) s →
  match s with b :: _ => negb (is_high_surrogate c && is_low_surrogate b) | [] => true end = true →
  no_low_escape (escape_body s ++ DQUOTE :: rest).
Proof.
  intros Hc Hs Hpair k1 k2 k3 k4 r3. destruct s as [|b s]; [done|].
  rewrite Hc in Hpair. cbn [andb] in Hpair. apply negb_true_iff in Hpair.
  apply Forall_cons in Hs as [Hb _].
  unfold escape_body. cbn [map List.concat]. rewrite <- app_assoc.
  unfold escape_char.
  destruct (b =? DQUOTE)%N; [done|].
  destruct (b =? BACKSLASH)%N eqn:E2; [done|].
  destruct (b =? 10)%N; [done|].
  destruct (b =? 13)%N; [done|].
  destruct (b =? 9)%N; [done|].
  destruct (b =? 8)%N; [done|].
  destruct (b =? 12)%N; [done|].
  destruct ((32 <=? b)%N && (b <=? 126)%N).
  - cbn [app]. intros [= -> _]. done.
  - destruct (b <? 65536)%N eqn:E9.
    + apply N.ltb_lt in E9. unfold escape_u. cbn [app]. intros [= <- <- <- <- _].
      exists b. by rewrite hex4_escape.
    + apply N.ltb_ge in E9. cbv zeta.
      destruct (surrogate_split b) as (H1 & H2 & Hhi & Hlo & Hjoin); [lia|].
      cbv zeta in H1, Hhi.
      set (s1 := N.lor 55296 _) in *.
      unfold escape_u. cbn [app]. intros [= <- <- <- <- _].
      exists s1. split; [by rewrite hex4_escape|by apply high_not_low].
Qed.

(** A whole string body, up to the closing quote. *)
Lemma scanstring_escape_body s rest :
  str_ok s → scanstring (escape_body s ++ DQUOTE :: rest) = Ok (s, rest).
Proof.
  intros [Hrange Hpairs]. induction s as [|c s IH].
  - done.
  - apply Forall_cons in Hrange as [Hc Hrange].
    cbn [no_surrogate_pair] in Hpairs. apply andb_true_iff in Hpairs as [Hpair Hpairs].
    unfold escape_body. cbn [map List.concat]. rewrite <- app_assoc.
    fold (escape_body s).
    rewrite scanstring_escape_char, IH; [done..|].
    intros Hhi. by apply (no_low_escape_body c).
Qed.

(** ** Numbers survive the encoder and the scanner *)

Lemma digit_char_is_digit d : (d < 10)%N → is_digit (digit_char d) = true.
Proof.
  intros Hd. unfold is_digit, digit_char. apply andb_true_iff.
  split; apply N.leb_le; lia.
Qed.

Lemma digits_value_snoc ds d :
  digits_value (ds ++ [d]) = digits_value ds * 10 + Z.of_N (d - 48).
Proof. unfold digits_value. by rewrite fold_left_app. Qed.

Lemma digits_fuel_spec fuel n acc :
  (n < 2 ^ N.of_nat (S fuel))%N →
  ∃ ds, digits_fuel (S fuel) n acc = ds ++ acc ∧ all_digits ds ∧
        digits_value ds = Z.of_N n ∧
        (n = 0%N ∧ ds = [ch "0"] ∨
         n ≠ 0%N ∧ ∃ c rest, ds = c :: rest ∧ c ≠ ch "0").
Proof.
  revert n acc. induction fuel as [|fuel IH]; intros n acc Hn.
  - change (2 ^ N.of_nat 1)%N with 2%N in Hn.
    assert (n = 0 ∨ n = 1)%N as [-> | ->] by lia.
    + exists [ch "0"]. split_and!; [done|by repeat constructor|done|by left].
    + exists [ch "1"]. split_and!; [done|by repeat constructor|done|].
      right. split; [done|]. by exists (ch "1"), [].
  - pose proof (N.div_mod n 10 ltac:(done)) as Hdm.
    pose proof (N.mod_upper_bound n 10 ltac:(done)) as Hm.
    assert (Hq : (n / 10 < 2 ^ N.of_nat (S fuel))%N).
    { apply N.Div0.div_lt_upper_bound.
      replace (N.of_nat (S (S fuel))) with (N.succ (N.of_nat (S fuel))) in Hn by lia.
      rewrite N.pow_succ_r' in Hn. lia. }
    change (digits_fuel (S (S fuel)) n acc)
      with (if (n / 10 =? 0)%N then digit_char (n mod 10) :: acc
            else digits_fuel (S fuel) (n / 10)%N (digit_char (n mod 10) :: acc)).
    destruct (n / 10 =? 0)%N eqn:E.
    + apply N.eqb_eq in E. rewrite E in Hdm.
      exists [digit_char (n mod 10)]. split_and!.
      * done.
      * repeat constructor. by apply digit_char_is_digit.
      * unfold digits_value, digit_char. simpl.
        generalize dependent (n mod 10)%N. intros. lia.
      * destruct (decide (n = 0%N)) as [->|Hne]; [by left|].
        right. split; [done|]. eexists _, []. split; [done|].
        unfold digit_char. change (ch "0") with 48%N.
        generalize dependent (n mod 10)%N. intros. lia.
    + apply N.eqb_neq in E.
      destruct (IH (n / 10)%N (digit_char (n mod 10) :: acc) Hq)
        as (ds & Hds & Hall & Hval & Hhead).
      exists (ds ++ [digit_char (n mod 10)]). split_and!.
      * by rewrite Hds, <- app_assoc.
      * apply Forall_app. split; [done|]. repeat constructor.
        by apply digit_char_is_digit.
      * rewrite digits_value_snoc, Hval. unfold digit_char.
        generalize dependent (n mod 10)%N. generalize dependent (n / 10)%N. intros. lia.
      * right. split.
        { intros ->. by apply E. }
        destruct Hhead as [[? _]|[_ (c & rest & -> & Hc)]]; [done|].
        by exists c, (rest ++ [digit_char (n mod 10)]).
Qed.

Lemma str_of_N_spec n :
  all_digits (str_of_N n) ∧ digits_value (str_of_N n) = Z.of_N n ∧
  (n = 0%N ∧ str_of_N n = [ch "0"] ∨
   n ≠ 0%N ∧ ∃ c rest, str_of_N n = c :: rest ∧ c ≠ ch "0").
Proof.
  destruct (digits_fuel_spec (N.to_nat (N.log2 n)) n []) as (ds & Hds & H).
  - destruct (decide (n = 0%N)) as [->|Hne]; [done|].
    replace (N.of_nat (S (N.to_nat (N.log2 n)))) with (N.succ (N.log2 n)) by lia.
    apply N.log2_spec. lia.
  - unfold str_of_N. rewrite Hds, app_nil_r. done.
Qed.

Lemma str_of_N_int_part n : int_part (str_of_N n).
Proof.
  destruct (str_of_N_spec n) as (Hall & _ & [[_ ->]|[_ (c & rest & E & Hc)]]).
  - by left.
  - right. rewrite E in Hall. apply Forall_cons in Hall as [? ?]. by exists c, rest.
Qed.

(** *** Lexing a printed number *)

Lemma span_digits_app ds s :
  all_digits ds → (∀ c, head s = Some c → is_digit c = false) →
  span_digits (ds ++ s) = (ds, s).
Proof.
  intros Hds Hs. induction Hds as [|c ds Hc _ IH]; cbn [app span_digits].
  - destruct s as [|c r]; [done|]. cbn [span_digits]. by rewrite (Hs c).
  - cbv beta in Hc. by rewrite Hc, IH.
Qed.

Lemma delimited_head rest c :
  delimited rest → head rest = Some c → c = ch "," ∨ c = NEWLINE.
Proof. destruct rest; [done|]. simpl. by intros ? [= ->]. Qed.

Lemma scan_frac_app frac s :
  frac_part frac → (∀ c, head s = Some c → is_digit c = false ∧ c ≠ ch ".") →
  scan_frac (frac ++ s) = (frac, s).
Proof.
  intros [->|(d & ds & -> & Hds)] Hs.
  - destruct s as [|dot [|d r]]; [done|done|]. simpl.
    destruct (Hs dot) as [_ Hdot]; [done|].
    by apply N.eqb_neq in Hdot as ->.
  - apply Forall_cons in Hds as [Hd Hds]. cbn [app scan_frac].
    change (ch "." =? ch ".")%N with true. rewrite Hd. cbn [andb].
    rewrite span_digits_app; [done..|]. intros c Hc. by apply Hs.
Qed.

Lemma scan_exp_app exp s :
  exp_part exp →
  (∀ c, head s = Some c → is_digit c = false ∧ c ≠ ch "e" ∧ c ≠ ch "E") →
  scan_exp (exp ++ s) = (exp, s).
Proof.
  intros [->|(e & sign & d & ds & -> & He & Hsign & Hds)] Hs.
  - destruct s as [|c r]; [done|]. simpl.
    destruct (Hs c) as (_ & H1 & H2); [done|].
    apply N.eqb_neq in H1 as ->. by apply N.eqb_neq in H2 as ->.
  - apply Forall_cons in Hds as [Hd Hds].
    assert (Hspan : span_digits (d :: ds ++ s) = (d :: ds, s)).
    { apply (span_digits_app (d :: ds)); [by constructor|]. intros c Hc. by apply Hs. }
    assert (Hnosign : ((d =? ch "-")%N || (d =? ch "+")%N) = false).
    { apply orb_false_iff. split; apply N.eqb_neq; by intros ->. }
    cbn [app scan_exp].
    replace ((e =? ch "e")%N || (e =? ch "E")%N) with true
      by (by destruct He as [-> | ->]).
    destruct Hsign as [->|[->| ->]]; cbn [app].
    + rewrite Hnosign, Hspan. done.
    + change ((ch "-" =? ch "-")%N || (ch "-" =? ch "+")%N) with true.
      cbv iota beta. rewrite Hspan. done.
    + change ((ch "+" =? ch "-")%N || (ch "+" =? ch "+")%N) with true.
      cbv iota beta. rewrite Hspan. done.
Qed.

Lemma strip_prefix_head p a c s :
  head p = Some a → a ≠ c → strip_prefix p (c :: s) = None.
Proof.
  destruct p as [|a' p]; [done|]. intros [= ->] Hne. simpl.
  by apply N.eqb_neq in Hne as ->.
Qed.

Section NumbersWithFloat.
Context `{PyFloat}.

Lemma match_number_int_part (neg : bool) ds tail :
  int_part ds → (∀ c, head tail = Some c → is_digit c = false) →
  match_number ((if neg then [ch "-"] else []) ++ ds ++ tail) = finish_number neg ds tail.
Proof.
  intros Hds Htail.
  assert (Hstart : match_number ((if neg then [ch "-"] else []) ++ ds ++ tail) =
                   match ds ++ tail with
                   | c :: r =>
                       if (c =? ch "0")%N then finish_number neg [c] r
                       else if is_digit c then
                         let '(ds, rest) := span_digits r in finish_number neg (c :: ds) rest
                       else Raise JSONDecodeError
                   | [] => Raise JSONDecodeError
                   end).
  { destruct neg; [done|]. unfold match_number. cbn [app].
    destruct Hds as [->|(c & rest & -> & Hc & _)]; [done|]. cbn [app].
    replace (c =? ch "-")%N with false; [done|].
    symmetry. apply N.eqb_neq. by intros ->. }
  rewrite Hstart. destruct Hds as [->|(c & rest & -> & Hc & Hnz & Hrest)]; [done|].
  cbn [app]. apply N.eqb_neq in Hnz as ->. rewrite Hc.
  by rewrite span_digits_app.
Qed.

Lemma delimited_stops rest c :
  delimited rest → head rest = Some c →
  is_digit c = false ∧ c ≠ ch "." ∧ c ≠ ch "e" ∧ c ≠ ch "E".
Proof. intros Hd Hc. by destruct (delimited_head _ _ Hd Hc) as [-> | ->]. Qed.

Lemma finish_number_int neg ds rest :
  delimited rest → (length ds ≤ int_max_str_digits)%nat →
  finish_number neg ds rest =
  Ok (PInt (if neg then - digits_value ds else digits_value ds), rest).
Proof.
  intros Hrest Hlen. unfold finish_number.
  assert (Hf : scan_frac rest = ([], rest)).
  { apply (scan_frac_app [] rest); [by left|].
    intros c Hc. by destruct (delimited_stops _ _ Hrest Hc) as (? & ? & ? & ?). }
  assert (He : scan_exp rest = ([], rest)).
  { apply (scan_exp_app [] rest); [by left|].
    intros c Hc. by destruct (delimited_stops _ _ Hrest Hc) as (? & ? & ? & ?). }
  rewrite Hf, He.
  replace (int_max_str_digits <? length ds)%nat with false; [done|].
  symmetry. apply Nat.ltb_ge. lia.
Qed.

Lemma finish_number_float neg ds frac exp rest :
  frac_part frac → exp_part exp → frac ≠ [] ∨ exp ≠ [] → delimited rest →
  finish_number neg ds (frac ++ exp ++ rest) =
  Ok (PFloat (float_of_str ((if neg then [ch "-"] else []) ++ ds ++ frac ++ exp)), rest).
Proof.
  intros Hfrac Hexp Hne Hrest. unfold finish_number.
  rewrite scan_frac_app, scan_exp_app; [|done| |done|].
  - destruct frac, exp; try done. by destruct Hne.
  - intros c Hc. by destruct (delimited_stops _ _ Hrest Hc) as (? & ? & ? & ?).
  - intros c Hc. destruct Hexp as [->|(e & sign & d & ds' & -> & He & _)].
    + by destruct (delimited_stops _ _ Hrest Hc) as (? & ? & ? & ?).
    + injection Hc as <-. by destruct He as [-> | ->].
Qed.

Lemma scan_scalar_number (neg : bool) ds tail :
  int_part ds →
  scan_scalar ((if neg then [ch "-"] else []) ++ ds ++ tail) =
  match_number ((if neg then [ch "-"] else []) ++ ds ++ tail).
Proof.
  intros Hds.
  assert (∃ c r, ds ++ tail = c :: r ∧ is_digit c = true) as (c & r & E & Hc).
  { destruct Hds as [->|(c & rest & -> & Hc & _)]; by eexists _, _. }
  rewrite E. unfold scan_scalar. destruct neg; cbn [app].
  - rewrite (strip_prefix_head (py "null") (ch "n")) by done.
    rewrite (strip_prefix_head (py "true") (ch "t")) by done.
    rewrite (strip_prefix_head (py "false") (ch "f")) by done.
    rewrite (strip_prefix_head (py "NaN") (ch "N")) by done.
    rewrite (strip_prefix_head (py "Infinity") (ch "I")) by done.
    change (strip_prefix (py "-Infinity") (ch "-" :: c :: r))
      with (strip_prefix (py "Infinity") (c :: r)).
    rewrite (strip_prefix_head (py "Infinity") (ch "I")); [done..|]. by intros <-.
  - rewrite (strip_prefix_head (py "null") (ch "n")); [|done|by intros <-].
    rewrite (strip_prefix_head (py "true") (ch "t")); [|done|by intros <-].
    rewrite (strip_prefix_head (py "false") (ch "f")); [|done|by intros <-].
    rewrite (strip_prefix_head (py "NaN") (ch "N")); [|done|by intros <-].
    rewrite (strip_prefix_head (py "Infinity") (ch "I")); [|done|by intros <-].
    rewrite (strip_prefix_head (py "-Infinity") (ch "-")); [done..|by intros <-].
Qed.

(** An integer is read back. *)
Lemma scan_scalar_int z rest :
  int_ok z → delimited rest → scan_scalar (str_of_Z z ++ rest) = Ok (PInt z, rest).
Proof.
  intros Hz Hrest. unfold int_ok in Hz.
  destruct (str_of_N_spec (Z.abs_N z)) as (Hall & Hval & _).
  assert (Hnondigit : ∀ c, head rest = Some c → is_digit c = false).
  { intros c Hc. by destruct (delimited_stops _ _ Hrest Hc). }
  assert (E : str_of_Z z = (if z <? 0 then [ch "-"] else []) ++ str_of_N (Z.abs_N z)).
  { unfold str_of_Z. destruct (Z.ltb_spec z 0).
    - by replace (Z.to_N (- z)) with (Z.abs_N z) by lia.
    - by replace (Z.to_N z) with (Z.abs_N z) by lia. }
  rewrite E, <- app_assoc.
  rewrite scan_scalar_number, match_number_int_part, finish_number_int;
    [|done|done|apply str_of_N_int_part|done|apply str_of_N_int_part].
  rewrite Hval. do 2 f_equal. destruct (Z.ltb_spec z 0); f_equal; lia.
Qed.

(** The text of a float literal is handed to [float] as a whole. *)
Lemma scan_scalar_float_literal t rest :
  float_literal t → delimited rest →
  scan_scalar (t ++ rest) = Ok (PFloat (float_of_str t), rest).
Proof.
  intros (neg & ds & frac & exp & -> & Hds & Hfrac & Hexp & Hne) Hrest.
  rewrite <- !app_assoc.
  rewrite scan_scalar_number, match_number_int_part; [|done| |done].
  - by apply finish_number_float.
  - intros c Hc. destruct Hfrac as [->|(d & ds' & -> & _)]; [|by injection Hc as <-].
    destruct Hexp as [->|(e & sign & d & ds' & -> & He & _)].
    + by destruct (delimited_stops _ _ Hrest Hc).
    + injection Hc as <-. by destruct He as [-> | ->].
Qed.

End NumbersWithFloat.

(** ** [raw_decode] inverts [dumps] *)

Section RoundTripWithFloat.
Context `{PyFloat}.

Lemma pyval_ind_nested (P : pyval → Prop) :
  P PNone → (∀ b, P (PBool b)) → (∀ z, P (PInt z)) → (∀ f, P (PFloat f)) →
  (∀ s, P (PStr s)) →
  (∀ l, Forall P l → P (PList l)) →
  (∀ d, Forall (fun kv => P (snd kv)) d → P (PDict d)) →
  ∀ v, P v.
Proof.
  intros HNone HBool HInt HFloat HStr HList HDict.
  fix IH 1. intros [| | | | |l|d]; [done..| |].
  - apply HList. induction l as [|x l IHl]; constructor; [apply IH|apply IHl].
  - apply HDict. induction d as [|[k x] d IHd]; constructor; [apply IH|apply IHd].
Qed.

Lemma value_ok_list l : value_ok (PList l) ↔ Forall value_ok l.
Proof.
  induction l as [|x l IH]; [by split|].
  rewrite Forall_cons, <- IH. done.
Qed.

Lemma value_ok_dict d :
  value_ok (PDict d) ↔
  NoDup (map fst d) ∧ Forall (fun kv => str_ok (fst kv) ∧ value_ok (snd kv)) d.
Proof.
  cbn [value_ok]. apply and_iff_compat_l.
  induction d as [|[k x] d IH]; [by split|].
  rewrite Forall_cons, <- IH. cbn [fst snd]. tauto.
Qed.

Lemma encode_list level x l :
  encode level (PList (x :: l)) =
  [ch "["] ++ newline_indent (S level) ++ encode (S level) x ++
  encode_items (S level) l ++ newline_indent level ++ [ch "]"].
Proof.
  cbn [encode]. do 3 f_equal. f_equal.
  induction l as [|y l IH]; [done|].
  unfold encode_items. cbn [map List.concat]. rewrite <- app_assoc. by rewrite IH.
Qed.

Lemma encode_dict level k x d :
  encode level (PDict ((k, x) :: d)) =
  [ch "{"] ++ newline_indent (S level) ++
  encode_basestring_ascii k ++ key_separator ++ encode (S level) x ++
  encode_members (S level) d ++ newline_indent level ++ [ch "}"].
Proof.
  cbn [encode]. do 5 f_equal. f_equal.
  induction d as [|[k' y] d IH]; [done|].
  unfold encode_members. cbn [map List.concat fst snd]. rewrite <- !app_assoc.
  by rewrite IH.
Qed.

(** *** White space and the first character of a value *)

Lemma skip_ws_head s : (∀ c, head s = Some c → is_ws c = false) → skip_ws s = s.
Proof. destruct s as [|c r]; [done|]. intros Hc. simpl. by rewrite (Hc c). Qed.

Lemma skip_ws_spaces n s : skip_ws (repeat SPACE n ++ s) = skip_ws s.
Proof. induction n as [|n IH]; [done|]. by cbn [repeat app skip_ws]. Qed.

Lemma skip_ws_indent level s :
  (∀ c, head s = Some c → is_ws c = false) → skip_ws (newline_indent level ++ s) = s.
Proof.
  intros Hs. unfold newline_indent. cbn [app skip_ws].
  change (is_ws NEWLINE) with true. cbv iota.
  rewrite skip_ws_spaces. by apply skip_ws_head.
Qed.

Lemma number_head_plain c :
  c = ch "-" ∨ is_digit c = true →
  is_ws c = false ∧ c ≠ ch "]" ∧ c ≠ DQUOTE ∧ c ≠ ch "{" ∧ c ≠ ch "[".
Proof.
  intros [->|Hc]; [done|].
  assert (is_ws c = false); [|split_and!; [done|by intros ->..]].
  unfold is_digit in Hc. apply andb_true_iff in Hc as [H1 H2]. apply N.leb_le in H1, H2.
  unfold is_ws. repeat (apply orb_false_iff; split); apply N.eqb_neq; lia.
Qed.

Lemma number_head (neg : bool) ds tail :
  int_part ds →
  ∃ c r, (if neg then [ch "-"] else []) ++ ds ++ tail = c :: r ∧
         (c = ch "-" ∨ is_digit c = true).
Proof.
  intros Hds. destruct neg; [eexists _, _; split; [done|by left]|].
  destruct Hds as [->|(c & rest & -> & Hc & _)]; eexists _, _; (split; [done|by right]).
Qed.

Lemma str_of_Z_number z :
  str_of_Z z = (if z <? 0 then [ch "-"] else []) ++ str_of_N (Z.abs_N z).
Proof.
  unfold str_of_Z. destruct (Z.ltb_spec z 0).
  - by replace (Z.to_N (- z)) with (Z.abs_N z) by lia.
  - by replace (Z.to_N z) with (Z.abs_N z) by lia.
Qed.

Context `{!ReprRoundTrip}.

Lemma floatstr_cases f :
  float_is_nan f = false →
  (f = float_inf ∧ floatstr f = py "Infinity") ∨
  (f = float_neginf ∧ floatstr f = py "-Infinity") ∨
  (floatstr f = float_repr f ∧ float_literal (float_repr f) ∧
   float_of_str (float_repr f) = f).
Proof.
  intros Hnan. unfold floatstr. rewrite Hnan.
  case_bool_decide as Hinf; [by left|].
  case_bool_decide as Hninf; [right; by left|].
  right. right. split_and!; [done|by apply repr_literal|by apply repr_float].
Qed.

(** The first character of a printed value: not white space, and neither
    a closing bracket nor, for a scalar, the start of a string, a dict or a
    list. *)
Lemma scalar_head level v rest :
  value_ok v → (∀ s, v ≠ PStr s) → (∀ l, v ≠ PList l) → (∀ d, v ≠ PDict d) →
  ∃ c r, encode level v ++ rest = c :: r ∧
         is_ws c = false ∧ c ≠ ch "]" ∧ c ≠ DQUOTE ∧ c ≠ ch "{" ∧ c ≠ ch "[".
Proof.
  intros Hok Hs Hl Hd. destruct v as [|[]|z|f|s|l|d]; cbn [encode].
  - by eexists _, _.
  - by eexists _, _.
  - by eexists _, _.
  - rewrite str_of_Z_number, <- app_assoc.
    destruct (number_head (z <? 0) (str_of_N (Z.abs_N z)) rest) as (c & r & -> & Hc).
    { apply str_of_N_int_part. }
    exists c, r. split; [done|]. by apply number_head_plain.
  - destruct (floatstr_cases f Hok) as [[_ ->]|[[_ ->]|(-> & Hlit & _)]];
      [by eexists _, _..|].
    destruct Hlit as (neg & ds & frac & exp & -> & Hds & _).
    rewrite <- !app_assoc.
    destruct (number_head neg ds (frac ++ exp ++ rest)) as (c & r & -> & Hc); [done|].
    exists c, r. split; [done|]. by apply number_head_plain.
  - by destruct (Hs s).
  - by destruct (Hl l).
  - by destruct (Hd d).
Qed.

Lemma encode_head level v rest c :
  value_ok v → head (encode level v ++ rest) = Some c → is_ws c = false ∧ c ≠ ch "]".
Proof.
  intros Hok.
  destruct v as [| | | |s|[|x l]|[|[k x] d]];
    try (intros [= <-]; done);
    try (edestruct (scalar_head level) as (c' & r & -> & ? & ? & _);
         [exact Hok|done..|]; by intros [= <-]).
Qed.

(** *** Scalars *)

Lemma step_value_scalar po pa s c r :
  s = c :: r → c ≠ DQUOTE → c ≠ ch "{" → c ≠ ch "[" →
  step_value po pa s = Some (scan_scalar s).
Proof.
  intros -> H1 H2 H3. unfold step_value.
  apply N.eqb_neq in H1 as ->. apply N.eqb_neq in H2 as ->.
  by apply N.eqb_neq in H3 as ->.
Qed.

Lemma scan_scalar_value level v rest :
  value_ok v → (∀ s, v ≠ PStr s) → (∀ l, v ≠ PList l) → (∀ d, v ≠ PDict d) →
  delimited rest →
  scan_scalar (encode level v ++ rest) = Ok (v, rest).
Proof.
  intros Hok Hs Hl Hd Hrest. destruct v as [|[]|z|f|s|l|d]; cbn [encode].
  - done.
  - done.
  - done.
  - by apply scan_scalar_int.
  - destruct (floatstr_cases f Hok) as [[-> ->]|[[-> ->]|(-> & Hlit & Hf)]]; [done..|].
    rewrite scan_scalar_float_literal by done. by rewrite Hf.
  - by destruct (Hs s).
  - by destruct (Hl l).
  - by destruct (Hd d).
Qed.

Lemma scans_scalar level v rest :
  value_ok v → (∀ s, v ≠ PStr s) → (∀ l, v ≠ PList l) → (∀ d, v ≠ PDict d) →
  delimited rest →
  scans (encode level v ++ rest) (Ok (v, rest)).
Proof.
  intros Hok Hs Hl Hd Hrest. exists 1%nat. cbn [scan_once].
  destruct (scalar_head level v rest) as (c & r & E & _ & _ & H1 & H2 & H3); [done..|].
  rewrite (step_value_scalar _ _ _ c r) by done.
  by rewrite scan_scalar_value.
Qed.

Lemma scans_string level s rest :
  str_ok s → scans (encode level (PStr s) ++ rest) (Ok (PStr s, rest)).
Proof.
  intros Hs. exists 1%nat. cbn [scan_once encode]. unfold encode_basestring_ascii.
  cbn [app]. rewrite <- app_assoc. cbn [app]. unfold step_value.
  change (DQUOTE =? DQUOTE)%N with true. cbv iota.
  by rewrite scanstring_escape_body.
Qed.

(** *** Lists and dicts *)

Lemma step_element_last sc ne values s x r1 rest :
  sc s = Some (Ok (x, r1)) → skip_ws r1 = ch "]" :: rest →
  step_element sc ne values s = Some (Ok (PList (values ++ [x]), rest)).
Proof. intros Hsc Hr. unfold step_element. by rewrite Hsc, Hr. Qed.

Lemma step_element_more sc ne values s x r1 r2 :
  sc s = Some (Ok (x, r1)) → skip_ws r1 = ch "," :: r2 →
  step_element sc ne values s = ne (values ++ [x]) (skip_ws r2).
Proof. intros Hsc Hr. unfold step_element. by rewrite Hsc, Hr. Qed.

Lemma dict_set_fresh (pairs : list (str * pyval)) k v :
  k ∉ map fst pairs → dict_set pairs k v = pairs ++ [(k, v)].
Proof.
  induction pairs as [|[k' v'] pairs IH]; [done|]. cbn [map fst dict_set app].
  intros [Hne Hk]%not_elem_of_cons. unfold str_eqb.
  rewrite bool_decide_eq_false_2 by done. by rewrite IH.
Qed.

Lemma step_member_key sc nm pairs k r1 :
  str_ok k →
  step_member sc nm pairs (encode_basestring_ascii k ++ key_separator ++ r1) =
  match sc (skip_ws r1) with
  | None => None
  | Some (Raise e) => Some (Raise e)
  | Some (Ok (value, r3)) =>
      let pairs := dict_set pairs k value in
      match skip_ws r3 with
      | d :: r4 =>
          if (d =? ch "}")%N then Some (Ok (PDict pairs, r4))
          else if (d =? ch ",")%N then nm pairs (skip_ws r4)
          else Some (Raise JSONDecodeError)
      | [] => Some (Raise JSONDecodeError)
      end
  end.
Proof.
  intros Hk. unfold encode_basestring_ascii, key_separator.
  cbn [app]. rewrite <- app_assoc. cbn [app]. unfold step_member.
  change (DQUOTE =? DQUOTE)%N with true. cbv iota.
  rewrite scanstring_escape_body by done.
  change (skip_ws (ch ":" :: SPACE :: r1)) with (ch ":" :: SPACE :: r1).
  change (ch ":" =? ch ":")%N with true. cbv iota.
  by change (skip_ws (SPACE :: r1)) with (skip_ws r1).
Qed.

Lemma scans_items level rest l :
  Forall reads_back l → Forall value_ok l →
  ∀ x values, reads_back x → value_ok x →
    scans_elements values
      (encode (S level) x ++ encode_items (S level) l ++ newline_indent level ++ ch "]" :: rest)
      (Ok (PList (values ++ x :: l), rest)).
Proof.
  induction l as [|y l IH]; intros Hrb Hok x values Hx Hxok.
  - destruct (Hx (S level) (newline_indent level ++ ch "]" :: rest)) as [n Hn];
      [by right|].
    exists (S n). cbn [elements encode_items map List.concat app].
    apply (step_element_last _ _ _ _ _ _ _ Hn).
    apply skip_ws_indent. by intros c [= <-].
  - apply Forall_cons in Hrb as [Hy Hrb]. apply Forall_cons in Hok as [Hyok Hok].
    unfold encode_items. cbn [map List.concat]. fold (encode_items (S level) l).
    unfold item_separator. rewrite <- !app_assoc. cbn [app].
    set (tail := encode (S level) y ++ encode_items (S level) l ++
                 newline_indent level ++ ch "]" :: rest).
    destruct (Hx (S level) (ch "," :: newline_indent (S level) ++ tail)) as [n1 Hn1];
      [by left|].
    destruct (IH Hrb Hok y (values ++ [x]) Hy Hyok) as [n2 Hn2]. fold tail in Hn2.
    exists (S (n1 `max` n2)). cbn [elements].
    rewrite (step_element_more _ _ _ _ x (ch "," :: newline_indent (S level) ++ tail)
               (newline_indent (S level) ++ tail)).
    + rewrite skip_ws_indent.
      * rewrite <- app_assoc in Hn2. cbn [app] in Hn2.
        apply (elements_mono n2); [lia|done].
      * intros c Hc. unfold tail in Hc. by apply encode_head in Hc as [? _].
    + apply (scan_once_mono n1); [lia|done].
    + done.
Qed.

Lemma scans_members level rest d :
  Forall (fun kv => reads_back (snd kv)) d →
  Forall (fun kv => str_ok (fst kv) ∧ value_ok (snd kv)) d →
  ∀ k x pairs, reads_back x → str_ok k → value_ok x →
    NoDup (map fst pairs ++ k :: map fst d) →
    scans_members pairs
      (encode_basestring_ascii k ++ key_separator ++ encode (S level) x ++
       encode_members (S level) d ++ newline_indent level ++ ch "}" :: rest)
      (Ok (PDict (pairs ++ (k, x) :: d), rest)).
Proof.
  induction d as [|[k' y] d IH]; intros Hrb Hok k x pairs Hx Hk Hxok Hnd.
  - destruct (Hx (S level) (newline_indent level ++ ch "}" :: rest)) as [n Hn];
      [by right|].
    exists (S n). cbn [members encode_members map List.concat app].
    rewrite step_member_key by done.
    rewrite skip_ws_head by (intros c Hc; by apply encode_head in Hc as [? _]).
    rewrite Hn. cbv zeta.
    rewrite skip_ws_indent by (by intros c [= <-]).
    change (ch "}" =? ch "}")%N with true. cbv iota.
    rewrite dict_set_fresh; [done|].
    apply NoDup_app in Hnd as (_ & Hnd & _). intros Hin. apply (Hnd _ Hin). by left.
  - apply Forall_cons in Hrb as [Hy Hrb]. apply Forall_cons in Hok as [[Hk' Hyok] Hok].
    cbn [fst snd] in Hy, Hk', Hyok.
    unfold encode_members. cbn [map List.concat fst snd]. fold (encode_members (S level) d).
    unfold item_separator. rewrite <- !app_assoc. cbn [app].
    set (tail := encode_basestring_ascii k' ++ key_separator ++ encode (S level) y ++
                 encode_members (S level) d ++ newline_indent level ++ ch "}" :: rest).
    destruct (Hx (S level) (ch "," :: newline_indent (S level) ++ tail)) as [n1 Hn1];
      [by left|].
    assert (Hfresh : k ∉ map fst pairs).
    { apply NoDup_app in Hnd as (_ & Hnd & _). intros Hin. apply (Hnd _ Hin). by left. }
    destruct (IH Hrb Hok k' y (pairs ++ [(k, x)]) Hy Hk' Hyok) as [n2 Hn2].
    { rewrite map_app. cbn [map fst]. by rewrite <- app_assoc. }
    fold tail in Hn2.
    exists (S (n1 `max` n2)). cbn [members].
    rewrite step_member_key by done.
    rewrite skip_ws_head by (intros c Hc; by apply encode_head in Hc as [? _]).
    rewrite (scan_once_mono n1 _ _ _ (Nat.le_max_l n1 n2) Hn1). cbv zeta.
    change (skip_ws (ch "," :: ?t)) with (ch "," :: t).
    change (ch "," =? ch "}")%N with false. change (ch "," =? ch ",")%N with true.
    cbv iota.
    rewrite skip_ws_indent by (by intros c [= <-]).
    rewrite dict_set_fresh by done.
    rewrite <- app_assoc in Hn2. cbn [app] in Hn2.
    apply (members_mono n2); [lia|done].
Qed.

Lemma value_reads_back v : value_ok v → reads_back v.
Proof.
  induction v as [|b|z|f|s|l IH|d IH] using pyval_ind_nested; intros Hok level rest Hrest.
  - by apply scans_scalar.
  - by apply scans_scalar.
  - by apply scans_scalar.
  - by apply scans_scalar.
  - by apply scans_string.
  - apply value_ok_list in Hok. destruct l as [|x l].
    { by exists 1%nat. }
    apply Forall_cons in Hok as [Hx Hok]. apply Forall_cons in IH as [IHx IH].
    destruct (scans_items level rest l) with (x := x) (values := @nil pyval) as [n Hn].
    + rewrite Forall_forall in IH, Hok |- *. intros y Hy. by apply IH, Hok.
    + done.
    + by apply IHx.
    + done.
    + exists (S n). rewrite encode_list. cbn [scan_once app]. unfold step_value.
      change (ch "[" =? DQUOTE)%N with false. change (ch "[" =? ch "{")%N with false.
      change (ch "[" =? ch "[")%N with true. cbv iota.
      rewrite <- !app_assoc. cbn [app].
      rewrite skip_ws_indent by (intros c Hc; by apply encode_head in Hc as [? _]).
      unfold open_array.
      destruct (encode (S level) x ++ _) as [|c r] eqn:E; [done|].
      assert (Hc : c ≠ ch "]").
      { eapply (encode_head (S level) x); [done|]. by rewrite E. }
      by apply N.eqb_neq in Hc as ->.
  - apply value_ok_dict in Hok as [Hnd Hok]. destruct d as [|[k x] d].
    { by exists 1%nat. }
    apply Forall_cons in Hok as [[Hk Hx] Hok]. apply Forall_cons in IH as [IHx IH].
    cbn [fst snd] in Hk, Hx, IHx.
    destruct (scans_members level rest d) with (k := k) (x := x)
      (pairs := @nil (str * pyval)) as [n Hn].
    + rewrite Forall_forall in IH, Hok |- *. intros kv Hkv. by apply IH, Hok.
    + done.
    + by apply IHx.
    + done.
    + done.
    + done.
    + exists (S n). rewrite encode_dict. cbn [scan_once app]. unfold step_value.
      change (ch "{" =? DQUOTE)%N with false. change (ch "{" =? ch "{")%N with true.
      cbv iota. rewrite <- !app_assoc. cbn [app].
      rewrite skip_ws_indent by (by intros c [= <-]).
      done.
Qed.

(** Decoding a printed value gives the value back, with nothing left. *)
Lemma raw_decode_dumps v : value_ok v → raw_decode (dumps v) = Ok (v, []).
Proof.
  intros Hok. apply raw_decode_scans.
  pose proof (value_reads_back v Hok 0%nat [] I) as Hs.
  by rewrite app_nil_r in Hs.
Qed.

End RoundTripWithFloat.

(** ** Serialising a summary and parsing it again *)

Section SummaryRoundTrip.
Context `{PyFloat} `{!ReprRoundTrip}.

Lemma field_name_ok k : k ∈ field_names → str_ok k.
Proof.
  unfold field_names. cbn [map]. intros Hk.
  repeat (apply elem_of_cons in Hk as [->|Hk];
          [split; [by apply (bool_decide_unpack _)|reflexivity]|]).
  by apply elem_of_nil in Hk.
Qed.

Lemma text_value_ok v : text_ok v → value_ok v.
Proof. by intros (s & -> & Hs). Qed.

Lemma float_value_ok v : float_ok v → value_ok v.
Proof. by intros (f & -> & Hf). Qed.

Lemma text_list_value_ok v : text_list_ok v → value_ok v.
Proof.
  intros (l & -> & Hl). apply value_ok_list.
  induction Hl as [|s l Hs _ IH]; by constructor.
Qed.

Lemma text_dict_value_ok v : text_dict_ok v → value_ok v.
Proof.
  intros (d & -> & Hnd & Hd). apply value_ok_dict. split.
  - rewrite map_map. cbn [fst]. done.
  - clear Hnd. induction Hd as [|[k s] d [Hk Hs] _ IH]; by constructor.
Qed.

Lemma dict_value_ok (r : ReviewSummary) : summary_ok r → value_ok (PDict (__dict__ r)).
Proof.
  intros (H1 & H2 & H3 & H4 & H5 & H6 & H7 & H8 & H9).
  apply text_value_ok in H1, H8, H9. apply float_value_ok in H2, H3.
  apply text_list_value_ok in H4, H5, H7. apply text_dict_value_ok in H6.
  apply value_ok_dict. split.
  - by apply (bool_decide_unpack _).
  - unfold __dict__.
    repeat (apply Forall_cons; split;
            [split; [apply field_name_ok; unfold field_names; cbn [map]; set_solver|done]|]).
    constructor.
Qed.

Lemma parse_to_json (r : ReviewSummary) : summary_ok r → parse (to_json r) = Ok r.
Proof.
  intros Hok. unfold parse.
  assert (Hfind : find (ch "{") (to_json r) = 0).
  { unfold to_json, dumps, __dict__. by rewrite encode_dict. }
  rewrite Hfind. change (slice_from 0 (to_json r)) with (to_json r).
  unfold to_json. rewrite raw_decode_dumps by (by apply dict_value_ok).
  by destruct r.
Qed.

(** C6: a summary whose fields hold values of their declared types
    (strings, floats, lists of strings, a dict from strings to strings), with
    no NaN and no string in which a high surrogate is directly followed by a
    low surrogate, is returned unchanged by [from_json (to_json r)], provided
    the [print] call inside [from_json] succeeds; nothing is logged. *)
Theorem to_json_from_json_round_trip (r : ReviewSummary) w :
  summary_ok r → stdout_writable w →
  ∃ w', from_json (to_json r) w = (Ok r, w') ∧ log w' = log w.
Proof.
  intros Hok Hw. unfold from_json, try_except, bind, print, lift.
  rewrite (parse_to_json r Hok). unfold stdout_writable in Hw.
  destruct (stdout_faults w) as [|[e'|] t]; cbn; try done; by eexists.
Qed.

End SummaryRoundTrip.

(** The stand-in floats print and read back as CPython's floats do. *)
Lemma integral_repr_round_trip : @ReprRoundTrip integral_floats.
Proof.
  split.
  - intros [| | |z] Hnan Hinf Hninf; try done.
    cbn [float_repr integral_floats integral_repr]. rewrite str_of_Z_number.
    exists (z <? 0), (str_of_N (Z.abs_N z)), (py ".0"), []. split_and!.
    + by rewrite <- app_assoc.
    + apply str_of_N_int_part.
    + right. exists (ch "0"), []. split; [done|]. by repeat constructor.
    + by left.
    + by left.
  - intros [| | |z] Hnan Hinf Hninf; try done.
    cbn [float_repr float_of_str integral_floats integral_repr].
    destruct (str_of_N_spec (Z.abs_N z)) as (Hall & Hval & Hhead).
    assert (Hspan : span_digits (str_of_N (Z.abs_N z) ++ py ".0")
                    = (str_of_N (Z.abs_N z), py ".0")).
    { apply span_digits_app; [done|]. by intros c [= <-]. }
    rewrite str_of_Z_number. destruct (Z.ltb_spec z 0) as [Hneg|Hpos]; cbn [app].
    + unfold integral_of_str. change (ch "-" =? ch "-")%N with true. cbv iota.
      rewrite Hspan. cbn [fst]. rewrite Hval. f_equal. lia.
    + assert (∃ c r, str_of_N (Z.abs_N z) = c :: r ∧ is_digit c = true) as (c & r & E & Hc).
      { destruct (str_of_N_int_part (Z.abs_N z)) as [->|(c & r & -> & Hc & _)];
          by eexists _, _. }
      unfold integral_of_str. rewrite E in Hspan |- *. cbn [app] in Hspan |- *.
      replace (c =? ch "-")%N with false by (symmetry; apply N.eqb_neq; by intros ->).
      rewrite Hspan. cbn [fst]. rewrite <- E, Hval. f_equal. lia.
Qed.

(** C6, counterexample: a sentiment made of a high and a low surrogate is
    written as two escapes and read back as the single code point U+1F600. *)
Lemma round_trip_surrogates_counterexample :
  res_map (@overall_sentiment integral_floats) (fst (@from_json integral_floats (to_json Replies.grinning) Sheet.boot))
    = Ok (PStr [128512%N]) ∧
  fst (@from_json integral_floats (to_json Replies.grinning) Sheet.boot) ≠ Ok Replies.grinning.
Proof.
  assert (E : res_map (@overall_sentiment integral_floats)
                (fst (@from_json integral_floats (to_json Replies.grinning) Sheet.boot))
              = Ok (PStr [128512%N])) by (vm_compute; reflexivity).
  split; [exact E|]. intros Heq. rewrite Heq in E. vm_compute in E. discriminate E.
Qed.

Lemma to_json_from_json_round_trip_witness :
  summary_ok Replies.positive ∧ stdout_writable Sheet.boot ∧
  ∃ w', @from_json integral_floats (to_json Replies.positive) Sheet.boot = (Ok Replies.positive, w') ∧
        log w' = log Sheet.boot.
Proof.
  assert (Hok : summary_ok Replies.positive).
  { split_and!.
    - eexists. split; [reflexivity|by apply (bool_decide_unpack _)].
    - by eexists.
    - by eexists.
    - exists [py "battery life"; py "price"].
      split; [reflexivity|by apply (bool_decide_unpack _)].
    - exists [py "weight"]. split; [reflexivity|by apply (bool_decide_unpack _)].
    - exists [(py "age", py "younger buyers like it");
              (py "profession", py "engineers approve")].
      split_and!; [reflexivity|by apply (bool_decide_unpack _)..].
    - exists [py "value for money"]. split; [reflexivity|by apply (bool_decide_unpack _)].
    - eexists. split; [reflexivity|by apply (bool_decide_unpack _)].
    - eexists. split; [reflexivity|by apply (bool_decide_unpack _)]. }
  split; [exact Hok|]. split; [exact I|].
  exact (@to_json_from_json_round_trip integral_floats integral_repr_round_trip
           Replies.positive Sheet.boot Hok I).
Defined.

(** ** Construction of the generation provider *)
Import Reviewer.

Section ReviewerWithLibrary.
Context `{PyFloat} `{!ClientLibrary}.

(** A key of the caller's dict keeps the caller's value; any other key has
    the default's value, if any. *)
Lemma effective_config_lookup (p : AIProvider) (api_key : str) (model_config : Config) (k : str) :
  effective_config p api_key model_config !! k =
  match model_config !! k with
  | Some v => Some v
  | None => default_config p api_key !! k
  end.
Proof.
  unfold effective_config. rewrite lookup_union.
  by destruct (model_config !! k), (default_config p api_key !! k).
Qed.

(** When the constructor returns, and what it returns. *)
Lemma init_returns (provider api_key : str) (model_config : option Config) (w : World)
    (p : AIProvider) :
  AIProvider_of provider = Ok p →
  client_check p (effective_config p api_key (default ∅ model_config)) = None →
  ∃ w', Reviewer.__init__ provider api_key model_config w =
        (Ok (mkReviewer p api_key (default ∅ model_config)
               (Some (mkModel p (effective_config p api_key (default ∅ model_config))))),
         w').
Proof.
  intros Hp Hcheck.
  unfold Reviewer.__init__, _initialize_model, new_client, try_except, lift, logger,
    mbind, M_bind, bind, mret, M_ret, ret.
  rewrite Hp. cbn [Reviewer.provider Reviewer.api_key Reviewer.model_config]. rewrite Hcheck.
  by eexists.
Qed.

Lemma init_inv (provider api_key : str) (model_config : option Config) (w w' : World)
    (r : ProductReviewer) :
  Reviewer.__init__ provider api_key model_config w = (Ok r, w') →
  ∃ p, AIProvider_of provider = Ok p ∧
       r = mkReviewer p api_key (default ∅ model_config)
             (Some (mkModel p (effective_config p api_key (default ∅ model_config)))).
Proof.
  unfold Reviewer.__init__, _initialize_model, new_client, try_except, lift, logger,
    mbind, M_bind, bind, mret, M_ret, ret, raise.
  destruct (AIProvider_of provider) as [p|e]; [|done].
  cbn [Reviewer.provider Reviewer.api_key Reviewer.model_config].
  destruct (client_check p _) as [e|]; [done|].
  intros [= <- <-]. by exists p.
Qed.

(** C8: the client of a constructed reviewer was built with the default
    configuration of its backend overlaid with the caller's: a key the
    caller gave has the caller's value, whether or not the defaults have it
    too; any other key has its default value, if it has one. *)
Theorem reviewer_effective_config (provider api_key : str) (model_config : option Config)
    (w : World) (r : ProductReviewer) :
  fst (Reviewer.__init__ provider api_key model_config w) = Ok r →
  ∃ p config,
    AIProvider_of provider = Ok p ∧ model r = Some (mkModel p config) ∧
    ∀ k, config !! k =
         match default ∅ model_config !! k with
         | Some v => Some v
         | None => default_config p api_key !! k
         end.
Proof.
  destruct (Reviewer.__init__ provider api_key model_config w) as [r' w'] eqn:E.
  cbn [fst]. intros ->. apply init_inv in E as (p & Hp & ->).
  exists p, (effective_config p api_key (default ∅ model_config)).
  split_and!; [done|done|]. intros k. apply effective_config_lookup.
Qed.

End ReviewerWithLibrary.

Lemma reviewer_effective_config_witness :
  fst (@Reviewer.__init__ integral_floats Desk.accept_all
         (py "OpenAI") Desk.key (Some Desk.overlay) Sheet.boot) = Ok Desk.tuned ∧
  ∃ p config,
    AIProvider_of (py "OpenAI") = Ok p ∧ model Desk.tuned = Some (mkModel p config) ∧
    ∀ k, config !! k =
         match Desk.overlay !! k with
         | Some v => Some v
         | None => default_config p Desk.key !! k
         end.
Proof.
  assert (Hnew : fst (@Reviewer.__init__ integral_floats Desk.accept_all
                        (py "OpenAI") Desk.key (Some Desk.overlay) Sheet.boot)
                 = Ok Desk.tuned) by reflexivity.
  split; [exact Hnew|].
  exact (@reviewer_effective_config integral_floats Desk.accept_all
           (py "OpenAI") Desk.key (Some Desk.overlay) Sheet.boot Desk.tuned Hnew).
Defined.

(** ** The review loop of the orchestrator *)
Import Reviewer Manager ManagerSpec.

Section ManagerWithLibrary.
Context `{PyFloat} `{ExnText} `{!ClientLibrary}.

Lemma loop_errors_snoc l r :
  is_loop_error r = false → loop_errors (l ++ [r]) = loop_errors l.
Proof.
  intros Hr. unfold loop_errors. rewrite List.filter_app. cbn [List.filter].
  by rewrite Hr, app_nil_r.
Qed.

Lemma loop_errors_failure l p e :
  loop_errors (l ++ [failure_record p e]) = loop_errors l ++ [failure_record p e].
Proof. unfold loop_errors. by rewrite List.filter_app. Qed.

(** One turn adds no failure record of the loop by itself, and a record it
    returns describes the persona it was given. *)
Lemma review_persona_spec reviewer product p w r w1 :
  review_persona reviewer product p w = (r, w1) →
  loop_errors (log w1) = loop_errors (log w) ∧
  ∀ rec, r = Ok rec → persona rec = persona_info p.
Proof.
  unfold review_persona, generate_review, _process_message, invoke, add_message, now,
    invoke_backend, logger, try_except, lift, mbind, M_bind, bind, mret, M_ret, ret, raise.
  destruct (to_reviewer_profile p) as [profile|e]; [|by intros [= <- <-]].
  destruct (_generate_system_prompt profile) as [system|e]; [|by intros [= <- <-]].
  destruct (model reviewer) as [m|].
  - destruct (backend w) as [|[reply|e] replies]; cbn.
    + intros [= <- <-]. cbn. split; [by apply loop_errors_snoc|done].
    + intros [= <- <-]. cbn. split; [done|]. by intros rec [= <-].
    + intros [= <- <-]. cbn. split; [by apply loop_errors_snoc|done].
  - cbn. intros [= <- <-]. cbn. split; [by apply loop_errors_snoc|done].
Qed.

Lemma outcomes_length reviewer product personas w :
  length (outcomes reviewer product personas w) = length personas.
Proof.
  revert w. induction personas as [|p rest IH]; intros w; [done|].
  cbn [outcomes]. destruct (review_persona reviewer product p w) as [r w1].
  cbn [length]. by rewrite IH.
Qed.

Lemma outcomes_personas reviewer product personas w :
  map persona (successes (outcomes reviewer product personas w)) =
  map persona_info (survivors personas (outcomes reviewer product personas w)).
Proof.
  revert w. induction personas as [|p rest IH]; intros w; [done|].
  cbn [outcomes]. destruct (review_persona reviewer product p w) as [r w1] eqn:E.
  apply review_persona_spec in E as [_ Hinfo].
  destruct r as [rec|e]; cbn [successes survivors map].
  - by rewrite IH, (Hinfo rec).
  - by rewrite IH.
Qed.

Lemma survivors_sublist {A} personas (rs : list (Res A)) :
  survivors personas rs `sublist_of` personas.
Proof.
  revert rs. induction personas as [|p rest IH]; intros rs.
  - destruct rs as [|[]]; constructor.
  - destruct rs as [|[a|e] rs]; cbn [survivors].
    + apply sublist_nil_l.
    + by apply sublist_skip.
    + by apply sublist_cons.
Qed.

Lemma failures_count {A} personas (rs : list (Res A)) :
  length rs = length personas →
  (length (successes rs) + length (failure_records personas rs) = length personas)%nat.
Proof.
  revert rs. induction personas as [|p rest IH]; intros [|[a|e] rs] Hlen;
    try done; cbn [successes failure_records length] in *;
    specialize (IH rs ltac:(lia)); lia.
Qed.

(** The loop never raises: it returns the records of the turns that
    succeeded, in order, after those it was given, and logs one failure
    record for each of the others. *)
Lemma review_loop_spec reviewer product personas reviews w :
  ∃ w', review_loop reviewer product personas reviews w
        = (Ok (reviews ++ successes (outcomes reviewer product personas w)), w') ∧
        loop_errors (log w') =
        loop_errors (log w) ++ failure_records personas (outcomes reviewer product personas w).
Proof.
  revert reviews w. induction personas as [|p rest IH]; intros reviews w.
  - exists w. cbn. by rewrite !app_nil_r.
  - cbn [review_loop outcomes].
    unfold mbind at 1, M_bind at 1, bind at 1, try_except at 1.
    unfold mbind at 1, M_bind at 1, bind at 1.
    destruct (review_persona reviewer product p w) as [[rec|e] w1] eqn:E;
      apply review_persona_spec in E as [Hlog _].
    + cbn [mret M_ret ret]. destruct (IH (reviews ++ [rec]) w1) as (w' & -> & Hlog').
      exists w'. cbn [successes failure_records]. split.
      * by rewrite <- app_assoc.
      * by rewrite Hlog', Hlog.
    + unfold mbind at 1, M_bind at 1, bind at 1.
      set (w2 := snd (logger ERROR "Error generating review for persona "
                        [ArgCell (SelectedPersona.name p); ArgExn e] w1)).
      change (logger ERROR "Error generating review for persona "
                [ArgCell (SelectedPersona.name p); ArgExn e] w1) with (Ok tt, w2).
      cbn [mret M_ret ret].
      destruct (IH reviews w2) as (w' & -> & Hlog').
      exists w'. cbn [successes failure_records]. split; [done|].
      rewrite Hlog'. unfold w2. cbn [logger snd log].
      fold (failure_record p e). rewrite loop_errors_failure, Hlog.
      by rewrite <- app_assoc.
Qed.

Lemma summarize_reviews_returns self reviews info w :
  ∃ s w', summarize_reviews self reviews info w = (Ok s, w').
Proof.
  unfold summarize_reviews, try_except, mbind, M_bind, bind.
  destruct (invoke_backend w) as [[response|e] w1].
  - destruct (from_json_never_raises response w1) as (r & w' & ->). by eexists _, _.
  - cbn. by eexists _, _.
Qed.

(** C4: the review loop never raises, whatever the personas and whatever
    the provider's calls do: it returns the records of the personas whose
    review was generated, in the order of the personas, and logs one failure
    record for each of the other personas.  When the selection and the
    construction of the reviewer succeed, [generate_product_reviews] returns,
    and its metadata report the number of selected personas and the number of
    records the loop returned, which is not larger. *)
Theorem review_loop_tolerates_failures :
  (∀ reviewer product personas w,
     let rs := outcomes reviewer product personas w in
     (∃ w', review_loop reviewer product personas [] w = (Ok (successes rs), w') ∧
            loop_errors (log w') = loop_errors (log w) ++ failure_records personas rs) ∧
     map persona (successes rs) = map persona_info (survivors personas rs) ∧
     survivors personas rs `sublist_of` personas ∧
     (length (successes rs) + length (failure_records personas rs) = length personas)%nat) ∧
  (∀ (self : Manager.t) product config w personas p,
     fst (get_selected_personas (persona_selector self) (persona_criteria config)
            (num_personas config) (randomize_if_insufficient config) w) = Ok personas →
     AIProvider_of (ai_provider config) = Ok p →
     client_check p (effective_config p (config_api_key config)
                       (default ∅ (config_model_config config))) = None →
     let reviewer :=
       mkReviewer p (config_api_key config) (default ∅ (config_model_config config))
         (Some (mkModel p (effective_config p (config_api_key config)
                             (default ∅ (config_model_config config))))) in
     let rs := outcomes reviewer product personas (after_construction self config w) in
     (length (successes rs) ≤ length personas)%nat ∧
     ∃ summary,
       fst (generate_product_reviews self product config w) =
       Ok (mkResult (product_info_of product) summary
             (mkMetadata (length personas) (length (successes rs)) (ai_provider config)))).
Proof.
  split.
  - intros reviewer product personas w rs. split_and!.
    + apply (review_loop_spec reviewer product personas [] w).
    + apply outcomes_personas.
    + apply survivors_sublist.
    + apply failures_count, outcomes_length.
  - intros self product config w personas p Hsel Hp Hcheck reviewer rs.
    split.
    { pose proof (failures_count personas rs (outcomes_length _ _ _ _)). lia. }
    unfold rs, after_construction. clear rs.
    unfold generate_product_reviews, after_selection, try_except.
    unfold mbind at 1, M_bind at 1, bind at 1.
    destruct (get_selected_personas _ _ _ _ w) as [r w1]. cbn [fst] in Hsel. subst r.
    unfold mbind at 1, M_bind at 1, bind at 1.
    set (w1' := snd (logger INFO "Selected personas for review generation"
                       [ArgInt (Z.of_nat (length personas))] w1)).
    change (logger INFO "Selected personas for review generation"
              [ArgInt (Z.of_nat (length personas))] w1) with (Ok tt, w1').
    cbv iota beta.
    unfold mbind at 1, M_bind at 1, bind at 1.
    destruct (init_returns (ai_provider config) (config_api_key config)
                (config_model_config config) w1' p Hp Hcheck) as [w2 ->].
    cbn [snd]. fold reviewer.
    unfold mbind at 1, M_bind at 1, bind at 1.
    destruct (review_loop_spec reviewer product personas [] w2) as (w3 & -> & _).
    cbn [app]. unfold mbind at 1, M_bind at 1, bind at 1.
    destruct (summarize_reviews_returns (summarizer self)
                (map review (successes (outcomes reviewer product personas w2)))
                (product_info_of product) w3) as (summary & w4 & ->).
    by exists summary.
Qed.

End ManagerWithLibrary.

Lemma review_loop_tolerates_failures_witness :
  fst (get_selected_personas (persona_selector Desk.manager)
         (persona_criteria Desk.config) (num_personas Desk.config)
         (randomize_if_insufficient Desk.config) Desk.world) = Ok Desk.personas ∧
  AIProvider_of (ai_provider Desk.config) = Ok GEMINI ∧
  length Desk.personas = 5%nat ∧
  ∃ summary,
    fst (@generate_product_reviews integral_floats Desk.terse Desk.accept_all
           Desk.manager Desk.product Desk.config Desk.world) =
    Ok (mkResult (product_info_of Desk.product) summary
          (mkMetadata 5 4 (py "gemini"))).
Proof.
  assert (Hsel : fst (get_selected_personas (persona_selector Desk.manager)
                        (persona_criteria Desk.config) (num_personas Desk.config)
                        (randomize_if_insufficient Desk.config) Desk.world)
                 = Ok Desk.personas) by (vm_compute; reflexivity).
  assert (Hp : AIProvider_of (ai_provider Desk.config) = Ok GEMINI)
    by (vm_compute; reflexivity).
  assert (Hcount : length (successes
                     (outcomes (H:=integral_floats)
                        (mkReviewer GEMINI Desk.key ∅
                           (Some (mkModel GEMINI (effective_config GEMINI Desk.key ∅))))
                        Desk.product Desk.personas
                        (after_construction (H:=integral_floats) (H1:=Desk.accept_all)
                           Desk.manager Desk.config Desk.world))) = 4%nat)
    by (vm_compute; reflexivity).
  split; [exact Hsel|]. split; [exact Hp|]. split; [reflexivity|].
  destruct (proj2 (@review_loop_tolerates_failures integral_floats Desk.terse Desk.accept_all)
              Desk.manager Desk.product Desk.config Desk.world Desk.personas GEMINI
              Hsel Hp eq_refl) as [_ (summary & Hrun)].
  exists summary. cbv zeta in Hrun.
  change (default ∅ (config_model_config Desk.config)) with (∅ : gmap str (@pyval integral_floats))
    in Hrun.
  change (config_api_key Desk.config) with Desk.key in Hrun.
  rewrite Hcount in Hrun. exact Hrun.
Defined.

(** * Further properties of the code *)

(** ** Text cells and lists *)
Import MoreSpec.

Lemma lstrip_suffix p s : ∃ pre, s = pre ++ lstrip p s ∧ Forall (fun c => p c = true) pre.
Proof.
  induction s as [|c s (pre & E & Hpre)]; [by exists []|].
  cbn [lstrip]. destruct (p c) eqn:Ec.
  - exists (c :: pre). split; [by rewrite E at 1|by constructor].
  - by exists [].
Qed.

Lemma lstrip_head p s c : head (lstrip p s) = Some c → p c = false.
Proof.
  induction s as [|x s IH]; [done|]. cbn [lstrip].
  destruct (p x) eqn:Ex; [done|]. by intros [= <-].
Qed.

Lemma lstrip_id p s : (∀ c, head s = Some c → p c = false) → lstrip p s = s.
Proof. destruct s as [|c s]; [done|]. intros H. cbn [lstrip]. by rewrite (H c). Qed.

Lemma lstrip_Forall (Q : N → Prop) p s : Forall Q s → Forall Q (lstrip p s).
Proof.
  destruct (lstrip_suffix p s) as (pre & E & _). intros H. rewrite E in H.
  by apply Forall_app in H as [_ ?].
Qed.

Lemma lstrip_last p s c : last (lstrip p s) = Some c → last s = Some c.
Proof.
  destruct (lstrip_suffix p s) as (pre & E & _). intros H. rewrite E.
  destruct (lstrip p s) as [|x t]; [done|].
  by rewrite last_app, H.
Qed.

Lemma strip_Forall (Q : N → Prop) p s : Forall Q s → Forall Q (strip p s).
Proof.
  intros H. unfold strip. apply Forall_rev, lstrip_Forall, Forall_rev.
  by apply lstrip_Forall.
Qed.

Lemma head_rev {A} (l : list A) : head (rev l) = last l.
Proof.
  induction l as [|x l IH] using rev_ind; [done|].
  by rewrite rev_app_distr, last_snoc.
Qed.

Lemma last_rev {A} (l : list A) : last (rev l) = head l.
Proof. by rewrite <- head_rev, rev_involutive. Qed.

Lemma strip_last p s c : last (strip p s) = Some c → p c = false.
Proof. unfold strip. rewrite last_rev. apply lstrip_head. Qed.

Lemma strip_head p s c : head (strip p s) = Some c → p c = false.
Proof.
  unfold strip. rewrite head_rev. intros H%lstrip_last.
  rewrite last_rev in H. by apply lstrip_head in H.
Qed.

Lemma strip_id p s :
  (∀ c, head s = Some c → p c = false) → (∀ c, last s = Some c → p c = false) →
  strip p s = s.
Proof.
  intros Hh Hl. unfold strip. rewrite (lstrip_id p s) by done.
  rewrite lstrip_id, rev_involutive; [done|]. intros c. rewrite head_rev. apply Hl.
Qed.

(** The pieces [split(',')] cuts. *)
Lemma split_comma_pieces (Q : N → Prop) cur s piece :
  Forall Q cur → Forall Q s → piece ∈ split_comma cur s →
  Forall Q piece ∧ (Forall (fun c => c ≠ ch ",") cur → Forall (fun c => c ≠ ch ",") piece).
Proof.
  revert cur. induction s as [|c s IH]; intros cur Hcur Hs; cbn [split_comma].
  - intros ->%list_elem_of_singleton. split; [by apply Forall_rev|by apply Forall_rev].
  - apply Forall_cons in Hs as [Hc Hs]. destruct (N.eqb_spec c (ch ",")) as [->|Hne].
    + intros [->|Hin]%elem_of_cons.
      * split; by apply Forall_rev.
      * destruct (IH [] ltac:(constructor) Hs Hin) as [H1 H2].
        split; [done|]. intros _. by apply H2.
    + intros Hin. destruct (IH (c :: cur) ltac:(by constructor) Hs Hin) as [H1 H2].
      split; [done|]. intros Hcomma. apply H2. by constructor.
Qed.

(** X1: every item that [_convert_string_to_list] cuts out of a text cell
    is non-empty, has no white space at either end, and holds neither a
    comma nor a quote; a cell that is a list already is returned as it is,
    and a blank or numeric cell gives the empty list. *)
Theorem converted_items_tidy :
  (∀ s item, item ∈ _convert_string_to_list (CStr s) → tidy item) ∧
  (∀ l, _convert_string_to_list (CList l) = l) ∧
  _convert_string_to_list CNull = [] ∧
  (∀ z, _convert_string_to_list (CNum z) = []).
Proof.
  split; [|done]. intros s item Hin.
  destruct s as [|c0 s0]; [by apply elem_of_nil in Hin|].
  cbn [_convert_string_to_list] in Hin.
  set (cleaned := filter _ (strip is_bracket_or_quote (c0 :: s0))) in Hin.
  apply list_elem_of_filter in Hin as [Hne Hin].
  apply list_elem_of_In, in_map_iff in Hin as (piece & <- & Hpiece%list_elem_of_In).
  assert (Hclean : Forall (fun c => is_quote c = false) cleaned).
  { apply Forall_forall. intros c [Hc _]%list_elem_of_filter.
    by apply negb_prop_elim, Is_true_false in Hc. }
  destruct (split_comma_pieces (fun c => is_quote c = false) [] cleaned piece)
    as [Hq Hcomma]; [constructor|done|done|].
  specialize (Hcomma ltac:(constructor)).
  split_and!.
  - intros E. rewrite E in Hne. by apply negb_prop_elim in Hne.
  - apply strip_head.
  - apply strip_last.
  - apply strip_Forall. apply Forall_forall. intros c Hc.
    rewrite Forall_forall in Hq, Hcomma. split; [by apply Hcomma|by apply Hq].
Qed.

Lemma split_comma_app cur x s :
  Forall (fun c => c ≠ ch ",") x → split_comma cur (x ++ s) = split_comma (rev x ++ cur) s.
Proof.
  revert cur. induction x as [|c x IH]; intros cur Hx; [done|].
  apply Forall_cons in Hx as [Hc Hx]. cbn [app split_comma].
  apply N.eqb_neq in Hc as ->. rewrite IH by done.
  cbn [rev]. by rewrite <- app_assoc.
Qed.

Lemma join_cons_head sep (c : N) y rest :
  join sep ((c :: y) :: rest) = c :: join sep (y :: rest).
Proof. by destruct rest. Qed.

Lemma split_join x rest :
  Forall (Forall (fun c => c ≠ ch ",")) (x :: rest) →
  split_comma [] (join comma_space (x :: rest)) = x :: map (cons SPACE) rest.
Proof.
  revert x. induction rest as [|y rest IH]; intros x Hall.
  - apply Forall_cons in Hall as [Hx _]. cbn [join map].
    rewrite <- (app_nil_r x) at 1. rewrite split_comma_app by done.
    cbn [split_comma]. by rewrite app_nil_r, rev_involutive.
  - apply Forall_cons in Hall as [Hx Hall].
    change (join comma_space (x :: y :: rest))
      with (x ++ comma_space ++ join comma_space (y :: rest)).
    rewrite split_comma_app by done.
    change (comma_space ++ join comma_space (y :: rest))
      with (ch "," :: SPACE :: join comma_space (y :: rest)).
    rewrite <- (join_cons_head comma_space SPACE y rest).
    set (J := join comma_space ((SPACE :: y) :: rest)).
    cbn [split_comma]. change (ch "," =? ch ",")%N with true. cbv iota.
    rewrite app_nil_r, rev_involutive. f_equal. unfold J. rewrite IH; [done|].
    apply Forall_cons in Hall as [Hy Hall]. constructor; [|done].
    by constructor.
Qed.

Lemma strip_space_tidy y : tidy y → strip is_space y = y ∧ strip is_space (SPACE :: y) = y.
Proof.
  intros (Hne & Hhead & Hlast & _).
  assert (E : strip is_space y = y) by (by apply strip_id).
  split; [done|]. unfold strip in *. by cbn [lstrip].
Qed.

Lemma join_Forall (Q : N → Prop) sep l :
  Forall Q sep → Forall (Forall Q) l → Forall Q (join sep l).
Proof.
  intros Hsep Hl. induction Hl as [|x l Hx Hl IH]; [constructor|].
  destruct l as [|y l]; [done|].
  change (join sep (x :: y :: l)) with (x ++ sep ++ join sep (y :: l)).
  rewrite !Forall_app. by split_and!.
Qed.

Lemma filter_all {A} (p : A → bool) (l : list A) :
  Forall (fun x => p x = true) l → filter (fun x => p x) l = l.
Proof.
  induction 1 as [|x l Hx _ IH]; [done|].
  by rewrite filter_bool_cons, Hx, IH.
Qed.

(** X2: the text [to_reviewer_profile] writes for a list of plain items
    (non-empty, no white space at either end, no comma, quote or bracket) is
    read back by [_convert_string_to_list] as the same list. *)
Theorem join_then_convert (l : list str) :
  Forall plain l → _convert_string_to_list (CStr (join comma_space l)) = l.
Proof.
  intros Hl. destruct l as [|x rest]; [done|].
  assert (Hbr : Forall (fun c => is_bracket_or_quote c = false)
                  (join comma_space (x :: rest))).
  { apply join_Forall; [by repeat constructor|].
    eapply Forall_impl; [exact Hl|]. by intros y [_ ?]. }
  assert (Hcomma : Forall (Forall (fun c => c ≠ ch ",")) (x :: rest)).
  { eapply Forall_impl; [exact Hl|]. intros y [(_ & _ & _ & Hy) _].
    eapply Forall_impl; [exact Hy|]. by intros c [? _]. }
  assert (Hx : tidy x) by (by apply Forall_cons in Hl as [[? _] _]).
  assert (Hrest : Forall tidy rest).
  { apply Forall_cons in Hl as [_ Hl]. eapply Forall_impl; [exact Hl|]. by intros y [? _]. }
  destruct (join comma_space (x :: rest)) as [|c0 s0] eqn:Ej.
  { destruct Hx as [Hne _]. destruct x; [done|]. by rewrite join_cons_head in Ej. }
  cbn [_convert_string_to_list]. rewrite <- Ej in *.
  rewrite strip_id; cycle 1.
  { intros c Hc. rewrite Forall_forall in Hbr. apply Hbr.
    destruct (join comma_space (x :: rest)); [done|]. injection Hc as ->. by left. }
  { intros c Hc. rewrite Forall_forall in Hbr. apply Hbr.
    apply last_Some in Hc as [pre ->]. apply elem_of_app. right. by left. }
  rewrite (filter_all (fun c => negb (is_quote c))); cycle 1.
  { eapply Forall_impl; [exact Hbr|]. intros c Hc. apply negb_true_iff.
    unfold is_bracket_or_quote, is_quote in *.
    apply bool_decide_eq_false in Hc. apply bool_decide_eq_false.
    intros Hin. apply Hc. by do 2 apply list_elem_of_further. }
  rewrite split_join by done. cbn [map].
  rewrite (proj1 (strip_space_tidy x Hx)).
  assert (Hmap : map (strip is_space) (map (cons SPACE) rest) = rest).
  { clear -Hrest. induction Hrest as [|y rest Hy _ IH]; [done|].
    cbn [map]. by rewrite (proj2 (strip_space_tidy y Hy)), IH. }
  rewrite Hmap. apply (filter_all (fun item => negb (bool_decide (item = [])))).
  apply Forall_forall. intros y Hy. apply negb_true_iff, bool_decide_eq_false.
  assert (tidy y) as [? _]; [|done].
  apply elem_of_cons in Hy as [->|Hy]; [done|]. rewrite Forall_forall in Hrest. by apply Hrest.
Qed.

Lemma join_then_convert_witness :
  Forall plain [py "chess"; py "rock climbing"] ∧
  _convert_string_to_list (CStr (join comma_space [py "chess"; py "rock climbing"]))
  = [py "chess"; py "rock climbing"].
Proof.
  assert (H : Forall plain [py "chess"; py "rock climbing"]).
  { repeat constructor; try done; try (by intros c [= <-]);
      by apply (bool_decide_unpack _). }
  split; [exact H|]. exact (join_then_convert _ H).
Defined.

(** ** The catalog and the normalised store *)

Lemma NoDup_unique_from {A} `{EqDecision A} (seen l : list A) : NoDup (unique_from seen l).
Proof.
  revert seen. induction l as [|x l IH]; intros seen; cbn [unique_from]; [constructor|].
  case_bool_decide as Hx; [apply IH|].
  constructor; [|apply IH]. rewrite elem_of_unique_from. intros [_ Hn]. apply Hn. by left.
Qed.

Lemma NoDup_unique {A} `{EqDecision A} (l : list A) : NoDup (unique l).
Proof. apply NoDup_unique_from. Qed.

Lemma mapM_ok_elems {A B} (g : A → Res B) (l : list A) ys y :
  res_mapM g l = Ok ys → y ∈ ys ↔ ∃ x, x ∈ l ∧ g x = Ok y.
Proof.
  revert ys. induction l as [|a l IH]; intros ys H.
  - injection H as <-. split; [by intros ?%elem_of_nil|by intros (x & ?%elem_of_nil & _)].
  - cbn [res_mapM] in H. destruct (g a) as [b|e] eqn:Ea; [|done].
    destruct (res_mapM g l) as [bs|e] eqn:El; [|done]. injection H as <-.
    rewrite elem_of_cons, (IH bs eq_refl). split.
    + intros [->|(x & Hx & Hg)]; [exists a; split; [by left|done]|].
      exists x. split; [by right|done].
    + intros (x & [->|Hx]%elem_of_cons & Hg); [left; congruence|].
      right. by exists x.
Qed.

Lemma column_inv f (c : string) l :
  column f c = Ok l → ∀ v, v ∈ l ↔ occurs f c v.
Proof.
  unfold column. destruct (str_in (py c) (columns f)); [|done]. intros [= <-] v.
  unfold occurs. rewrite list_elem_of_In, in_map_iff.
  split; intros (r & H1 & H2); exists r; [by apply list_elem_of_In in H2|].
  split; [done|by apply list_elem_of_In].
Qed.

Lemma flatten_inv f (c : string) l :
  flatten_column f c = Ok l → ∀ h, h ∈ l ↔ listed f c h.
Proof.
  unfold flatten_column, mbind, res_mbind, res_bind.
  destruct (res_mapM _ (rows f)) as [ls|e] eqn:E; [|done]. intros [= <-] h.
  unfold listed. rewrite list_elem_of_In, in_concat. split.
  - intros (x & Hx%list_elem_of_In & Hh%list_elem_of_In).
    apply (mapM_ok_elems _ _ _ _ E) in Hx as (r & Hr & Hg). by exists r, x.
  - intros (r & x & Hr & Hg & Hh). exists x. split; apply list_elem_of_In; [|done].
    apply (mapM_ok_elems _ _ _ _ E). by exists r.
Qed.

(** X3: when [_cache_unique_values] returns, the catalog it stored has
    no value twice in any of its six lists, the lists of professions,
    nationalities and salary ranges hold exactly the cells that occur in
    those columns of the store, and the lists of hobbies, priorities and
    constraints hold exactly the values that some record lists. *)
Theorem cached_catalog_is_exact l f w uv :
  heap w !! l = Some (OFrame f) →
  fst (_cache_unique_values l w) = Ok uv →
  ∃ cat,
    heap (snd (_cache_unique_values l w)) !! uv = Some (ODict cat) ∧
    (NoDup (Catalog.professions cat) ∧ NoDup (Catalog.nationalities cat) ∧
     NoDup (Catalog.salary_ranges cat) ∧ NoDup (Catalog.hobbies cat) ∧
     NoDup (Catalog.priorities cat) ∧ NoDup (Catalog.constraints cat)) ∧
    (∀ v, v ∈ Catalog.professions cat ↔ occurs f "profession" v) ∧
    (∀ v, v ∈ Catalog.nationalities cat ↔ occurs f "nationality" v) ∧
    (∀ v, v ∈ Catalog.salary_ranges cat ↔ occurs f "salary_range" v) ∧
    (∀ h, h ∈ Catalog.hobbies cat ↔ listed f "hobbies" h) ∧
    (∀ h, h ∈ Catalog.priorities cat ↔ listed f "priorities" h) ∧
    (∀ h, h ∈ Catalog.constraints cat ↔ listed f "constraints" h).
Proof.
  intros Hf. unfold _cache_unique_values, try_except, mbind, M_bind, bind, lift.
  rewrite (read_frame_at _ _ _ Hf).
  destruct (compute_unique_values f) as [cat|e] eqn:E; [|done].
  unfold alloc. cbn [fst snd]. intros [= <-]. exists cat. cbn [heap].
  split; [apply lookup_alloc|].
  unfold compute_unique_values, mbind, res_mbind, res_bind in E.
  destruct (column f "profession") as [p|] eqn:Ep; [|done].
  destruct (column f "nationality") as [n|] eqn:En; [|done].
  destruct (column f "salary_range") as [s|] eqn:Es; [|done].
  destruct (column f "hobbies"); [|done].
  destruct (flatten_column f "hobbies") as [h|] eqn:Eh; [|done].
  destruct (column f "priorities"); [|done].
  destruct (flatten_column f "priorities") as [q|] eqn:Eq; [|done].
  destruct (column f "constraints"); [|done].
  destruct (flatten_column f "constraints") as [c|] eqn:Ec; [|done].
  injection E as <-. cbn.
  split; [split_and!; apply NoDup_unique|].
  split_and!; intros v; rewrite elem_of_unique.
  - by apply column_inv.
  - by apply column_inv.
  - by apply column_inv.
  - by apply flatten_inv.
  - by apply flatten_inv.
  - by apply flatten_inv.
Qed.

Lemma cached_catalog_is_exact_witness :
  heap Sheet.world !! df Sheet.self = Some (OFrame Sheet.store) ∧
  fst (_cache_unique_values (df Sheet.self) Sheet.world) = Ok 2%nat ∧
  ∃ cat,
    heap (snd (_cache_unique_values (df Sheet.self) Sheet.world)) !! 2%nat
      = Some (ODict cat) ∧
    NoDup (Catalog.hobbies cat) ∧
    (∀ h, h ∈ Catalog.hobbies cat ↔ listed Sheet.store "hobbies" h).
Proof.
  assert (H1 : heap Sheet.world !! df Sheet.self = Some (OFrame Sheet.store))
    by reflexivity.
  assert (H2 : fst (_cache_unique_values (df Sheet.self) Sheet.world) = Ok 2%nat)
    by (vm_compute; reflexivity).
  split; [exact H1|]. split; [exact H2|].
  destruct (cached_catalog_is_exact _ _ _ _ H1 H2)
    as (cat & Hcat & (_ & _ & _ & Hnd & _) & _ & _ & _ & Hh & _).
  exists cat. split; [exact Hcat|]. split; [exact Hnd|exact Hh].
Defined.

(** *** Loading twice *)

Lemma dtype_all_false f c :
  (∀ r, r ∈ rows f → is_object_cell (at_col r c) = false) → dtype_is_object f c = false.
Proof.
  intros H. unfold dtype_is_object. apply not_true_is_false. intros E.
  apply existsb_exists in E as (r & Hr%list_elem_of_In & Hc). by rewrite (H r Hr) in Hc.
Qed.

Lemma at_col_list (r : Row) c l : at_col r c = CList l → r !! c = Some (CList l).
Proof. unfold at_col. destruct (r !! c) as [v|]; cbn; [by intros ->|done]. Qed.

Lemma convert_if_settled (col : string) g :
  py col ∈ columns g →
  (dtype_is_object g (py col) = true →
   ∀ r, r ∈ rows g → ∃ l, at_col r (py col) = CList l) →
  convert_if col g = g.
Proof.
  intros Hcol Hlists. unfold convert_if.
  destruct (dtype_is_object g (py col)) eqn:Ed; [|done].
  specialize (Hlists eq_refl). destruct g as [cols rs].
  unfold apply_convert at 1, setitem. cbn [columns rows] in *. f_equal.
  - unfold str_in. by rewrite bool_decide_eq_true_2.
  - rewrite zip_with_fmap_r, zip_with_diag.
    transitivity (id <$> rs); [|by rewrite list_fmap_id].
    apply list_fmap_ext. intros i r Hr.
    destruct (Hlists r) as [l Hl]; [by eapply list_elem_of_lookup_2|].
    rewrite Hl. cbn [_convert_string_to_list]. by apply insert_id, at_col_list.
Qed.

Lemma normalize_settled f (col : string) :
  py col ∈ list_columns →
  dtype_is_object (normalize f) (py col) = true →
  ∀ r, r ∈ rows (normalize f) → ∃ l, at_col r (py col) = CList l.
Proof.
  intros Hcol Hd.
  destruct (dtype_is_object f (py col)) eqn:Ef.
  - intros r' Hr'. apply list_elem_of_lookup_1 in Hr' as [i Hi].
    destruct (normalize_lookup f i r' Hi) as (r & _ & _ & Hl).
    rewrite (Hl _ Hcol), Ef. by eexists.
  - rewrite dtype_all_false in Hd; [done|].
    intros r' Hr'. apply list_elem_of_lookup_1 in Hr' as [i Hi].
    destruct (normalize_lookup f i r' Hi) as (r & Hr & _ & Hl).
    rewrite (Hl _ Hcol), Ef. apply (dtype_false_cell f); [done|].
    by eapply list_elem_of_lookup_2.
Qed.

Lemma normalize_idempotent f :
  required_columns ⊆ columns f → normalize (normalize f) = normalize f.
Proof.
  intros Hreq.
  assert (Hcols : ∀ c : string, py c ∈ required_columns → py c ∈ columns (normalize f)).
  { intros c Hc. by apply columns_normalize, Hreq. }
  unfold normalize at 1.
  rewrite (convert_if_settled "hobbies" (normalize f));
    [|apply Hcols; by apply (bool_decide_unpack _)
     |apply normalize_settled; by apply (bool_decide_unpack _)].
  rewrite (convert_if_settled "priorities" (normalize f));
    [|apply Hcols; by apply (bool_decide_unpack _)
     |apply normalize_settled; by apply (bool_decide_unpack _)].
  apply convert_if_settled;
    [apply Hcols; by apply (bool_decide_unpack _)
    |apply normalize_settled; by apply (bool_decide_unpack _)].
Qed.

(** X4: [prepare_dataframe] is idempotent: when it has returned, running
    it again on the same store returns too and leaves every object,
    the store included, as it is. *)
Theorem prepare_dataframe_idempotent l f w :
  heap w !! l = Some (OFrame f) →
  fst (prepare_dataframe l w) = Ok tt →
  fst (prepare_dataframe l (snd (prepare_dataframe l w))) = Ok tt ∧
  heap (snd (prepare_dataframe l (snd (prepare_dataframe l w))))
  = heap (snd (prepare_dataframe l w)).
Proof.
  intros Hf Hok.
  destruct (decide (required_columns ⊆ columns f)) as [Hreq|Hreq].
  - destruct (prepare_spec l f w Hf Hreq) as (w1 & E1 & Hw1). rewrite E1. cbn [snd].
    assert (Hf1 : heap w1 !! l = Some (OFrame (normalize f))).
    { rewrite Hw1. apply list_lookup_insert_eq. by eapply lookup_lt_Some. }
    destruct (prepare_spec l (normalize f) w1 Hf1) as (w2 & E2 & Hw2).
    { etrans; [exact Hreq|apply columns_normalize]. }
    rewrite E2. cbn [fst snd]. split; [done|].
    rewrite Hw2, normalize_idempotent by done. by apply list_insert_id.
  - rewrite (prepare_missing l f w Hf Hreq) in Hok. done.
Qed.

Lemma prepare_dataframe_idempotent_witness :
  heap Sheet.world !! df Sheet.self = Some (OFrame Sheet.store) ∧
  fst (prepare_dataframe (df Sheet.self) Sheet.world) = Ok tt ∧
  fst (prepare_dataframe (df Sheet.self)
         (snd (prepare_dataframe (df Sheet.self) Sheet.world))) = Ok tt.
Proof.
  assert (H1 : heap Sheet.world !! df Sheet.self = Some (OFrame Sheet.store))
    by reflexivity.
  assert (H2 : fst (prepare_dataframe (df Sheet.self) Sheet.world) = Ok tt)
    by (vm_compute; reflexivity).
  split; [exact H1|]. split; [exact H2|].
  exact (proj1 (prepare_dataframe_idempotent _ _ _ H1 H2)).
Defined.

(** ** The generation provider *)
Import Provider.

Lemma lower_value p : lower (value p) = value p.
Proof. by destruct p. Qed.

Lemma AIProvider_of_value p : AIProvider_of (value p) = Ok p.
Proof. by destruct p. Qed.

Lemma AIProvider_of_Ok s p : AIProvider_of s = Ok p ↔ lower s = value p.
Proof.
  unfold AIProvider_of, str_eqb. cbv zeta.
  case_bool_decide as E1; [rewrite E1; split; [by intros [= <-]|by destruct p]|].
  case_bool_decide as E2; [rewrite E2; split; [by intros [= <-]|by destruct p]|].
  split; [done|]. by destruct p.
Qed.

Lemma AIProvider_of_Raise s e : AIProvider_of s = Raise e → e = ValueError.
Proof.
  unfold AIProvider_of. cbv zeta.
  destruct (str_eqb _ _); [done|]. destruct (str_eqb _ _); [done|]. by intros [= <-].
Qed.

Section ReviewerOutcomes.
Context `{PyFloat} `{!ClientLibrary}.

(** X5: the three ways [ProductReviewer(provider, api_key, model_config)]
    ends.  An identifier that is neither [gemini] nor [openai] in any
    casing raises [ValueError] before anything is logged; an exception of the
    client's constructor is logged once at error level and raised again;
    otherwise the reviewer is returned after one info record, and its
    [provider_name] is the identifier in lower case. *)
Theorem reviewer_construction_outcomes (provider api_key : str)
    (model_config : option Config) (w : World) :
  match AIProvider_of provider with
  | Raise e =>
      e = ValueError ∧
      Reviewer.__init__ provider api_key model_config w = (Raise ValueError, w)
  | Ok p =>
      lower provider = value p ∧
      match client_check p (effective_config p api_key (default ∅ model_config)) with
      | Some e =>
          ∃ w', Reviewer.__init__ provider api_key model_config w = (Raise e, w') ∧
                log w' = log w ++ [mkLog ERROR (py "Error initializing model: ")
                                     [ArgStr (value p); ArgExn e]]
      | None =>
          ∃ r w', Reviewer.__init__ provider api_key model_config w = (Ok r, w') ∧
                  provider_name r = lower provider ∧
                  log w' = log w ++ [mkLog INFO (py (initialized p)) []]
      end
  end.
Proof.
  unfold Reviewer.__init__, _initialize_model, new_client, try_except, lift, logger,
    mbind, M_bind, bind, mret, M_ret, ret, raise.
  destruct (AIProvider_of provider) as [p|e] eqn:Ep.
  - apply AIProvider_of_Ok in Ep. split; [done|].
    cbn [Reviewer.provider Reviewer.api_key Reviewer.model_config].
    destruct (client_check p _) as [e|].
    + eexists. split; reflexivity.
    + eexists _, _. split; [reflexivity|]. split; [|reflexivity].
      unfold provider_name. cbn [Reviewer.provider]. done.
  - apply AIProvider_of_Raise in Ep as ->. done.
Qed.

(** X6: [switch_provider] on a reviewer.  When it returns, the reviewer
    is the one a fresh construction with the new arguments gives, with the
    same effect on the log.  When the new identifier is unknown, it raises
    [ValueError] and the reviewer is untouched.  When the client's
    constructor raises, the reviewer is left with the new provider, key and
    configuration but with the client it had before. *)
Theorem switch_provider_outcomes (self : ProductReviewer) (new_provider new_api_key : str)
    (new_model_config : option Config) (w : World) :
  match switch_provider self new_provider new_api_key new_model_config w with
  | ((Ok _, self'), w') =>
      Reviewer.__init__ new_provider new_api_key new_model_config w = (Ok self', w')
  | ((Raise e, self'), w') =>
      fst (Reviewer.__init__ new_provider new_api_key new_model_config w) = Raise e ∧
      match AIProvider_of new_provider with
      | Raise _ => self' = self ∧ w' = w
      | Ok p =>
          self' = mkReviewer p new_api_key (default ∅ new_model_config) (model self) ∧
          client_check p (effective_config p new_api_key (default ∅ new_model_config))
          = Some e
      end
  end.
Proof.
  unfold switch_provider, Reviewer.__init__, _initialize_model, new_client, try_except,
    lift, logger, mbind, M_bind, bind, mret, M_ret, ret, raise.
  destruct (AIProvider_of new_provider) as [p|e]; [|done].
  cbn [Reviewer.provider Reviewer.api_key Reviewer.model_config].
  by destruct (client_check p _) as [e|].
Qed.

(** X7: one call of [generate_review] on a reviewer that has a client.
    A profile whose nationality or profession is not text raises
    [AttributeError] before the backend is called: no reply is consumed and
    nothing is logged.  Otherwise the backend is called exactly once: its
    reply becomes the final review and the content of the single message of
    the session, of role [ai], stamped with the time of the call; its
    exception is logged once at error level and raised again. *)
Theorem generate_review_outcomes (self : ProductReviewer) (product : Product)
    (profile : ReviewerProfile) (w : World) (m : ChatModel) :
  model self = Some m →
  match _generate_system_prompt profile with
  | Raise e =>
      ((∀ s, profile_nationality profile ≠ CStr s) ∨
       (∀ s, profile_profession profile ≠ CStr s)) ∧
      generate_review self product profile w = (Raise AttributeError, w)
  | Ok _ =>
      (∃ s, profile_nationality profile = CStr s) ∧
      (∃ s, profile_profession profile = CStr s) ∧
      match invoke_backend w with
      | (Ok reply, w1) =>
          ∃ w', generate_review self product profile w
                = (Ok (mkSession [mkMessage (py "ai") reply (clock w)] (Some reply)), w') ∧
                backend w' = backend w1 ∧ log w' = log w ∧ clock w' = S (clock w)
      | (Raise e, w1) =>
          ∃ w', generate_review self product profile w = (Raise e, w') ∧
                backend w' = backend w1 ∧
                log w' = log w ++ [mkLog ERROR (py "Error in processing message: ")
                                     [ArgExn e]]
      end
  end.
Proof.
  intros Hm.
  unfold generate_review, _process_message, invoke, add_message, now, logger,
    try_except, lift, mbind, M_bind, bind, mret, M_ret, ret, raise.
  rewrite Hm.
  unfold _generate_system_prompt, as_text, mbind, res_mbind, res_bind.
  destruct (profile_nationality profile) as [| |nat|] eqn:En;
    try (split; [left; by intros s|done]).
  destruct (profile_profession profile) as [| |prof|] eqn:Ep;
    try (split; [right; by intros s|done]).
  split; [by eexists|]. split; [by eexists|].
  unfold invoke_backend. destruct (backend w) as [|[reply|e] rest]; cbn.
  - by eexists.
  - by eexists.
  - by eexists.
Qed.

End ReviewerOutcomes.

Lemma generate_review_outcomes_witness :
  model Desk.tuned = Some (mkModel OPENAI (effective_config OPENAI Desk.key Desk.overlay)) ∧
  (∃ w', generate_review Desk.tuned Desk.product Bench.profile Desk.world
         = (Ok (mkSession [mkMessage (py "ai") (py "REVIEW: I would buy it, 80%.")
                             (clock Desk.world)]
                  (Some (py "REVIEW: I would buy it, 80%."))), w') ∧
         log w' = log Desk.world) ∧
  generate_review Desk.tuned Desk.product Bench.stateless Desk.world
  = (Raise AttributeError, Desk.world).
Proof.
  split; [reflexivity|]. split.
  - destruct (generate_review_outcomes (H:=integral_floats) Desk.tuned Desk.product
                Bench.profile Desk.world _ eq_refl) as (_ & _ & w' & Hrun & _ & Hlog & _).
    exists w'. split; [exact Hrun|exact Hlog].
  - exact (proj2 (generate_review_outcomes (H:=integral_floats) Desk.tuned Desk.product
                    Bench.stateless Desk.world _ eq_refl)).
Defined.

(** ** The summarizer *)

Section SummaryExtras.
Context `{PyFloat}.



End SummaryExtras.


Lemma find_from_app (c : N) (prose s : str) i :
  c ∉ prose → find_from c (prose ++ c :: s) i = i + Z.of_nat (length prose).
Proof.
  revert i. induction prose as [|x prose IH]; intros i Hc; cbn [app find_from length].
  - rewrite N.eqb_refl. lia.
  - apply not_elem_of_cons in Hc as [Hx Hc].
    replace (x =? c)%N with false by (symmetry; by apply N.eqb_neq).
    rewrite IH by done. lia.
Qed.

Section ProseWithFloat.
Context `{PyFloat} `{!ReprRoundTrip}.

(** A printed dict is read back whatever follows its closing brace. *)
Lemma dict_reads_back_anywhere d level rest :
  value_ok (PDict d) → scans (encode level (PDict d) ++ rest) (Ok (PDict d, rest)).
Proof.
  intros Hok. apply value_ok_dict in Hok as [Hnd Hok]. destruct d as [|[k x] d].
  { by exists 1%nat. }
  apply Forall_cons in Hok as [[Hk Hx] Hok]. cbn [fst snd] in Hk, Hx.
  destruct (scans_members level rest d) with (k := k) (x := x)
    (pairs := @nil (str * pyval)) as [n Hn].
  - rewrite Forall_forall in Hok |- *. intros kv Hkv.
    apply value_reads_back. by apply Hok.
  - done.
  - by apply value_reads_back.
  - done.
  - done.
  - done.
  - exists (S n). rewrite encode_dict. cbn [scan_once app]. unfold step_value.
    change (ch "{" =? DQUOTE)%N with false. change (ch "{" =? ch "{")%N with true.
    cbv iota. rewrite <- !app_assoc. cbn [app].
    rewrite skip_ws_indent by (by intros c [= <-]).
    done.
Qed.

(** X9: [from_json] tolerates text around the JSON object.  A reply made
    of any text without an opening brace, then what [to_json] writes for a
    summary that survives the round trip, then any text at all, is parsed
    into that summary when [print] succeeds, and nothing is logged. *)
Theorem from_json_tolerates_prose (r : ReviewSummary) (prose trailing : str) w :
  summary_ok r → stdout_writable w → ch "{" ∉ prose →
  ∃ w', from_json (prose ++ to_json r ++ trailing) w = (Ok r, w') ∧ log w' = log w.
Proof.
  intros Hok Hw Hprose.
  assert (Hstart : ∃ t, to_json r = ch "{" :: t).
  { unfold to_json, dumps, __dict__. rewrite encode_dict. by eexists. }
  destruct Hstart as [t Ht].
  assert (Hp : parse (prose ++ to_json r ++ trailing) = Ok r).
  { unfold parse, find. rewrite Ht. cbn [app]. rewrite find_from_app by done.
    unfold slice_from.
    replace (0 + Z.of_nat (length prose) <? 0) with false by (symmetry; apply Z.ltb_ge; lia).
    replace (Z.to_nat (0 + Z.of_nat (length prose))) with (length prose) by lia.
    rewrite drop_app_length.
    change (ch "{" :: t ++ trailing) with ((ch "{" :: t) ++ trailing). rewrite <- Ht.
    unfold to_json, dumps.
    rewrite (raw_decode_scans _ (Ok (PDict (__dict__ r), trailing))).
    - by destruct r.
    - apply dict_reads_back_anywhere. by apply dict_value_ok. }
  unfold from_json, try_except, bind, print, lift. rewrite Hp.
  unfold stdout_writable in Hw.
  destruct (stdout_faults w) as [|[e'|] t']; cbn; try done; by eexists.
Qed.

End ProseWithFloat.

Lemma from_json_tolerates_prose_witness :
  summary_ok Replies.positive ∧ stdout_writable Sheet.boot ∧
  (ch "{" ∉ Bench.fence_open) ∧
  ∃ w', @from_json integral_floats
          (Bench.fence_open ++ to_json Replies.positive ++ Bench.fence_close) Sheet.boot
        = (Ok Replies.positive, w') ∧ log w' = log Sheet.boot.
Proof.
  assert (Hok : summary_ok Replies.positive).
  { split_and!.
    - eexists. split; [reflexivity|by apply (bool_decide_unpack _)].
    - by eexists.
    - by eexists.
    - exists [py "battery life"; py "price"].
      split; [reflexivity|by apply (bool_decide_unpack _)].
    - exists [py "weight"]. split; [reflexivity|by apply (bool_decide_unpack _)].
    - exists [(py "age", py "younger buyers like it");
              (py "profession", py "engineers approve")].
      split_and!; [reflexivity|by apply (bool_decide_unpack _)..].
    - exists [py "value for money"]. split; [reflexivity|by apply (bool_decide_unpack _)].
    - eexists. split; [reflexivity|by apply (bool_decide_unpack _)].
    - eexists. split; [reflexivity|by apply (bool_decide_unpack _)]. }
  assert (Hfence : ch "{" ∉ Bench.fence_open) by (by apply (bool_decide_unpack _)).
  split; [exact Hok|]. split; [exact I|]. split; [exact Hfence|].
  exact (@from_json_tolerates_prose integral_floats integral_repr_round_trip
           Replies.positive Bench.fence_open Bench.fence_close Sheet.boot Hok I Hfence).
Defined.

(** ** The orchestrator and the summarizer's call *)

Section ManagerExtras.
Context `{PyFloat} `{ExnText} `{!ClientLibrary}.

(** X10: [summarize_reviews] never raises.  It calls the backend once;
    the reply is parsed by [from_json], with the fallback that implies; an
    exception of the call is logged once at error level and answered with the
    summary of a failed processing, whose detailed summary ends with the
    message of the exception. *)
Theorem summarize_reviews_outcomes (self : ReviewSummarizer) (reviews : list (option str))
    (info : ProductInfo) (w : World) :
  (∃ s w', summarize_reviews self reviews info w = (Ok s, w')) ∧
  match invoke_backend w with
  | (Ok text, w1) => summarize_reviews self reviews info w = from_json text w1
  | (Raise e, w1) =>
      ∃ w', summarize_reviews self reviews info w = (Ok (processing_failed e), w') ∧
            log w' = log w1 ++ [mkLog ERROR (py "Error in summarize_reviews: ") [ArgExn e]] ∧
            detailed_summary (processing_failed e)
            = PStr (py "Error occurred while processing reviews: " ++ exn_text e)
  end.
Proof.
  split; [apply summarize_reviews_returns|].
  unfold summarize_reviews, try_except, mbind, M_bind, bind.
  destruct (invoke_backend w) as [[text|e] w1].
  - by destruct (from_json_never_raises text w1) as (r & w' & ->).
  - eexists. by split_and!.
Qed.

(** One turn of the loop calls the backend at most once. *)
Lemma review_persona_backend reviewer product p w r w1 :
  review_persona reviewer product p w = (r, w1) →
  backend w1 = backend w ∨ backend w1 = drop 1 (backend w).
Proof.
  unfold review_persona, generate_review, _process_message, invoke, add_message, now,
    invoke_backend, logger, try_except, lift, mbind, M_bind, bind, mret, M_ret, ret, raise.
  destruct (to_reviewer_profile p) as [profile|e]; [|intros [= <- <-]; by left].
  destruct (_generate_system_prompt profile) as [system|e]; [|intros [= <- <-]; by left].
  destruct (model reviewer) as [m|]; [|cbn; intros [= <- <-]; by left].
  destruct (backend w) as [|[reply|e] replies] eqn:Eb; cbn; intros [= <- <-]; cbn;
    rewrite ?Eb; first [by left|by right].
Qed.

(** X11: the loop never retries.  Over a whole run of [review_loop] the
    backend is called at most once for each persona, the replies being
    consumed in order. *)
Theorem review_loop_calls_backend_once reviewer product personas reviews w :
  ∃ k, (k ≤ length personas)%nat ∧
       backend (snd (review_loop reviewer product personas reviews w)) = drop k (backend w).
Proof.
  revert reviews w. induction personas as [|p rest IH]; intros reviews w.
  - exists 0%nat. by rewrite drop_0.
  - cbn [review_loop].
    unfold mbind at 1, M_bind at 1, bind at 1, try_except at 1.
    unfold mbind at 1, M_bind at 1, bind at 1.
    destruct (review_persona reviewer product p w) as [[rec|e] w1] eqn:E;
      apply review_persona_backend in E.
    + cbn [mret M_ret ret]. destruct (IH (reviews ++ [rec]) w1) as (k & Hk & ->).
      destruct E as [-> | ->].
      * exists k. split; [cbn; lia|done].
      * exists (S k). split; [cbn; lia|]. by rewrite drop_drop.
    + unfold mbind at 1, M_bind at 1, bind at 1.
      set (w2 := snd (logger ERROR "Error generating review for persona "
                        [ArgCell (SelectedPersona.name p); ArgExn e] w1)).
      change (logger ERROR "Error generating review for persona "
                [ArgCell (SelectedPersona.name p); ArgExn e] w1) with (Ok tt, w2).
      cbn [mret M_ret ret]. destruct (IH reviews w2) as (k & Hk & ->).
      change (backend w2) with (backend w1).
      destruct E as [-> | ->].
      * exists k. split; [cbn; lia|done].
      * exists (S k). split; [cbn; lia|]. by rewrite drop_drop.
Qed.

(** X12: an exception of the selection aborts the run.
    [generate_product_reviews] raises the same exception, after one more
    error record; the same holds for an identifier of the provider that is
    not known, which raises [ValueError] once the personas are selected. *)
Theorem generate_product_reviews_aborts (self : Manager.t) product config w :
  (∀ e, fst (get_selected_personas (persona_selector self) (persona_criteria config)
               (num_personas config) (randomize_if_insufficient config) w) = Raise e →
        ∃ w', generate_product_reviews self product config w = (Raise e, w') ∧
              last (log w') = Some (mkLog ERROR (py "Error in review generation process: ")
                                      [ArgExn e])) ∧
  (∀ personas e,
        fst (get_selected_personas (persona_selector self) (persona_criteria config)
               (num_personas config) (randomize_if_insufficient config) w) = Ok personas →
        AIProvider_of (ai_provider config) = Raise e →
        ∃ w', generate_product_reviews self product config w = (Raise ValueError, w') ∧
              last (log w') = Some (mkLog ERROR (py "Error in review generation process: ")
                                      [ArgExn ValueError])).
Proof.
  split.
  - intros e Hsel. unfold generate_product_reviews, try_except.
    unfold mbind at 1, M_bind at 1, bind at 1.
    destruct (get_selected_personas _ _ _ _ w) as [r w1]. cbn [fst] in Hsel. subst r.
    unfold mbind, M_bind, bind, logger, raise. eexists. split; [reflexivity|].
    cbn [log]. by rewrite last_snoc.
  - intros personas e Hsel Hp. apply AIProvider_of_Raise in Hp as He. subst e.
    unfold generate_product_reviews, try_except.
    unfold mbind at 1, M_bind at 1, bind at 1.
    destruct (get_selected_personas _ _ _ _ w) as [r w1]. cbn [fst] in Hsel. subst r.
    unfold mbind at 1, M_bind at 1, bind at 1.
    set (w1' := snd (logger INFO "Selected personas for review generation"
                       [ArgInt (Z.of_nat (length personas))] w1)).
    change (logger INFO "Selected personas for review generation"
              [ArgInt (Z.of_nat (length personas))] w1) with (Ok tt, w1').
    cbv iota beta.
    unfold mbind at 1, M_bind at 1, bind at 1.
    unfold Reviewer.__init__ at 1, lift. unfold mbind at 1, M_bind at 1, bind at 1.
    rewrite Hp.
    unfold mbind, M_bind, bind, logger, raise. eexists. split; [reflexivity|].
    cbn [log]. by rewrite last_snoc.
Qed.

End ManagerExtras.

Lemma generate_product_reviews_aborts_witness :
  fst (get_selected_personas (persona_selector Desk.manager)
         (persona_criteria Bench.hopeless) (num_personas Bench.hopeless)
         (randomize_if_insufficient Bench.hopeless) Desk.world) = Raise ValueError ∧
  ∃ w', @generate_product_reviews integral_floats Desk.terse Desk.accept_all
          Desk.manager Desk.product Bench.hopeless Desk.world = (Raise ValueError, w').
Proof.
  assert (Hsel : fst (get_selected_personas (persona_selector Desk.manager)
                        (persona_criteria Bench.hopeless) (num_personas Bench.hopeless)
                        (randomize_if_insufficient Bench.hopeless) Desk.world)
                 = Raise ValueError) by (vm_compute; reflexivity).
  split; [exact Hsel|].
  destruct (proj1 (@generate_product_reviews_aborts integral_floats Desk.terse
                     Desk.accept_all Desk.manager Desk.product Bench.hopeless Desk.world)
              ValueError Hsel) as (w' & Hrun & _).
  by exists w'.
Defined.

(** ** From the store to the prompt *)

Lemma init_normalised f0 w0 self :
  fst (Selector.__init__ (Ok f0) w0) = Ok self →
  ∃ f cat, selector_state (snd (Selector.__init__ (Ok f0) w0)) self f cat ∧ normalised f.
Proof.
  destruct (init_spec f0 w0) as (r & w' & E & Hspec). rewrite E. cbn [fst snd].
  intros ->. case_bool_decide as Hreq; [|done].
  destruct (compute_unique_values (normalize f0)) as [cat|e] eqn:Ecat; [|done].
  destruct Hspec as (self' & [= <-] & Hstate).
  exists (normalize f0), cat. split; [done|].
  intros r' c Hr' Hc.
  pose proof (compute_unique_values_lists _ _ _ _ Ecat Hc Hr') as Hiter.
  apply list_elem_of_lookup_1 in Hr' as [i Hi].
  destruct (normalize_lookup f0 i r' Hi) as (r & Hr & _ & Hl).
  rewrite (Hl _ Hc) in Hiter |- *.
  destruct (dtype_is_object f0 c) eqn:Ed; [by eexists|].
  apply list_elem_of_lookup_2 in Hr.
  pose proof (dtype_false_cell f0 c r Ed Hr) as Hcell.
  by destruct (at_col r c).
Qed.

Lemma normalised_check f : normalisedb f = true → normalised f.
Proof.
  unfold normalisedb. rewrite forallb_forall. intros H r c Hr%list_elem_of_In Hc%list_elem_of_In.
  specialize (H r Hr). rewrite forallb_forall in H. specialize (H c Hc).
  destruct (at_col r c); try done. by eexists.
Qed.

Lemma store_persona_lists f r :
  normalised f → r ∈ rows f →
  ∃ h q k, to_reviewer_profile (persona_of r) = Ok (profile_of (persona_of r) h q k) ∧
           SelectedPersona.hobbies (persona_of r) = CList h ∧
           SelectedPersona.priorities (persona_of r) = CList q ∧
           SelectedPersona.constraints (persona_of r) = CList k.
Proof.
  intros Hn Hr.
  destruct (Hn r (py "hobbies") Hr) as [h Hh]; [by apply (bool_decide_unpack _)|].
  destruct (Hn r (py "priorities") Hr) as [q Hq]; [by apply (bool_decide_unpack _)|].
  destruct (Hn r (py "constraints") Hr) as [k Hk]; [by apply (bool_decide_unpack _)|].
  exists h, q, k. unfold to_reviewer_profile, profile_of, persona_of.
  cbn [SelectedPersona.hobbies SelectedPersona.priorities SelectedPersona.constraints
       SelectedPersona.profession SelectedPersona.age SelectedPersona.nationality
       SelectedPersona.salary_range].
  by rewrite Hh, Hq, Hk.
Qed.

Lemma generated_persona_lists c cat r :
  generated c cat r →
  ∃ h q k, to_reviewer_profile (persona_of r) = Ok (profile_of (persona_of r) h q k) ∧
           SelectedPersona.hobbies (persona_of r) = CList h ∧
           SelectedPersona.priorities (persona_of r) = CList q ∧
           SelectedPersona.constraints (persona_of r) = CList k.
Proof.
  intros (n & a & p & t & s & h & q & k & -> & _).
  exists h, q, k. by rewrite persona_of_series.
Qed.

(** X13: every persona that [get_selected_personas] returns from a store
    whose multi-valued columns hold lists, real or synthesized, has lists in
    its three multi-valued fields, and [to_reviewer_profile] turns it into a
    profile without raising, the lists joined with a comma and a space.  The
    store of a constructed selector is such a store. *)
Theorem selected_personas_have_profiles :
  (∀ f0 w0 self, fst (Selector.__init__ (Ok f0) w0) = Ok self →
     ∃ f cat, selector_state (snd (Selector.__init__ (Ok f0) w0)) self f cat ∧ normalised f) ∧
  (∀ self c n b w f cat ps p,
     selector_state w self f cat → normalised f →
     fst (get_selected_personas self c n b w) = Ok ps → p ∈ ps →
     ∃ h q k, to_reviewer_profile p = Ok (profile_of p h q k) ∧
              SelectedPersona.hobbies p = CList h ∧
              SelectedPersona.priorities p = CList q ∧
              SelectedPersona.constraints p = CList k).
Proof.
  split; [apply init_normalised|].
  intros self c n b w f cat ps p Hs Hn Hsel Hp.
  destruct (selection_spec self c n b w f cat Hs) as (r & w1 & E & _ & Hout).
  rewrite E in Hsel. cbn [fst] in Hsel. subst r.
  assert (Hreal : ∀ p, p ∈ matches c f →
            ∃ h q k, to_reviewer_profile p = Ok (profile_of p h q k) ∧
                     SelectedPersona.hobbies p = CList h ∧
                     SelectedPersona.priorities p = CList q ∧
                     SelectedPersona.constraints p = CList k).
  { intros p' [_ Hin]%list_elem_of_filter.
    apply list_elem_of_In, in_map_iff in Hin as (r & <- & Hr%list_elem_of_In).
    by apply (store_persona_lists f). }
  unfold outcome in Hout. destruct (matching c f) as [m|e]; [|done]. cbv zeta in Hout.
  destruct ((Z.of_nat (length (matches c f)) <? n) && b).
  - destruct Hout as (synth & -> & _ & Hall).
    apply elem_of_app in Hp as [Hp|Hp]; [by apply Hreal|].
    apply list_elem_of_In, in_map_iff in Hp as (r & <- & Hr%list_elem_of_In).
    rewrite Forall_forall in Hall. by eapply generated_persona_lists, Hall.
  - destruct (n <? Z.of_nat (length (matches c f))).
    + destruct ((n <? 0) && _); [done|]. destruct Hout as (ps' & [= ->] & _ & Hsub).
      apply Hreal. by eapply elem_of_submseteq.
    + injection Hout as ->. by apply Hreal.
Qed.

Lemma selected_personas_have_profiles_witness :
  selector_state Sheet.world Sheet.self Sheet.store Sheet.catalog ∧
  normalised Sheet.store ∧
  fst (get_selected_personas Sheet.self Sheet.no_criteria 5 true Desk.world)
  = Ok Desk.personas ∧
  ∀ p, p ∈ Desk.personas → is_ok (to_reviewer_profile p) = true.
Proof.
  assert (Hs : selector_state Desk.world Sheet.self Sheet.store Sheet.catalog).
  { split_and!; [reflexivity|reflexivity|]. by apply (bool_decide_unpack _). }
  assert (Hn : normalised Sheet.store)
    by (apply normalised_check; vm_compute; reflexivity).
  assert (Hsel : fst (get_selected_personas Sheet.self Sheet.no_criteria 5 true Desk.world)
                 = Ok Desk.personas) by (vm_compute; reflexivity).
  split; [exact Hs|]. split; [exact Hn|]. split; [exact Hsel|].
  intros p Hp.
  destruct (proj2 selected_personas_have_profiles Sheet.self Sheet.no_criteria 5 true
              Desk.world Sheet.store Sheet.catalog Desk.personas p Hs Hn Hsel Hp)
    as (h & q & k & -> & _). reflexivity.
Defined.

(** ** Ranking of the matching records *)

Lemma insert_desc_descending key r l :
  descending key l → descending key (insert_desc key r l).
Proof.
  induction l as [|x l IH]; intros Hd; cbn [insert_desc].
  - by split.
  - destruct Hd as [Hx Hd]. destruct (Z.leb_spec (key x) (key r)) as [Hlt|Hge].
    + split; [|by split]. constructor; [lia|].
      eapply Forall_impl; [exact Hx|]. intros y Hy. cbn beta in Hy. lia.
    + split; [|by apply IH].
      rewrite (insert_desc_perm key r l). constructor; [lia|done].
Qed.

Lemma sort_desc_descending key l : descending key (sort_desc key l).
Proof.
  induction l as [|r l IH]; [done|]. cbn [sort_desc foldr].
  by apply insert_desc_descending.
Qed.

Lemma descending_split {A} (key : A → Z) (l : list A) n p q :
  descending key l → p ∈ take n l → q ∈ drop n l → key q ≤ key p.
Proof.
  revert n. induction l as [|x l IH]; intros n Hd Hp Hq.
  - rewrite take_nil in Hp. by apply elem_of_nil in Hp.
  - destruct Hd as [Hx Hd]. destruct n as [|n]; [by apply elem_of_nil in Hp|].
    cbn [take drop] in Hp, Hq. apply elem_of_cons in Hp as [->|Hp].
    + rewrite Forall_forall in Hx. apply Hx. by eapply subseteq_drop.
    + by eapply IH.
Qed.

Lemma descending_take {A} (key : A → Z) (l : list A) n :
  descending key l → descending key (take n l).
Proof.
  revert n. induction l as [|x l IH]; intros n Hd; [by rewrite take_nil|].
  destruct Hd as [Hx Hd]. destruct n as [|n]; [done|]. cbn [take]. split; [|by apply IH].
  apply Forall_forall. intros y Hy. rewrite Forall_forall in Hx. apply Hx.
  by eapply subseteq_take.
Qed.

Lemma descending_map {A B} (g : A → B) (key : A → Z) (key' : B → Z) (l : list A) :
  (∀ x, x ∈ l → key' (g x) = key x) → descending key l → descending key' (map g l).
Proof.
  induction l as [|x l IH]; intros Hk Hd; [done|].
  destruct Hd as [Hx Hd]. cbn [map]. split.
  - apply Forall_forall. intros y' Hy'.
    apply list_elem_of_In, in_map_iff in Hy' as (y & <- & Hy%list_elem_of_In).
    rewrite (Hk x) by (by left). rewrite (Hk y) by (by right).
    rewrite Forall_forall in Hx. by apply Hx.
  - apply IH; [|done]. intros y Hy. apply Hk. by right.
Qed.

(** Sorting commutes with writing the key into the rows. *)
Lemma insert_desc_map (ins : Row → Row) key key' r l :
  (∀ x, key' (ins x) = key x) →
  insert_desc key' (ins r) (map ins l) = map ins (insert_desc key r l).
Proof.
  intros Hk. induction l as [|x l IH]; [done|].
  cbn [map insert_desc]. rewrite !Hk. destruct (key x <=? key r); [done|].
  cbn [map]. by rewrite IH.
Qed.

Lemma sort_desc_map (ins : Row → Row) key key' l :
  (∀ x, key' (ins x) = key x) →
  sort_desc key' (map ins l) = map ins (sort_desc key l).
Proof.
  intros Hk. induction l as [|r l IH]; [done|].
  cbn [map sort_desc foldr]. fold (sort_desc key' (map ins l)). fold (sort_desc key l).
  rewrite IH. by apply insert_desc_map.
Qed.

Lemma zip_with_total (sc : list str) (rs : list Row) :
  zip_with (fun r v => <[py "total_score" := v]> r) rs
           (map (fun r => CNum (total_score sc r)) rs)
  = map (fun r => <[py "total_score" := CNum (total_score sc r)]> r) rs.
Proof. induction rs as [|r rs IH]; [done|]. cbn [map zip_with]. by rewrite IH. Qed.

(** The cut by rank, as a function of the frame it is given. *)
Lemma trim_ranked c n w0 l f w :
  holds w0 l f w → n < len f → score_columns c ≠ [] →
  ∃ l' w' g,
    trim c n l w = (Ok l', w') ∧ holds w0 l' g w' ∧ columns f ⊆ columns g ∧
    map persona_of (rows g)
    = map persona_of (take (Z.to_nat n) (sort_desc (total_score (score_columns c)) (rows f))).
Proof.
  intros Hh Hn Hsc. pose proof Hh as (Hp & Hl & Hf).
  unfold trim, mbind, M_bind, bind. rewrite (read_frame_at _ _ _ Hf).
  destruct (Z.ltb_spec n (len f)) as [_|?]; [|lia].
  destruct (score_columns c) as [|col cols] eqn:Ecols; [done|].
  set (sc := col :: cols).
  set (f1 := setitem (py "total_score") (map (fun r => CNum (total_score sc r)) (rows f)) f).
  set (w1 := mkWorld (<[l := OFrame f1]> (heap w)) (entropy w) (backend w) (clock w)
                     (stdout_faults w) (stdout w) (log w)).
  assert (Hh1 : holds w0 l f1 w1).
  { split_and!; simpl; [by apply prefix_store|done|].
    apply list_lookup_insert_eq. by eapply lookup_lt_Some. }
  change (store l (OFrame f1) w) with (Ok tt, w1).
  cbv beta iota. rewrite (read_frame_at l f1 w1) by apply Hh1.
  eexists _, _, (nlargest n (py "total_score") f1). split; [reflexivity|]. split_and!.
  - apply (holds_alloc_new w0 l f1 w1 _ Hh1).
  - subst f1. simpl. destruct (str_in _ _); [done|]. intros x Hx. apply elem_of_app. by left.
  - subst f1. unfold nlargest, setitem. cbn [rows]. rewrite zip_with_total.
    rewrite (sort_desc_map _ (total_score sc)) by (intros x; by rewrite at_col_insert_eq).
    rewrite firstn_map, map_map.
    apply map_ext. intros r. apply persona_of_insert, score_labels_fresh.
Qed.

(** *** The match counts the filters leave in the rows *)

Lemma select_rows_elem (rs : list Row) (mask : list bool) (r : Row) : r ∈ select_rows rs mask → r ∈ rs.
Proof.
  revert mask. induction rs as [|x rs IH]; intros [|b mask]; cbn [select_rows];
    try (by intros ?%elem_of_nil).
  destruct b.
  - intros [->|H]%elem_of_cons; [by left|right; by eapply IH].
  - intros H. right. by eapply IH.
Qed.

Lemma apply_filter_rows (test : Row → Res bool) (f g : DataFrame) (r : Row) :
  apply_filter test f = Ok g → r ∈ rows g → r ∈ rows f.
Proof.
  unfold apply_filter, mbind, res_mbind, res_bind.
  destruct (mask_of f test) as [mask|e]; [|done]. intros [= <-]. apply select_rows_elem.
Qed.

Lemma filter_stage_rows {A} (o : option A) (test : A → Row → Res bool)
    (f g : DataFrame) (r : Row) :
  pure_when o (fun a => apply_filter (test a)) f = Ok g → r ∈ rows g → r ∈ rows f.
Proof. destruct o as [a|]; cbn; [apply apply_filter_rows|by intros [= <-]]. Qed.

Lemma match_count_rows (src dst : string) (desired : list str) (rs : list Row)
    (counts : list cell) (r' : Row) :
  res_mapM (fun r => x ← iter_cell (at_col r (py src));
                     Ok (CNum (match_count x desired))) rs = Ok counts →
  r' ∈ zip_with (fun r v => <[py dst := v]> r) rs counts →
  ∃ r x, r ∈ rs ∧ iter_cell (at_col r (py src)) = Ok x ∧
         r' = <[py dst := CNum (match_count x desired)]> r.
Proof.
  revert counts. induction rs as [|r rs IH]; intros counts Hm Hr'.
  - injection Hm as <-. by apply elem_of_nil in Hr'.
  - cbn [res_mapM] in Hm. unfold mbind, res_mbind, res_bind in Hm.
    destruct (iter_cell (at_col r (py src))) as [x|e] eqn:Ex; [|done].
    cbn in Hm. destruct (res_mapM _ rs) as [cs|e] eqn:Ecs; [|done]. injection Hm as <-.
    cbn [zip_with] in Hr'. apply elem_of_cons in Hr' as [->|Hr'].
    + exists r, x. split_and!; [by left|done|done].
    + destruct (IH cs eq_refl Hr') as (r0 & x0 & H0 & Hx0 & ->).
      exists r0, x0. split_and!; [by right|done|done].
Qed.

Lemma count_stage_rows (src dst : string) (desired : list str) (th : Z)
    (f g : DataFrame) (r' : Row) :
  (h ← with_match_count src dst desired f; apply_filter (count_test dst th) h) = Ok g →
  r' ∈ rows g →
  ∃ r x, r ∈ rows f ∧ iter_cell (at_col r (py src)) = Ok x ∧
         r' = <[py dst := CNum (match_count x desired)]> r.
Proof.
  unfold with_match_count, mbind, res_mbind, res_bind.
  destruct (res_mapM _ (rows f)) as [counts|e] eqn:Ec; [|done].
  intros Hg Hr'. apply (apply_filter_rows _ _ _ _ Hg) in Hr'. cbn [setitem rows] in Hr'.
  by eapply match_count_rows.
Qed.

Lemma count_labels_distinct :
  py "hobby_match_count" ≠ py "priority_match_count" ∧
  py "hobby_match_count" ≠ py "hobbies" ∧ py "hobby_match_count" ≠ py "priorities" ∧
  py "priority_match_count" ≠ py "hobbies" ∧ py "priority_match_count" ≠ py "priorities".
Proof. by split_and!. Qed.

Lemma matching_scores (c : Criteria.t) (f m : DataFrame) (r : Row) :
  matching c f = Ok m → r ∈ rows m →
  total_score (score_columns c) r = score c (persona_of r).
Proof.
  destruct count_labels_distinct as (D1 & D2 & D3 & D4 & D5).
  unfold matching, mbind, res_mbind, res_bind.
  destruct (pure_when (Criteria.age_range c) _ f) as [f1|]; [|done].
  destruct (pure_when (truthy (Criteria.professions c)) _ f1) as [f2|]; [|done].
  destruct (pure_when (truthy (Criteria.nationalities c)) _ f2) as [f3|]; [|done].
  destruct (pure_when (truthy (Criteria.salary_ranges c)) _ f3) as [f4|]; [|done].
  destruct (pure_when (truthy (Criteria.desired_hobbies c)) _ f4) as [f5|] eqn:E5; [|done].
  intros E6 Hr.
  assert (H5 : ∀ r5, r5 ∈ rows f5 →
            ∀ d, truthy (Criteria.desired_hobbies c) = Some d →
                 at_col r5 (py "hobby_match_count")
                 = CNum (overlap (Criteria.desired_hobbies c) (at_col r5 (py "hobbies")))).
  { intros r5 Hr5 d Hd. rewrite Hd in E5. cbn [pure_when] in E5.
    destruct (count_stage_rows _ _ _ _ _ _ _ E5 Hr5) as (r4 & x & _ & Hx & ->).
    rewrite at_col_insert_eq, at_col_insert_ne by done.
    unfold overlap. by rewrite Hd, Hx. }
  unfold score, total_score, score_columns, persona_of.
  cbn [SelectedPersona.hobbies SelectedPersona.priorities].
  destruct (truthy (Criteria.desired_priorities c)) as [dp|] eqn:Edp; cbn [pure_when] in E6.
  - destruct (count_stage_rows _ _ _ _ _ _ _ E6 Hr) as (r5 & y & Hr5 & Hy & ->).
    rewrite !(at_col_insert_ne _ (py "priority_match_count")) by done.
    destruct (truthy (Criteria.desired_hobbies c)) as [dh|] eqn:Edh; cbn [app foldr].
    + rewrite at_col_insert_ne by done. rewrite (H5 r5 Hr5 dh eq_refl).
      rewrite at_col_insert_eq. cbn [score_of].
      unfold overlap at 3. rewrite Edp, Hy. lia.
    + rewrite at_col_insert_eq. cbn [score_of].
      unfold overlap. rewrite Edh, Edp, Hy. lia.
  - injection E6 as <-.
    destruct (truthy (Criteria.desired_hobbies c)) as [dh|] eqn:Edh; cbn [app foldr].
    + rewrite (H5 r Hr dh eq_refl). cbn [score_of]. unfold overlap at 3. rewrite Edp. lia.
    + unfold overlap. by rewrite Edh, Edp.
Qed.

(** The whole selection, on the path that cuts by rank. *)
Lemma ranked_selection self c n b w f cat m :
  selector_state w self f cat → matching c f = Ok m → n < len m →
  score_columns c ≠ [] →
  fst (get_selected_personas self c n b w)
  = Ok (map persona_of
          (take (Z.to_nat n) (sort_desc (total_score (score_columns c)) (rows m)))).
Proof.
  intros (Hdf & Hcat & Hcols) Em Hn Hsc.
  unfold get_selected_personas, _filter_personas, try_except, mbind, M_bind, bind.
  rewrite (read_frame_at _ _ _ Hdf). unfold alloc at 1.
  set (w1 := mkWorld (heap w ++ [OFrame f]) _ _ _ _ _ _).
  assert (H1 : holds w (length (heap w)) f w1).
  { split_and!; simpl; [by apply prefix_app_r|done|apply lookup_alloc]. }
  cbv beta iota.
  pose proof (frame_step_apply_filters c w _ f w1 H1) as Hf. rewrite Em in Hf.
  destruct Hf as (l2 & w2 & -> & H2).
  destruct (backfill_spec self c n b w l2 m w2 cat H2 Hcat) as (r3 & w3 & -> & Hp3 & Hr3).
  assert (Hnofill : (len m <? n) && b = false).
  { apply andb_false_iff. left. apply Z.ltb_ge. lia. }
  rewrite Hnofill in Hr3.
  destruct r3 as [l3|e]; [|by destruct Hr3].
  destruct (trim_ranked c n w l3 m w3 Hr3 Hn Hsc) as (l4 & w4 & g & -> & H4 & Hc4 & Hg).
  rewrite (read_frame_at _ _ _ (proj2 (proj2 H4))).
  unfold logger, ret. cbv beta iota.
  unfold read_frame. cbn [heap]. rewrite (proj2 (proj2 H4)). unfold lift.
  rewrite mapM_from_series.
  - cbn [fst]. by rewrite Hg.
  - apply matching_personas in Em as [_ Hmc].
    intros x Hx. by apply Hc4, Hmc, Hcols.
Qed.

(** X14: when more records match than are wanted and a desired list of
    hobbies or priorities is given, [get_selected_personas] returns the
    wanted number of matching records, those of highest total score (the
    number of desired hobbies plus the number of desired priorities the record
    has): the result is in descending order of score, and no matching record
    left out scores higher than one that is returned. *)
Theorem selection_keeps_best self c n b w f cat ps :
  selector_state w self f cat → 0 ≤ n → n < Z.of_nat (length (matches c f)) →
  truthy (Criteria.desired_hobbies c) ≠ None ∨
  truthy (Criteria.desired_priorities c) ≠ None →
  fst (get_selected_personas self c n b w) = Ok ps →
  ∃ rest,
    matches c f ≡ₚ ps ++ rest ∧ Z.of_nat (length ps) = n ∧
    descending (score c) ps ∧
    ∀ p q, p ∈ ps → q ∈ rest → score c q ≤ score c p.
Proof.
  intros Hs Hn Hlt Hdesired Hsel.
  assert (Hsc : score_columns c ≠ []).
  { unfold score_columns.
    destruct (truthy (Criteria.desired_hobbies c)); [done|].
    destruct (truthy (Criteria.desired_priorities c)); [done|]. by destruct Hdesired. }
  destruct (matching c f) as [m|e] eqn:Em.
  2:{ destruct (selection_spec self c n b w f cat Hs) as (r & w1 & E & _ & Hout).
      unfold outcome in Hout. rewrite Em in Hout. rewrite E in Hsel. cbn in Hsel. congruence. }
  pose proof (matching_personas c f m Em) as [Hm _].
  assert (Hlen : len m = Z.of_nat (length (matches c f))).
  { unfold len. by rewrite <- Hm, length_map. }
  rewrite (ranked_selection self c n b w f cat m Hs Em) in Hsel by (done || lia).
  injection Hsel as <-.
  set (key := total_score (score_columns c)).
  set (sorted := sort_desc key (rows m)).
  assert (Hperm : sorted ≡ₚ rows m) by apply sort_desc_perm.
  assert (Hkey : ∀ x, x ∈ sorted → score c (persona_of x) = key x).
  { intros x Hx. symmetry. apply (matching_scores c f m); [done|]. by rewrite <- Hperm. }
  exists (map persona_of (drop (Z.to_nat n) sorted)). split_and!.
  - rewrite <- map_app, take_drop, <- Hm. by rewrite Hperm.
  - rewrite length_map, length_take, (Permutation_length Hperm).
    unfold len in Hlen. lia.
  - apply (descending_map persona_of key).
    + intros x Hx. apply Hkey. by eapply subseteq_take.
    + apply descending_take, sort_desc_descending.
  - intros p q Hp Hq.
    apply list_elem_of_In, in_map_iff in Hp as (x & <- & Hx%list_elem_of_In).
    apply list_elem_of_In, in_map_iff in Hq as (y & <- & Hy%list_elem_of_In).
    rewrite (Hkey x) by (by eapply subseteq_take).
    rewrite (Hkey y) by (by eapply subseteq_drop).
    eapply descending_split; [apply sort_desc_descending|done..].
Qed.

Lemma selection_keeps_best_witness :
  selector_state Sheet.world Sheet.self Sheet.store Sheet.catalog ∧
  2 < Z.of_nat (length (matches Bench.players Sheet.store)) ∧
  fst (get_selected_personas Sheet.self Bench.players 2 false Sheet.world)
  = Ok Bench.best_players ∧
  map SelectedPersona.name Bench.best_players = [CStr (py "Asha"); CStr (py "Chen")] ∧
  ∃ rest,
    matches Bench.players Sheet.store ≡ₚ Bench.best_players ++ rest ∧
    Z.of_nat (length Bench.best_players) = 2 ∧
    descending (score Bench.players) Bench.best_players ∧
    ∀ p q, p ∈ Bench.best_players → q ∈ rest →
           score Bench.players q ≤ score Bench.players p.
Proof.
  assert (Hs : selector_state Sheet.world Sheet.self Sheet.store Sheet.catalog).
  { split_and!; [reflexivity|reflexivity|]. by apply (bool_decide_unpack _). }
  assert (Hlt : 2 < Z.of_nat (length (matches Bench.players Sheet.store)))
    by (vm_compute; reflexivity).
  assert (Hsel : fst (get_selected_personas Sheet.self Bench.players 2 false Sheet.world)
                 = Ok Bench.best_players) by (vm_compute; reflexivity).
  split; [exact Hs|]. split; [exact Hlt|]. split; [exact Hsel|].
  split; [reflexivity|].
  apply (selection_keeps_best Sheet.self Bench.players 2 false Sheet.world
           Sheet.store Sheet.catalog Bench.best_players Hs); [lia|exact Hlt| |exact Hsel].
  left. discriminate.
Defined.

(** ** The lists of a synthesized persona *)

Lemma multi_valued_shape desired m catalog hi v :
  multi_valued_ok desired m catalog hi v →
  seed_size desired m + 1 ≤ Z.of_nat (length v) ≤ seed_size desired m + hi ∧
  (∀ x, x ∈ v → (∃ l, truthy desired = Some l ∧ x ∈ l) ∨ x ∈ catalog) ∧
  (NoDup catalog → distinct desired → NoDup v).
Proof.
  intros (seed & extra & -> & Hseed & Hextra & Hlen).
  unfold seeded_from, seed_size, distinct in *. rewrite length_app. split_and!.
  - destruct (truthy desired) as [l|]; [destruct Hseed as [_ Hs]; lia|subst seed; cbn; lia].
  - destruct (truthy desired) as [l|]; [destruct Hseed as [_ Hs]; lia|subst seed; cbn; lia].
  - intros x [Hx|Hx]%elem_of_app.
    + left. destruct (truthy desired) as [l|]; [|subst; by apply elem_of_nil in Hx].
      exists l. split; [done|]. destruct Hseed as [Hsub _]. by eapply elem_of_submseteq.
    + right. eapply elem_of_submseteq in Hx; [|exact Hextra].
      by apply list_elem_of_filter in Hx as [_ ?].
  - intros Hcat Hdes. apply NoDup_app. split_and!.
    + destruct (truthy desired) as [l|]; [|subst; constructor].
      destruct Hseed as [Hsub _]. eapply submseteq_NoDup_l; [exact Hsub|by apply Hdes].
    + intros x Hx Hx'. eapply elem_of_submseteq in Hx'; [|exact Hextra].
      apply list_elem_of_filter in Hx' as [Hno _].
      apply negb_prop_elim in Hno. apply Hno. unfold str_in.
      by apply bool_decide_pack.
    + eapply submseteq_NoDup_l; [exact Hextra|]. by apply NoDup_filter.
Qed.

(** X15: the lists of a persona that [_generate_random_persona] returns.
    Its hobbies are the seed drawn from the desired hobbies and between one
    and three further values, its priorities the seed and one or two further
    values, its constraints one or two values; every value comes from the
    desired list or from the catalog; and no value is listed twice when the
    catalog and the desired lists have no value twice. *)
Theorem synthesized_lists_shape self c cat w r :
  heap w !! unique_values self = Some (ODict cat) →
  fst (_generate_random_persona self c w) = Ok r →
  ∃ h q k,
    SelectedPersona.hobbies (persona_of r) = CList h ∧
    SelectedPersona.priorities (persona_of r) = CList q ∧
    SelectedPersona.constraints (persona_of r) = CList k ∧
    (let s := seed_size (Criteria.desired_hobbies c) (Criteria.min_matching_hobbies c) in
     s + 1 ≤ Z.of_nat (length h) ≤ s + 3) ∧
    (let s := seed_size (Criteria.desired_priorities c)
                (Criteria.min_matching_priorities c) in
     s + 1 ≤ Z.of_nat (length q) ≤ s + 2) ∧
    1 ≤ Z.of_nat (length k) ≤ 2 ∧
    (∀ x, x ∈ h → (∃ l, truthy (Criteria.desired_hobbies c) = Some l ∧ x ∈ l)
                  ∨ x ∈ Catalog.hobbies cat) ∧
    (∀ x, x ∈ q → (∃ l, truthy (Criteria.desired_priorities c) = Some l ∧ x ∈ l)
                  ∨ x ∈ Catalog.priorities cat) ∧
    (∀ x, x ∈ k → x ∈ Catalog.constraints cat) ∧
    (NoDup (Catalog.hobbies cat) → distinct (Criteria.desired_hobbies c) → NoDup h) ∧
    (NoDup (Catalog.priorities cat) → distinct (Criteria.desired_priorities c) → NoDup q) ∧
    (NoDup (Catalog.constraints cat) → NoDup k).
Proof.
  intros Hcat Hrun.
  destruct (generate_spec self c cat w Hcat) as (r' & w' & E & _ & Hgen).
  rewrite E in Hrun. cbn [fst] in Hrun. subst r'.
  destruct Hgen as (n & a & p & t & s & h & q & k & -> & _ & _ & _ & _ & _ & Hh & Hq & Hk & Hkl).
  exists h, q, k. rewrite persona_of_series.
  destruct (multi_valued_shape _ _ _ _ _ Hh) as (Hh1 & Hh2 & Hh3).
  destruct (multi_valued_shape _ _ _ _ _ Hq) as (Hq1 & Hq2 & Hq3).
  split_and!; try done; try lia.
  - intros x Hx. by eapply elem_of_submseteq.
  - intros Hnd. by eapply submseteq_NoDup_l.
Qed.

Lemma synthesized_lists_shape_witness :
  heap Sheet.world !! unique_values Sheet.self = Some (ODict Sheet.catalog) ∧
  ∃ r, fst (_generate_random_persona Sheet.self Sheet.engineers Sheet.world) = Ok r ∧
       ∃ h, SelectedPersona.hobbies (persona_of r) = CList h ∧
            1 ≤ Z.of_nat (length h) ≤ 3.
Proof.
  assert (Hcat : heap Sheet.world !! unique_values Sheet.self = Some (ODict Sheet.catalog))
    by reflexivity.
  assert (Hok : is_ok (fst (_generate_random_persona Sheet.self Sheet.engineers
                              Sheet.world)) = true) by (vm_compute; reflexivity).
  split; [exact Hcat|].
  destruct (fst (_generate_random_persona Sheet.self Sheet.engineers Sheet.world))
    as [r|e] eqn:E; [|discriminate Hok].
  exists r. split; [reflexivity|].
  destruct (synthesized_lists_shape Sheet.self Sheet.engineers Sheet.catalog Sheet.world r
              Hcat E) as (h & q & k & Hh & _ & _ & Hlen & _).
  exists h. split; [exact Hh|exact Hlen].
Defined.

(** ** The selector's own review loop *)

Section SelectorReviewsExtras.
Context `{PyFloat} `{!ClientLibrary}.

Lemma turns_agree reviewer product p w :
  SelectorReviews.review_persona reviewer product p w
  = (res_map as_review (fst (Manager.review_persona reviewer product p w)),
     snd (Manager.review_persona reviewer product p w)).
Proof.
  unfold SelectorReviews.review_persona, Manager.review_persona, mbind, M_bind, bind, lift.
  destruct (to_reviewer_profile p) as [profile|e]; [|done].
  destruct (generate_review reviewer product profile w) as [[session|e] w1]; done.
Qed.

Lemma loops_agree reviewer product personas reviews w :
  SelectorReviews.review_loop reviewer product personas (map as_review reviews) w
  = (res_map (map as_review) (fst (Manager.review_loop reviewer product personas reviews w)),
     snd (Manager.review_loop reviewer product personas reviews w)).
Proof.
  revert reviews w. induction personas as [|p rest IH]; intros reviews w; [done|].
  cbn [SelectorReviews.review_loop Manager.review_loop].
  unfold mbind, M_bind, bind, try_except, logger, mret, M_ret, ret.
  rewrite turns_agree.
  destruct (Manager.review_persona reviewer product p w) as [[rec|e] w1]; cbn [fst snd res_map].
  - change (map as_review reviews ++ [as_review rec]) with
      (map as_review reviews ++ map as_review [rec]).
    rewrite <- map_app. apply IH.
  - apply IH.
Qed.

(** X16: [PersonaSelector.generate_reviews] runs the loop of the
    orchestrator.  On the same personas and in the same world its loop
    returns the reviews of the personas whose turn succeeds, in the order of
    the personas, with the fields of the orchestrator's records, and leaves
    the same world behind; when the selection with backfill and the
    construction of the reviewer succeed, the call returns these reviews, no
    more of them than personas were selected. *)
Theorem selector_reviews_follow_personas :
  (∀ reviewer product personas w,
     SelectorReviews.review_loop reviewer product personas [] w
     = (Ok (map as_review (successes (outcomes reviewer product personas w))),
        snd (Manager.review_loop reviewer product personas [] w))) ∧
  (∀ self product c n provider api_key model_config w personas reviewer,
     fst (get_selected_personas self c n true w) = Ok personas →
     fst (Reviewer.__init__ provider api_key model_config
            (snd (get_selected_personas self c n true w))) = Ok reviewer →
     let start := snd (Reviewer.__init__ provider api_key model_config
                         (snd (get_selected_personas self c n true w))) in
     let rs := outcomes reviewer product personas start in
     fst (SelectorReviews.generate_reviews self product c n provider api_key model_config w)
     = Ok (map as_review (successes rs)) ∧
     (length (successes rs) ≤ length personas)%nat).
Proof.
  assert (Hloop : ∀ reviewer product personas w,
     SelectorReviews.review_loop reviewer product personas [] w
     = (Ok (map as_review (successes (outcomes reviewer product personas w))),
        snd (Manager.review_loop reviewer product personas [] w))).
  { intros reviewer product personas w.
    pose proof (loops_agree reviewer product personas [] w) as Hl. cbn [map] in Hl.
    rewrite Hl. destruct (review_loop_spec reviewer product personas [] w) as (w' & -> & _).
    done. }
  split; [exact Hloop|].
  intros self product c n provider api_key model_config w personas reviewer Hsel Hnew
    start rs.
  split.
  2:{ pose proof (failures_count personas rs (outcomes_length _ _ _ _)). lia. }
  unfold SelectorReviews.generate_reviews, try_except.
  unfold mbind at 1, M_bind at 1, bind at 1.
  unfold rs, start. clear rs start. revert Hnew.
  destruct (get_selected_personas self c n true w) as [r w1]. cbn [fst snd] in *. subst r.
  unfold mbind at 1, M_bind at 1, bind at 1.
  destruct (Reviewer.__init__ provider api_key model_config w1) as [r w2].
  cbn [fst snd]. intros ->.
  unfold mbind at 1, M_bind at 1, bind at 1. rewrite Hloop.
  by unfold mbind, M_bind, bind, logger.
Qed.

End SelectorReviewsExtras.

Lemma selector_reviews_follow_personas_witness :
  fst (get_selected_personas Sheet.self Sheet.no_criteria 5 true Desk.world)
  = Ok Desk.personas ∧
  fst (@Reviewer.__init__ integral_floats Desk.accept_all (py "gemini") Desk.key None
         (snd (get_selected_personas Sheet.self Sheet.no_criteria 5 true Desk.world)))
  = Ok Bench.reviewer ∧
  res_map length
    (fst (@SelectorReviews.generate_reviews integral_floats Desk.accept_all
            Sheet.self Desk.product Sheet.no_criteria 5 (py "gemini") Desk.key None
            Desk.world)) = Ok 4%nat.
Proof.
  assert (Hsel : fst (get_selected_personas Sheet.self Sheet.no_criteria 5 true Desk.world)
                 = Ok Desk.personas) by (vm_compute; reflexivity).
  assert (Hnew : fst (@Reviewer.__init__ integral_floats Desk.accept_all (py "gemini")
                        Desk.key None
                        (snd (get_selected_personas Sheet.self Sheet.no_criteria 5 true
                                Desk.world)))
                 = Ok Bench.reviewer) by reflexivity.
  split; [exact Hsel|]. split; [exact Hnew|].
  destruct (proj2 (@selector_reviews_follow_personas integral_floats Desk.accept_all)
              Sheet.self Desk.product Sheet.no_criteria 5 (py "gemini") Desk.key None
              Desk.world Desk.personas Bench.reviewer Hsel Hnew) as [Hrun _].
  rewrite Hrun. cbn [res_map]. rewrite length_map. apply (f_equal Ok).
  vm_compute. reflexivity.
Defined.

(** ** Constructing the manager *)

Lemma selector_init_log (read_excel : Res DataFrame) (w : World) :
  match fst (Selector.__init__ read_excel w) with
  | Raise e =>
      last (log (snd (Selector.__init__ read_excel w)))
      = Some (mkLog ERROR (py "Error initializing PersonaSelector: ") [ArgExn e])
  | Ok _ =>
      last (log (snd (Selector.__init__ read_excel w)))
      = Some (mkLog INFO (py "Successfully initialized PersonaSelector") [])
  end.
Proof.
  unfold Selector.__init__, try_except, mbind, M_bind, bind, lift, logger, mret, M_ret,
    ret, raise.
  destruct read_excel as [f|e]; cbn [fst snd log]; [|apply last_snoc].
  destruct (alloc (OFrame f) w) as [[l|e] w1]; cbn [fst snd log]; [|apply last_snoc].
  destruct (prepare_dataframe l w1) as [[[]|e] w2]; cbn [fst snd log]; [|apply last_snoc].
  destruct (_cache_unique_values l w2) as [[uv|e] w3]; cbn [fst snd log]; apply last_snoc.
Qed.

(** X17: the ways [Manager(persona_data_path, summarizer_api_key)] ends.
    When the selector cannot be built, its exception is raised and is the
    one of the last log record, at error level; otherwise the last record
    reports the selector, an exception of the summarizer's client
    constructor is raised without a further record, and else the manager
    holds that selector and a Gemini client for [gemini-1.5-pro] with the
    given key.  The summarizer's constructor never changes the world. *)
Theorem manager_construction_outcomes `{PyFloat} `{ExnText} `{!ClientLibrary}
    (read_excel : Res DataFrame) (summarizer_api_key : str) (w : World) :
  let built := Selector.__init__ read_excel w in
  match fst built with
  | Raise e =>
      Manager.__init__ read_excel summarizer_api_key w = (Raise e, snd built) ∧
      last (log (snd built))
      = Some (mkLog ERROR (py "Error initializing PersonaSelector: ") [ArgExn e])
  | Ok selector =>
      last (log (snd built))
      = Some (mkLog INFO (py "Successfully initialized PersonaSelector") []) ∧
      match client_check GEMINI (summarizer_config summarizer_api_key) with
      | Some e => Manager.__init__ read_excel summarizer_api_key w = (Raise e, snd built)
      | None =>
          ∃ m, Manager.__init__ read_excel summarizer_api_key w = (Ok m, snd built) ∧
               persona_selector m = selector ∧
               summarizer_model (summarizer m)
               = mkModel GEMINI (summarizer_config summarizer_api_key) ∧
               settings (summarizer_model (summarizer m)) !! py "model"
               = Some (PStr (py "gemini-1.5-pro"))
      end
  end.
Proof.
  intros built. pose proof (selector_init_log read_excel w) as Hlog.
  fold built in Hlog. unfold Manager.__init__, new_summarizer, new_client, mbind, M_bind,
    bind, lift, mret, M_ret, ret.
  fold built. destruct built as [[selector|e] w1]; cbn [fst snd] in *; [|done].
  split; [done|].
  destruct (client_check GEMINI _) as [e|]; cbn [res_map]; [done|].
  eexists. split; [reflexivity|]. cbn [persona_selector summarizer summarizer_model settings].
  split_and!; [done..|]. unfold summarizer_config.
  rewrite lookup_insert_eq. done.
Qed.
